(** * The building system of js/gameplay/BuildingSystem.js

    A shallow embedding of the [BuildingSystem] class (grid snapping,
    surface-normal orientation, placement validation, commit, timed
    construction and damage) together with the parts of its collaborators
    that the class touches, and of the classes around it: the physics
    world, the engine's frame loop and its frame callbacks, the scene
    manager, the camera's mouse handling, the weapon and the projectile.

    Conventions of the embedding.
    - JavaScript numbers are exact rationals ([Q]): IEEE rounding is
      abstracted away, a decimal literal stands for its mathematical value
      and [Math.PI] for the value of the double it denotes.  Numbers are
      compared with [==] ([Qeq]) unless a result is built from literals.
    - Objects that are shared and mutated (the structure records, which the
      [structures] array and the interval closures both reference) live in a
      [heap]; a reference is an index into it.
    - The scene graph, the physics world and the network are collaborators:
      every call the class makes on them is appended to the [calls] log.
    - What the host supplies (the ray-cast result, the clocks, the random
      number) is an argument of the operation that reads it.
    - A thrown [TypeError] is the result [None]. *)

From Stdlib Require Import QArith Qround Qabs Qminmax Lqa ZArith Lia.
From stdpp Require Import base option list strings gmap.

Open Scope Q_scope.

(** ** Numbers *)

Module JsMath.

(** [Math.round]: the nearest integer, a tie going up. *)
Definition round (v : Q) : Z := Qfloor (v + (1 # 2)).

(** [Math.abs] and [Math.min]. *)
Definition abs (v : Q) : Q := Qabs v.
Definition min (a b : Q) : Q := Qmin a b.

(** [Math.PI], the double 3.141592653589793 as the rational it is. *)
Definition PI : Q := 884279719003555 # 281474976710656.

(** The comparisons [a > b], [a < b], [a >= b] and [a <= b]. *)
Definition gt (a b : Q) : bool := negb (Qle_bool a b).
Definition lt (a b : Q) : bool := negb (Qle_bool b a).
Definition ge (a b : Q) : bool := Qle_bool b a.
Definition le (a b : Q) : bool := Qle_bool a b.

End JsMath.

(** ** The three.js value types the class uses *)

Module Vector3.
Record t := mk { x : Q; y : Q; z : Q }.

(** [v.setScalar(k)]. *)
Definition setScalar (k : Q) : t := mk k k k.

(** Component-wise equality of numbers. *)
Definition equiv (a b : t) : Prop := x a == x b /\ y a == y b /\ z a == z b.
End Vector3.

Module Euler.
Record t := mk { x : Q; y : Q; z : Q }.
End Euler.

Module Box3.
Record t := mk { min : Vector3.t; max : Vector3.t }.
End Box3.

(** ** Kinds and materials *)

(** The build modes: the strings of [this.buildModes]. *)
Inductive BuildMode := wall | floor | ramp | roof.

(** The materials: the keys of [this.materialProps]. *)
Inductive Material := wood | stone | metal.

#[global] Instance BuildMode_eq_dec : EqDecision BuildMode.
Proof. solve_decision. Defined.

#[global] Instance Material_eq_dec : EqDecision Material.
Proof. solve_decision. Defined.

Definition buildModes : list string := ["wall"; "floor"; "ramp"; "roof"]%string.

Definition modeName (m : BuildMode) : string :=
  match m with
  | wall => "wall" | floor => "floor" | ramp => "ramp" | roof => "roof"
  end%string.

(** The mode a string names; [None] when [buildModes.includes] is false. *)
Definition modeOfString (name : string) : option BuildMode :=
  if decide (name = "wall"%string) then Some wall
  else if decide (name = "floor"%string) then Some floor
  else if decide (name = "ramp"%string) then Some ramp
  else if decide (name = "roof"%string) then Some roof
  else None.

(** [obj[key] = v] on an object whose keys are an enumeration. *)
Definition setKey {K V : Type} `{EqDecision K} (obj : K -> V) (key : K) (v : V) : K -> V :=
  fun k => if decide (k = key) then v else obj k.

(** ** Meshes, bodies and structures *)

Module Mesh.
(** A [THREE.Mesh]: the geometry is named by the build mode whose ghost
    geometry it is (or a clone of); the colour is that of its material.
    Shadow flags, opacity and roughness take no part in the logic. *)
Record t := mk {
  geometry : BuildMode;
  position : Vector3.t;
  rotation : Euler.t;
  scale : Vector3.t;
  visible : bool;
  color : Z
}.

Definition setPosition (p : Vector3.t) (m : t) : t :=
  mk (geometry m) p (rotation m) (scale m) (visible m) (color m).
Definition setRotation (r : Euler.t) (m : t) : t :=
  mk (geometry m) (position m) r (scale m) (visible m) (color m).
Definition setScale (k : Vector3.t) (m : t) : t :=
  mk (geometry m) (position m) (rotation m) k (visible m) (color m).
Definition setVisible (b : bool) (m : t) : t :=
  mk (geometry m) (position m) (rotation m) (scale m) b (color m).
Definition setColor (c : Z) (m : t) : t :=
  mk (geometry m) (position m) (rotation m) (scale m) (visible m) c.
End Mesh.

Module Body.
(** A [CANNON.Body] with a box shape given by its half extents; the
    orientation copied from the mesh is kept as the mesh's Euler angles. *)
Record t := mk {
  mass : Q;
  shape : Vector3.t;
  position : Vector3.t;
  quaternion : Euler.t
}.
End Body.

Record MaterialProps := { props_hp : Q; props_buildTime : Q }.

Module Structure.
Record t := mk {
  id : string;
  mesh : Mesh.t;
  body : Body.t;
  type : BuildMode;
  material : Material;
  hp : Q;
  maxHp : Q;
  buildTime : Q;
  builtAt : Q;
  isBuilding : bool
}.

Definition setHp (v : Q) (s : t) : t :=
  mk (id s) (mesh s) (body s) (type s) (material s) v (maxHp s)
     (buildTime s) (builtAt s) (isBuilding s).
Definition setMesh (m : Mesh.t) (s : t) : t :=
  mk (id s) m (body s) (type s) (material s) (hp s) (maxHp s)
     (buildTime s) (builtAt s) (isBuilding s).
Definition setIsBuilding (b : bool) (s : t) : t :=
  mk (id s) (mesh s) (body s) (type s) (material s) (hp s) (maxHp s)
     (buildTime s) (builtAt s) b.
End Structure.

(** ** Collaborators *)

(** A mesh known to the scene: the terrain, a ghost, or the mesh of the
    structure at a heap reference. *)
Inductive MeshRef :=
| terrain
| ghostMesh (m : BuildMode)
| structureMesh (r : nat).

(** The message of [network.send]. *)
Record BuildEvent := {
  ev_type : string;
  ev_buildType : BuildMode;
  ev_position : Vector3.t;
  ev_rotation : Euler.t
}.

(** The calls made on the scene, the physics world and the network. *)
Inductive Call :=
| scene_add (m : MeshRef)
| scene_remove (m : MeshRef)
| physics_addBody (id : string) (r : nat)
| physics_removeBody (id : string)
| network_send (e : BuildEvent).

(** The two functions of [THREE.Box3] the validator calls. *)
Class ThreeBox3 := {
  setFromObject : Mesh.t -> Box3.t;
  intersectsBox : Box3.t -> Box3.t -> bool
}.

(** What the host returns when a structure is created: the printed
    [Date.now()] and [Math.random()], and [performance.now()]. *)
Record Host := {
  Date_now : string;
  Math_random : string;
  performance_now : Q
}.

(** The first intersection of the camera ray, as [intersectObjects] gives it. *)
Record RayIntersection := {
  hit_point : Vector3.t;
  hit_normal : Vector3.t;
  hit_object : MeshRef
}.

Record Placement := {
  pl_position : Vector3.t;
  pl_rotation : Euler.t;
  pl_attachedTo : MeshRef
}.

(** ** The state *)

Record BuildingSystem := mkSystem {
  resources : Material -> Z;
  currentBuildMode : BuildMode;
  currentMaterial : Material;
  isBuilding : bool;
  ghostPiece : option BuildMode;
  placementValid : bool;
  gridSize : Q;
  costs : BuildMode -> Z;
  materialProps : Material -> MaterialProps;
  structures : list nat;
  ghostMeshes : BuildMode -> Mesh.t;
  heap : list Structure.t;
  intervals : list nat;
  calls : list Call
}.

Definition withResources (v : Material -> Z) (s : BuildingSystem) : BuildingSystem :=
  mkSystem v (currentBuildMode s) (currentMaterial s) (isBuilding s)
    (ghostPiece s) (placementValid s) (gridSize s) (costs s) (materialProps s)
    (structures s) (ghostMeshes s) (heap s) (intervals s) (calls s).
Definition withCurrentBuildMode (v : BuildMode) (s : BuildingSystem) : BuildingSystem :=
  mkSystem (resources s) v (currentMaterial s) (isBuilding s)
    (ghostPiece s) (placementValid s) (gridSize s) (costs s) (materialProps s)
    (structures s) (ghostMeshes s) (heap s) (intervals s) (calls s).
Definition withIsBuilding (v : bool) (s : BuildingSystem) : BuildingSystem :=
  mkSystem (resources s) (currentBuildMode s) (currentMaterial s) v
    (ghostPiece s) (placementValid s) (gridSize s) (costs s) (materialProps s)
    (structures s) (ghostMeshes s) (heap s) (intervals s) (calls s).
Definition withGhostPiece (v : option BuildMode) (s : BuildingSystem) : BuildingSystem :=
  mkSystem (resources s) (currentBuildMode s) (currentMaterial s) (isBuilding s)
    v (placementValid s) (gridSize s) (costs s) (materialProps s)
    (structures s) (ghostMeshes s) (heap s) (intervals s) (calls s).
Definition withPlacementValid (v : bool) (s : BuildingSystem) : BuildingSystem :=
  mkSystem (resources s) (currentBuildMode s) (currentMaterial s) (isBuilding s)
    (ghostPiece s) v (gridSize s) (costs s) (materialProps s)
    (structures s) (ghostMeshes s) (heap s) (intervals s) (calls s).
Definition withStructures (v : list nat) (s : BuildingSystem) : BuildingSystem :=
  mkSystem (resources s) (currentBuildMode s) (currentMaterial s) (isBuilding s)
    (ghostPiece s) (placementValid s) (gridSize s) (costs s) (materialProps s)
    v (ghostMeshes s) (heap s) (intervals s) (calls s).
Definition withGhostMeshes (v : BuildMode -> Mesh.t) (s : BuildingSystem) : BuildingSystem :=
  mkSystem (resources s) (currentBuildMode s) (currentMaterial s) (isBuilding s)
    (ghostPiece s) (placementValid s) (gridSize s) (costs s) (materialProps s)
    (structures s) v (heap s) (intervals s) (calls s).
Definition withHeap (v : list Structure.t) (s : BuildingSystem) : BuildingSystem :=
  mkSystem (resources s) (currentBuildMode s) (currentMaterial s) (isBuilding s)
    (ghostPiece s) (placementValid s) (gridSize s) (costs s) (materialProps s)
    (structures s) (ghostMeshes s) v (intervals s) (calls s).
Definition withIntervals (v : list nat) (s : BuildingSystem) : BuildingSystem :=
  mkSystem (resources s) (currentBuildMode s) (currentMaterial s) (isBuilding s)
    (ghostPiece s) (placementValid s) (gridSize s) (costs s) (materialProps s)
    (structures s) (ghostMeshes s) (heap s) v (calls s).
Definition withCalls (v : list Call) (s : BuildingSystem) : BuildingSystem :=
  mkSystem (resources s) (currentBuildMode s) (currentMaterial s) (isBuilding s)
    (ghostPiece s) (placementValid s) (gridSize s) (costs s) (materialProps s)
    (structures s) (ghostMeshes s) (heap s) (intervals s) v.

(** A call on a collaborator. *)
Definition call (c : Call) (s : BuildingSystem) : BuildingSystem :=
  withCalls (calls s ++ [c]) s.

(** A write through a reference to a ghost mesh. *)
Definition updateGhost (g : BuildMode) (f : Mesh.t -> Mesh.t) (s : BuildingSystem) : BuildingSystem :=
  withGhostMeshes (setKey (ghostMeshes s) g (f (ghostMeshes s g))) s.

(** A write through a reference to a structure. *)
Definition store (r : nat) (v : Structure.t) (s : BuildingSystem) : BuildingSystem :=
  withHeap (<[r := v]> (heap s)) s.

(** ** Construction of the system *)

(** [createGhostMesh(geometry)]: a green mesh, hidden, added to the scene. *)
Definition createGhostMesh (geometry : BuildMode) (s : BuildingSystem) : Mesh.t * BuildingSystem :=
  let mesh := Mesh.mk geometry (Vector3.mk 0 0 0) (Euler.mk 0 0 0) (Vector3.mk 1 1 1)
                true 0x00ff00%Z in
  (Mesh.setVisible false mesh, call (scene_add (ghostMesh geometry)) s).

(** [setupGhostPieces]: the ghost of each mode, in the order wall, floor,
    ramp, roof. *)
Definition setupGhostPieces (s : BuildingSystem) : BuildingSystem :=
  let '(wallMesh, s1) := createGhostMesh wall s in
  let s2 := updateGhost wall (fun _ => wallMesh) s1 in
  let '(floorMesh, s3) := createGhostMesh floor s2 in
  let s4 := updateGhost floor (fun _ => floorMesh) s3 in
  let '(rampMesh, s5) := createGhostMesh ramp s4 in
  let s6 := updateGhost ramp (fun _ => rampMesh) s5 in
  let '(roofMesh, s7) := createGhostMesh roof s6 in
  updateGhost roof (fun _ => roofMesh) s7.

(** [new BuildingSystem(scene, physics, player)]; of the player only its
    [resources] object is read and written.  The value given to
    [ghostMeshes] stands for the object before [setupGhostPieces] fills its
    four keys. *)
Definition constructor (playerResources : Material -> Z) : BuildingSystem :=
  setupGhostPieces
    {| resources := playerResources;
       currentBuildMode := wall;
       currentMaterial := wood;
       isBuilding := false;
       ghostPiece := None;
       placementValid := false;
       gridSize := 2;
       costs := fun m =>
         match m with
         | wall => 10 | floor => 10 | ramp => 10 | roof => 10
         end%Z;
       materialProps := fun m =>
         match m with
         | wood => {| props_hp := 150; props_buildTime := 4 |}
         | stone => {| props_hp := 300; props_buildTime := 7 |}
         | metal => {| props_hp := 500; props_buildTime := 10 |}
         end;
       structures := [];
       ghostMeshes := fun g =>
         Mesh.mk g (Vector3.mk 0 0 0) (Euler.mk 0 0 0) (Vector3.mk 1 1 1) false 0%Z;
       heap := [];
       intervals := [];
       calls := [] |}.

(** ** Build mode *)

Definition enterBuildMode (s : BuildingSystem) : BuildingSystem :=
  let s1 := withIsBuilding true s in
  let s2 := withGhostPiece (Some (currentBuildMode s1)) s1 in
  updateGhost (currentBuildMode s1) (Mesh.setVisible true) s2.

Definition exitBuildMode (s : BuildingSystem) : BuildingSystem :=
  let s1 := withIsBuilding false s in
  match ghostPiece s1 with
  | Some g => updateGhost g (Mesh.setVisible false) s1
  | None => s1
  end.

Definition switchBuildMode (mode : string) (s : BuildingSystem) : BuildingSystem :=
  match modeOfString mode with
  | None => s
  | Some m =>
      let s1 := match ghostPiece s with
                | Some g => updateGhost g (Mesh.setVisible false) s
                | None => s
                end in
      let s2 := withCurrentBuildMode m s1 in
      let s3 := withGhostPiece (Some m) s2 in
      if isBuilding s3 then updateGhost m (Mesh.setVisible true) s3 else s3
  end.

(** ** Grid mathematics *)

Definition snapToGrid (s : BuildingSystem) (position : Vector3.t) : Vector3.t :=
  Vector3.mk
    (inject_Z (JsMath.round (Vector3.x position / gridSize s)) * gridSize s)
    (inject_Z (JsMath.round (Vector3.y position / gridSize s)) * gridSize s)
    (inject_Z (JsMath.round (Vector3.z position / gridSize s)) * gridSize s).

Definition calculateRotationFromNormal (normal : Vector3.t) : Euler.t :=
  if JsMath.gt (JsMath.abs (Vector3.y normal)) 0.9 then Euler.mk 0 0 0
  else if JsMath.gt (JsMath.abs (Vector3.x normal)) 0.9 then Euler.mk 0 (JsMath.PI / 2) 0
  else Euler.mk 0 0 0.

(** [calculatePlacement]: [intersects] is what the ray cast from the camera
    returned for the structures' meshes and the terrain. *)
Definition calculatePlacement (intersects : list RayIntersection) (s : BuildingSystem) : option Placement :=
  match intersects with
  | [] => None
  | hit :: _ =>
      Some {| pl_position := snapToGrid s (hit_point hit);
              pl_rotation := calculateRotationFromNormal (hit_normal hit);
              pl_attachedTo := hit_object hit |}
  end.

(** ** Placement validation *)

(** The loop of [checkPlacementValid] over [this.structures]. *)
Fixpoint noStructureIntersects `{ThreeBox3} (h : list Structure.t) (bbox : Box3.t) (l : list nat) : bool :=
  match l with
  | [] => true
  | r :: rest =>
      match h !! r with
      | Some structure =>
          if intersectsBox bbox (setFromObject (Structure.mesh structure))
          then false
          else noStructureIntersects h bbox rest
      | None => noStructureIntersects h bbox rest
      end
  end.

(** [checkPlacementValid(placement)]; the argument is not read, the box is
    that of the ghost piece.  [None]: [setFromObject(null)] throws. *)
Definition checkPlacementValid `{ThreeBox3} (placement : Placement) (s : BuildingSystem) : option bool :=
  let cost := costs s (currentBuildMode s) in
  if (resources s (currentMaterial s) <? cost)%Z then Some false
  else
    match ghostPiece s with
    | None => None
    | Some g =>
        let bbox := setFromObject (ghostMeshes s g) in
        Some (noStructureIntersects (heap s) bbox (structures s))
    end.

(** The two [copy] calls of [update]: the ghost takes the placement's
    position and rotation. *)
Definition moveGhost (g : BuildMode) (placement : Placement) (s : BuildingSystem) : BuildingSystem :=
  let s1 := updateGhost g (Mesh.setPosition (pl_position placement)) s in
  updateGhost g (Mesh.setRotation (pl_rotation placement)) s1.

(** [update(camera)], the per-frame preview. *)
Definition update `{ThreeBox3} (intersects : list RayIntersection) (s : BuildingSystem) : option BuildingSystem :=
  if negb (isBuilding s) then Some s
  else
    match ghostPiece s with
    | None => Some s
    | Some g =>
        match calculatePlacement intersects s with
        | None => Some s
        | Some placement =>
            let s2 := moveGhost g placement s in
            valid ← checkPlacementValid placement s2;
            let s3 := withPlacementValid valid s2 in
            Some (updateGhost g (Mesh.setColor (if valid then 0x00ff00 else 0xff0000)%Z) s3)
        end
    end.

(** ** Structures *)

Definition getMaterialColor (m : Material) : Z :=
  match m with
  | wood => 0x8B4513
  | stone => 0x808080
  | metal => 0x5C5C5C
  end%Z.

(** [createPhysicsShape]: the half extents of the box. *)
Definition createPhysicsShape (type : BuildMode) : Vector3.t :=
  match type with
  | wall => Vector3.mk 1 1 0.1
  | floor => Vector3.mk 1 0.1 1
  | ramp => Vector3.mk 1 1 1
  | roof => Vector3.mk 1 0.5 1
  end.

(** [clearInterval(interval)] for the interval of the structure at [r]. *)
Definition clearInterval (r : nat) (s : BuildingSystem) : BuildingSystem :=
  withIntervals (filter (fun i => i <> r) (intervals s)) s.

(** [animateBuild(structure)]: [setInterval] registers the callback
    [animateBuild_tick]; the interval is named by the structure it closes over. *)
Definition animateBuild (r : nat) (s : BuildingSystem) : BuildingSystem :=
  withIntervals (intervals s ++ [r]) s.

(** [progress] in the callback: the elapsed share of the build time, at most 1. *)
Definition progressAt (now : Q) (structure : Structure.t) : Q :=
  let elapsed := (now - Structure.builtAt structure) / 1000 in
  JsMath.min (elapsed / Structure.buildTime structure) 1.

(** The callback of [animateBuild], run by the host at [now =
    performance.now()] while its interval is set. *)
Definition animateBuild_tick (now : Q) (r : nat) (s : BuildingSystem) : BuildingSystem :=
  if decide (r ∈ intervals s) then
    match heap s !! r with
    | None => s
    | Some structure =>
        if negb (Structure.isBuilding structure) then clearInterval r s
        else
          let progress := progressAt now structure in
          let st1 := Structure.setHp (Structure.maxHp structure * progress) structure in
          let st2 := Structure.setMesh
                       (Mesh.setScale (Vector3.setScalar (0.5 + 0.5 * progress))
                                      (Structure.mesh st1)) st1 in
          if JsMath.ge progress 1
          then clearInterval r (store r (Structure.setIsBuilding false st2) s)
          else store r st2 s
    end
  else s.

(** The object literal [createStructure] builds, with its mesh and body. *)
Definition newStructure (host : Host) (type : BuildMode) (position : Vector3.t)
    (rotation : Euler.t) (s : BuildingSystem) : Structure.t :=
  let id := ("structure_" +:+ Date_now host +:+ "_" +:+ Math_random host)%string in
  let mesh := Mesh.mk type position rotation (Vector3.mk 1 1 1) true
                (getMaterialColor (currentMaterial s)) in
  let body := Body.mk 0 (createPhysicsShape type) position (Mesh.rotation mesh) in
  let props := materialProps s (currentMaterial s) in
  Structure.mk id mesh body type (currentMaterial s)
    (props_hp props) (props_hp props) (props_buildTime props)
    (performance_now host) true.

(** [createStructure(type, position, rotation)]: the new structure's
    reference and the state in which it is allocated and its build
    animation started. *)
Definition createStructure (host : Host) (type : BuildMode) (position : Vector3.t)
    (rotation : Euler.t) (s : BuildingSystem) : nat * BuildingSystem :=
  let structure := newStructure host type position rotation s in
  let r := length (heap s) in
  (r, animateBuild r (withHeap (heap s ++ [structure]) s)).

Definition playBuildSound (s : BuildingSystem) : BuildingSystem := s.
Definition playDestroySound (s : BuildingSystem) : BuildingSystem := s.
Definition showDamageEffect (r : nat) (s : BuildingSystem) : BuildingSystem := s.
Definition spawnDestructionEffect (position : Vector3.t) (s : BuildingSystem) : BuildingSystem := s.

(** [placeBuild()], the commit.  [None]: reading [this.ghostPiece.position]
    of [null] throws. *)
Definition placeBuild (host : Host) (s : BuildingSystem) : option (bool * BuildingSystem) :=
  if negb (placementValid s) then Some (false, s)
  else
    let cost := costs s (currentBuildMode s) in
    let s1 := withResources
                (setKey (resources s) (currentMaterial s)
                        (resources s (currentMaterial s) - cost)%Z) s in
    g ← ghostPiece s1;
    let '(r, s2) := createStructure host (currentBuildMode s1)
                      (Mesh.position (ghostMeshes s1 g))
                      (Mesh.rotation (ghostMeshes s1 g)) s1 in
    structure ← heap s2 !! r;
    let s3 := withStructures (structures s2 ++ [r]) s2 in
    let s4 := call (scene_add (structureMesh r)) s3 in
    let s5 := call (physics_addBody (Structure.id structure) r) s4 in
    let s6 := playBuildSound s5 in
    let s7 := call (network_send
                      {| ev_type := "build";
                         ev_buildType := currentBuildMode s6;
                         ev_position := Mesh.position (Structure.mesh structure);
                         ev_rotation := Mesh.rotation (Structure.mesh structure) |}) s6 in
    Some (true, s7).

(** [this.structures.find(s => s.id === structureId)]. *)
Fixpoint find (h : list Structure.t) (structureId : string) (l : list nat) : option nat :=
  match l with
  | [] => None
  | r :: rest =>
      match h !! r with
      | Some structure =>
          if decide (Structure.id structure = structureId) then Some r
          else find h structureId rest
      | None => find h structureId rest
      end
  end.

(** [indexOf] followed by [splice(index, 1)]: the first occurrence goes. *)
Fixpoint spliceOut (r : nat) (l : list nat) : list nat :=
  match l with
  | [] => []
  | a :: rest => if decide (a = r) then rest else a :: spliceOut r rest
  end.

(** [destroyStructure(structure)]. *)
Definition destroyStructure (r : nat) (s : BuildingSystem) : BuildingSystem :=
  match heap s !! r with
  | None => s
  | Some structure =>
      let s1 := call (scene_remove (structureMesh r)) s in
      let s2 := call (physics_removeBody (Structure.id structure)) s1 in
      let s3 := withStructures (spliceOut r (structures s2)) s2 in
      let s4 := spawnDestructionEffect (Mesh.position (Structure.mesh structure)) s3 in
      playDestroySound s4
  end.

(** [damageStructure(structureId, damage)]. *)
Definition damageStructure (structureId : string) (damage : Q) (s : BuildingSystem) : BuildingSystem :=
  match find (heap s) structureId (structures s) with
  | None => s
  | Some r =>
      match heap s !! r with
      | None => s
      | Some structure =>
          let structure' := Structure.setHp (Structure.hp structure - damage) structure in
          let s1 := store r structure' s in
          if JsMath.le (Structure.hp structure') 0
          then destroyStructure r s1
          else showDamageEffect r s1
      end
  end.

(** ** What the host can do with a system *)

(** The entry points, with what the host supplies to each. *)
Inductive Action :=
| EnterBuildMode
| ExitBuildMode
| SwitchBuildMode (mode : string)
| Update (intersects : list RayIntersection)
| PlaceBuild (host : Host)
| IntervalFires (now : Q) (r : nat)
| DamageStructure (structureId : string) (damage : Q).

Definition perform `{ThreeBox3} (a : Action) (s : BuildingSystem) : option BuildingSystem :=
  match a with
  | EnterBuildMode => Some (enterBuildMode s)
  | ExitBuildMode => Some (exitBuildMode s)
  | SwitchBuildMode mode => Some (switchBuildMode mode s)
  | Update intersects => update intersects s
  | PlaceBuild host => snd <$> placeBuild host s
  | IntervalFires now r => Some (animateBuild_tick now r s)
  | DamageStructure structureId damage => Some (damageStructure structureId damage s)
  end.

Fixpoint run `{ThreeBox3} (script : list Action) (s : BuildingSystem) : option BuildingSystem :=
  match script with
  | [] => Some s
  | a :: rest => s' ← perform a s; run rest s'
  end.

(** ** A model of [THREE.Box3] for the pieces of this game

    The geometries are those [setupGhostPieces] builds for the grid size 2;
    a mesh is either unrotated or turned a quarter about the vertical axis,
    the two orientations [calculateRotationFromNormal] produces. *)

(** The bounding box of each geometry in its own frame. *)
Definition geometryBox (g : BuildMode) : Box3.t :=
  match g with
  | wall => Box3.mk (Vector3.mk (-1) (-1) (-0.1)) (Vector3.mk 1 1 0.1)
  | floor => Box3.mk (Vector3.mk (-1) (-0.1) (-1)) (Vector3.mk 1 0.1 1)
  | ramp => Box3.mk (Vector3.mk (-1) 0 (-1)) (Vector3.mk 1 2 1)
  | roof => Box3.mk (Vector3.mk (-(10 # 7)) (-0.5) (-(10 # 7))) (Vector3.mk (10 # 7) 0.5 (10 # 7))
  end.

(** The world-space box of a mesh: scale, turn, translate. *)
Definition meshBox (m : Mesh.t) : Box3.t :=
  let b := geometryBox (Mesh.geometry m) in
  let k := Mesh.scale m in
  let p := Mesh.position m in
  let lx := Vector3.x (Box3.min b) * Vector3.x k in
  let hx := Vector3.x (Box3.max b) * Vector3.x k in
  let ly := Vector3.y (Box3.min b) * Vector3.y k in
  let hy := Vector3.y (Box3.max b) * Vector3.y k in
  let lz := Vector3.z (Box3.min b) * Vector3.z k in
  let hz := Vector3.z (Box3.max b) * Vector3.z k in
  if Qeq_bool (Euler.y (Mesh.rotation m)) 0
  then Box3.mk (Vector3.mk (Vector3.x p + lx) (Vector3.y p + ly) (Vector3.z p + lz))
               (Vector3.mk (Vector3.x p + hx) (Vector3.y p + hy) (Vector3.z p + hz))
  else Box3.mk (Vector3.mk (Vector3.x p + lz) (Vector3.y p + ly) (Vector3.z p - hx))
               (Vector3.mk (Vector3.x p + hz) (Vector3.y p + hy) (Vector3.z p - lx)).

(** [a.intersectsBox(b)]: boxes that only touch intersect. *)
Definition boxesIntersect (a b : Box3.t) : bool :=
  negb (JsMath.lt (Vector3.x (Box3.max b)) (Vector3.x (Box3.min a))
        || JsMath.gt (Vector3.x (Box3.min b)) (Vector3.x (Box3.max a))
        || JsMath.lt (Vector3.y (Box3.max b)) (Vector3.y (Box3.min a))
        || JsMath.gt (Vector3.y (Box3.min b)) (Vector3.y (Box3.max a))
        || JsMath.lt (Vector3.z (Box3.max b)) (Vector3.z (Box3.min a))
        || JsMath.gt (Vector3.z (Box3.min b)) (Vector3.z (Box3.max a))).

Definition gameBox3 : ThreeBox3 :=
  {| setFromObject := meshBox; intersectsBox := boxesIntersect |}.

(** ** The vocabulary of the specification *)

(** [clamp(v, lo, hi)]. *)
Definition clamp (v lo hi : Q) : Q := Qmax lo (Qmin v hi).

(** The axes of a surface normal. *)
Inductive Axis := axisX | axisY | axisZ.

Definition component (a : Axis) (n : Vector3.t) : Q :=
  match a with
  | axisX => Vector3.x n
  | axisY => Vector3.y n
  | axisZ => Vector3.z n
  end.

(** An axis is dominant when the magnitude of its component exceeds 0.9. *)
Definition dominant (a : Axis) (n : Vector3.t) : Prop := 0.9 < Qabs (component a n).

(** The squared length; it is 1 for a unit normal.  Up to 1.62 no two
    components can both exceed 0.9. *)
Definition lengthSq (n : Vector3.t) : Q :=
  Vector3.x n * Vector3.x n + Vector3.y n * Vector3.y n + Vector3.z n * Vector3.z n.

(** The normal with the chosen components negated. *)
Definition flipSigns (fx fy fz : bool) (n : Vector3.t) : Vector3.t :=
  Vector3.mk (if fx then - Vector3.x n else Vector3.x n)
             (if fy then - Vector3.y n else Vector3.y n)
             (if fz then - Vector3.z n else Vector3.z n).

(** The registry's invariant: no reference twice, no identifier twice. *)
Definition uniqueIds (s : BuildingSystem) : Prop :=
  NoDup (structures s) /\
  forall r1 r2 st1 st2,
    r1 ∈ structures s -> r2 ∈ structures s ->
    heap s !! r1 = Some st1 -> heap s !! r2 = Some st2 ->
    Structure.id st1 = Structure.id st2 -> r1 = r2.

(** The states a game can be in: those some script of entry points leads
    to from a freshly constructed system. *)
Definition reachable `{ThreeBox3} (s : BuildingSystem) : Prop :=
  exists playerResources script, run script (constructor playerResources) = Some s.

(** A set validity flag comes with a selected ghost piece. *)
Definition flagHasGhost (s : BuildingSystem) : Prop :=
  placementValid s = true -> is_Some (ghostPiece s).

(** What never changes in a structure, and the one-way construction flag. *)
Definition sameIdentity (a b : Structure.t) : Prop :=
  Structure.id a = Structure.id b
  /\ Structure.type a = Structure.type b
  /\ Structure.material a = Structure.material b
  /\ Structure.maxHp a = Structure.maxHp b
  /\ Structure.buildTime a = Structure.buildTime b
  /\ Structure.builtAt a = Structure.builtAt b
  /\ Mesh.position (Structure.mesh a) = Mesh.position (Structure.mesh b)
  /\ Mesh.rotation (Structure.mesh a) = Mesh.rotation (Structure.mesh b)
  /\ Structure.body a = Structure.body b
  /\ (Structure.isBuilding a = false -> Structure.isBuilding b = false).

(** Every object of the first heap is still there in the second, the same
    structure. *)
Definition heapEvolves (h h' : list Structure.t) : Prop :=
  forall r st, h !! r = Some st -> exists st', h' !! r = Some st' /\ sameIdentity st st'.

(** The references of a system are in order: the registry holds each
    structure once, the registry and the intervals refer to allocated
    structures, build times are positive and a structure that is still
    building has its interval set. *)
Definition wellFormed (s : BuildingSystem) : Prop :=
  NoDup (structures s)
  /\ (forall r, r ∈ structures s -> (r < length (heap s))%nat)
  /\ (forall r, r ∈ intervals s -> (r < length (heap s))%nat)
  /\ (forall m, 0 < props_buildTime (materialProps s m))
  /\ (forall r st, heap s !! r = Some st -> 0 < Structure.buildTime st)
  /\ (forall r st, heap s !! r = Some st -> Structure.isBuilding st = true -> r ∈ intervals s).

(** The preview is shown for the selected ghost piece in build mode and for
    nothing else. *)
Definition previewShown (s : BuildingSystem) : Prop :=
  (ghostPiece s = None \/ ghostPiece s = Some (currentBuildMode s))
  /\ forall g, Mesh.visible (ghostMeshes s g) = true <->
               (isBuilding s = true /\ ghostPiece s = Some g).






(** ** Accounting *)



(** ** The physics world (js/engine/PhysicsWorld.js)

    The [CANNON.World] is a collaborator: the calls made on it are logged.
    A body is named by the reference of the structure it belongs to. *)

Module PhysicsWorld.

Inductive WorldCall :=
| world_addBody (body : nat)
| world_removeBody (body : nat)
| world_step (deltaTime : Q).

Record t := mk {
  world : list WorldCall;
  bodies : gmap string nat
}.

(** The world and the table as the constructor leaves them. *)
Definition new : t := mk [] ∅.

Definition step (deltaTime : Q) (p : t) : t :=
  mk (world p ++ [world_step deltaTime]) (bodies p).

Definition addBody (id : string) (body : nat) (p : t) : t :=
  mk (world p ++ [world_addBody body]) (<[id := body]> (bodies p)).

Definition removeBody (id : string) (p : t) : t :=
  match bodies p !! id with
  | Some body => mk (world p ++ [world_removeBody body]) (delete id (bodies p))
  | None => p
  end.

End PhysicsWorld.

(** A call of the building system, as the physics world receives it. *)
Definition physicsCall (p : PhysicsWorld.t) (c : Call) : PhysicsWorld.t :=
  match c with
  | physics_addBody id r => PhysicsWorld.addBody id r p
  | physics_removeBody id => PhysicsWorld.removeBody id p
  | _ => p
  end.

(** The physics world after the calls of a log, from a new one. *)
Definition physicsAfter (log : list Call) : PhysicsWorld.t :=
  foldl physicsCall PhysicsWorld.new log.

(** The identifiers of the structures ever created, by reference. *)
Definition idsOf (s : BuildingSystem) : list string := Structure.id <$> heap s.

(** The table of the physics world holds exactly the registered structures,
    each under its identifier. *)
Definition tableMirrorsRegistry (s : BuildingSystem) : Prop :=
  forall (id : string) (r : nat),
    PhysicsWorld.bodies (physicsAfter (calls s)) !! id = Some r
    <-> (r ∈ structures s /\ idsOf s !! r = Some id).

(** ** The engine loop (js/engine/Engine.js)

    Of the engine only the frame timing is state; the renderer, the input
    manager, the scene manager and the performance monitor are
    collaborators whose calls are logged, the physics world is the one
    above.  The host passes [performance.now()] to the frame.  The time
    arithmetic is that of exact rationals: with the doubles the engine
    holds, the number of turns of the [while] loop in a frame can differ
    from the one computed here; of the loop, the properties of the frame
    callbacks use only that it ends. *)

Module Engine.

Inductive FrameCall :=
| requestAnimationFrame
| monitor_begin
| input_update
| scene_update (deltaTime : Q)
| scene_render
| monitor_end.

Record t := mk {
  isRunning : bool;
  lastTime : Q;
  deltaTime : Q;
  fixedTimeStep : Q;
  accumulator : Q;
  physics : PhysicsWorld.t;
  calls : list FrameCall
}.

(** The timing fields as the constructor sets them. *)
Definition new : t := mk false 0 0 (1 / 60) 0 PhysicsWorld.new [].

Definition log (c : FrameCall) (e : t) : t :=
  mk (isRunning e) (lastTime e) (deltaTime e) (fixedTimeStep e) (accumulator e)
     (physics e) (calls e ++ [c]).

(** The body of the [while] loop: one fixed step of the physics. *)
Definition stepOnce (e : t) : t :=
  mk (isRunning e) (lastTime e) (deltaTime e) (fixedTimeStep e)
     (accumulator e - fixedTimeStep e)
     (PhysicsWorld.step (fixedTimeStep e) (physics e)) (calls e).

(** [while (this.accumulator >= this.fixedTimeStep) ...]; [None]: the fuel
    ran out with the condition still true. *)
Fixpoint physicsLoop (fuel : nat) (e : t) : option t :=
  if JsMath.ge (accumulator e) (fixedTimeStep e)
  then match fuel with
       | O => None
       | S n => physicsLoop n (stepOnce e)
       end
  else Some e.

(** [loop], the frame callback, run by the host at [currentTime]. *)
Definition loop (fuel : nat) (currentTime : Q) (e : t) : option t :=
  if negb (isRunning e) then Some e
  else
    let e1 := log requestAnimationFrame e in
    let dt := JsMath.min ((currentTime - lastTime e1) / 1000) 0.1 in
    let e2 := mk (isRunning e1) currentTime dt (fixedTimeStep e1) (accumulator e1)
                 (physics e1) (calls e1) in
    let e3 := log monitor_begin e2 in
    let e4 := mk (isRunning e3) (lastTime e3) (deltaTime e3) (fixedTimeStep e3)
                 (accumulator e3 + deltaTime e3) (physics e3) (calls e3) in
    e5 ← physicsLoop fuel e4;
    Some (log monitor_end
            (log scene_render
               (log (scene_update (deltaTime e5))
                  (log input_update e5)))).

(** [start()]: the first frame runs at once, at a second reading of the clock. *)
Definition start (fuel : nat) (now currentTime : Q) (e : t) : option t :=
  if isRunning e then Some e
  else
    loop fuel currentTime
      (mk true now (deltaTime e) (fixedTimeStep e) (accumulator e) (physics e) (calls e)).

Definition stop (e : t) : t :=
  mk false (lastTime e) (deltaTime e) (fixedTimeStep e) (accumulator e) (physics e) (calls e).

(** The engine after [n] turns of the loop body. *)
Fixpoint steps (n : nat) (e : t) : t :=
  match n with
  | O => e
  | S k => steps k (stepOnce e)
  end.

End Engine.

(** ** The frame callbacks (js/engine/Engine.js)

    [requestAnimationFrame(this.loop)] queues the frame callback with the
    browser, which runs a queued callback later.  The callbacks queued and
    not yet run are those requested in the log less those the browser has
    run.  Every frame gets the same [fuel] for its [while] loop. *)

Module Browser.

Record t := mk {
  engine : Engine.t;
  ran : nat
}.

Definition isRequest (c : Engine.FrameCall) : bool :=
  match c with
  | Engine.requestAnimationFrame => true
  | _ => false
  end.

Definition isFrameStart (c : Engine.FrameCall) : bool :=
  match c with
  | Engine.monitor_begin => true
  | _ => false
  end.

(** The callbacks requested so far, and the frames gone through. *)
Definition requested (e : Engine.t) : nat := length (List.filter isRequest (Engine.calls e)).
Definition framesRun (e : Engine.t) : nat := length (List.filter isFrameStart (Engine.calls e)).

Definition queued (b : t) : nat := requested (engine b) - ran b.

(** A page with this engine and no callback queued. *)
Definition page (e : Engine.t) : t := mk e (requested e).

Inductive Event :=
| Start (now currentTime : Q)
| Stop
| Callback (currentTime : Q).

Definition handle (fuel : nat) (ev : Event) (b : t) : option t :=
  match ev with
  | Start now currentTime =>
      e ← Engine.start fuel now currentTime (engine b); Some (mk e (ran b))
  | Stop => Some (mk (Engine.stop (engine b)) (ran b))
  | Callback currentTime =>
      if (ran b <? requested (engine b))%nat
      then e ← Engine.loop fuel currentTime (engine b); Some (mk e (S (ran b)))
      else Some b
  end.

Fixpoint play (fuel : nat) (events : list Event) (b : t) : option t :=
  match events with
  | [] => Some b
  | ev :: rest => b1 ← handle fuel ev b; play fuel rest b1
  end.

End Browser.

(** ** The camera (js/gameplay/ThirdPersonCamera.js)

    The mouse handling only: [update] places the camera with sines and
    cosines of the two angles and a ray cast by three.js. *)

Module ThirdPersonCamera.

Record t := mk {
  sensitivity : Q;
  distance : Q;
  aimDistance : Q;
  currentDistance : Q;
  offset : Vector3.t;
  aimOffset : Vector3.t;
  currentOffset : Vector3.t;
  phi : Q;
  theta : Q;
  minPhi : Q;
  maxPhi : Q;
  smoothFactor : Q;
  isAiming : bool
}.

Definition constructor : t :=
  mk 0.002 4.0 2.5 4.0
     (Vector3.mk 0.6 0.4 0) (Vector3.mk 0.8 0.3 0) (Vector3.mk 0.6 0.4 0)
     0 0 (- JsMath.PI / 3) (JsMath.PI / 3) 0.15 false.

Definition handleMouseMove (movementX movementY : Q) (c : t) : t :=
  let theta1 := theta c - movementX * sensitivity c in
  let phi1 := phi c - movementY * sensitivity c in
  mk (sensitivity c) (distance c) (aimDistance c) (currentDistance c)
     (offset c) (aimOffset c) (currentOffset c)
     (Qmax (minPhi c) (JsMath.min (maxPhi c) phi1)) theta1
     (minPhi c) (maxPhi c) (smoothFactor c) (isAiming c).

Definition setAiming (aiming : bool) (c : t) : t :=
  mk (sensitivity c) (distance c) (aimDistance c) (currentDistance c)
     (offset c) (aimOffset c) (currentOffset c)
     (phi c) (theta c) (minPhi c) (maxPhi c) (smoothFactor c) aiming.

(** What the input handlers do to a camera. *)
Inductive Event :=
| MouseMove (movementX movementY : Q)
| SetAiming (aiming : bool).

Definition handle (ev : Event) (c : t) : t :=
  match ev with
  | MouseMove movementX movementY => handleMouseMove movementX movementY c
  | SetAiming aiming => setAiming aiming c
  end.

Definition play (events : list Event) (c : t) : t := foldl (fun s ev => handle ev s) c events.

(** The horizontal mouse travel of a list of events. *)
Fixpoint travelX (events : list Event) : Q :=
  match events with
  | [] => 0
  | MouseMove movementX _ :: rest => movementX + travelX rest
  | SetAiming _ :: rest => travelX rest
  end.

End ThirdPersonCamera.

(** ** The weapon (js/gameplay/Weapon.js)

    Ammunition counts are integers.  Of a shot only what it does to the
    weapon is modelled: aiming, spread, ray casting, recoil on the camera
    and effects belong to collaborators, and the value [fire] returns on
    success (what [fireHitscan] or [fireProjectile] computed) is passed in.
    The callback of [setTimeout] in [reload] is run by the host while a
    timer is pending. *)

Module Weapon.

(** The statistics read from the weapon's configuration. *)
Record Data := {
  data_damage : Q;
  data_fireRate : Q;
  data_magazineSize : Z;
  data_reloadTime : Q;
  data_maxAmmo : Z
}.

Record t := mk {
  damage : Q;
  fireRate : Q;
  magazineSize : Z;
  reloadTime : Q;
  currentAmmo : Z;
  reserveAmmo : Z;
  isReloading : bool;
  lastFireTime : Q;
  reloadStartTime : Q;
  timeBetweenShots : Q;
  timers : nat
}.

Definition constructor (data : Data) : t :=
  mk (data_damage data) (data_fireRate data) (data_magazineSize data) (data_reloadTime data)
     (data_magazineSize data) (data_maxAmmo data) false 0 0
     (60000 / data_fireRate data) 0.

(** [canFire()] at [now = performance.now()]. *)
Definition canFire (now : Q) (w : t) : bool :=
  negb (isReloading w)
  && (0 <? currentAmmo w)%Z
  && JsMath.ge (now - lastFireTime w) (timeBetweenShots w).

(** [fire(camera, scene, targets)]: [now] is the clock as [canFire] reads
    it, [fired] as the shot reads it; [shot] is what the shot returns. *)
Definition fire {A : Type} (now fired : Q) (shot : A) (w : t) : option A * t :=
  if negb (canFire now w) then (None, w)
  else
    (Some shot,
     mk (damage w) (fireRate w) (magazineSize w) (reloadTime w)
        (currentAmmo w - 1) (reserveAmmo w) (isReloading w) fired
        (reloadStartTime w) (timeBetweenShots w) (timers w)).

(** [reload()] at [now]: the timer is set for [reloadTime] later. *)
Definition reload (now : Q) (w : t) : t :=
  if isReloading w || (currentAmmo w =? magazineSize w)%Z then w
  else
    mk (damage w) (fireRate w) (magazineSize w) (reloadTime w)
       (currentAmmo w) (reserveAmmo w) true (lastFireTime w)
       now (timeBetweenShots w) (S (timers w)).

(** The callback of the reload timer. *)
Definition reloadTimeout (w : t) : t :=
  match timers w with
  | O => w
  | S pending =>
      let ammoNeeded := (magazineSize w - currentAmmo w)%Z in
      let ammoToReload := Z.min ammoNeeded (reserveAmmo w) in
      mk (damage w) (fireRate w) (magazineSize w) (reloadTime w)
         (currentAmmo w + ammoToReload) (reserveAmmo w - ammoToReload) false
         (lastFireTime w) (reloadStartTime w) (timeBetweenShots w) pending
  end.

(** What can happen to a weapon. *)
Inductive Event :=
| Fire (now fired : Q)
| Reload (now : Q)
| ReloadTimeout.

(** The weapon after an event, and whether a shot left it. *)
Definition handle (ev : Event) (w : t) : bool * t :=
  match ev with
  | Fire now fired =>
      match fire now fired tt w with
      | (Some _, w') => (true, w')
      | (None, w') => (false, w')
      end
  | Reload now => (false, reload now w)
  | ReloadTimeout => (false, reloadTimeout w)
  end.

(** The weapon after a list of events, with the number of shots fired. *)
Fixpoint play (events : list Event) (w : t) : Z * t :=
  match events with
  | [] => (0%Z, w)
  | ev :: rest =>
      let '(shot, w1) := handle ev w in
      let '(n, w2) := play rest w1 in
      ((if shot then 1 else 0) + n, w2)%Z
  end.

(** The ammunition is accounted for: the magazine is within its size, the
    reserve is not negative, and one timer is pending while reloading. *)
Definition ammoOk (w : t) : Prop :=
  (0 <= currentAmmo w <= magazineSize w)%Z
  /\ (0 <= reserveAmmo w)%Z
  /\ timers w = (if isReloading w then 1 else 0)%nat.

End Weapon.

(** ** The projectile (js/gameplay/Projectile.js)

    The physics engine moves the body and reports collisions; the game's
    event emitter receives the damage events.  Both are collaborators: a
    move and a collision are events the host delivers, the emitted events
    are logged. *)

Module Projectile.

Record Config := {
  cfg_position : Vector3.t;
  cfg_direction : Vector3.t;
  cfg_speed : Q;
  cfg_damage : Q;
  cfg_gravity : Q;
  cfg_owner : string;
  cfg_maxLifetime : option Q
}.

(** [userData] of the mesh of a body that was hit. *)
Record HitObject := {
  hit_type : string;
  hit_playerId : string
}.

(** The payload of a [playerDamaged] event. *)
Record Damaged := {
  dmg_damage : Q;
  dmg_playerId : string;
  dmg_point : Vector3.t
}.

Record t := mk {
  damage : Q;
  owner : string;
  maxLifetime : Q;
  createdAt : Q;
  meshPosition : Vector3.t;
  bodyPosition : Vector3.t;
  bodyVelocity : Vector3.t;
  isActive : bool;
  hasHit : bool;
  emitted : list Damaged
}.

(** [config.maxLifetime || 5]: an absent or zero lifetime is 5 seconds. *)
Definition lifetimeOrDefault (configured : option Q) : Q :=
  match configured with
  | Some v => if Qeq_bool v 0 then 5 else v
  | None => 5
  end.

Definition constructor (config : Config) (now : Q) : t :=
  mk (cfg_damage config) (cfg_owner config) (lifetimeOrDefault (cfg_maxLifetime config)) now
     (cfg_position config) (cfg_position config)
     (Vector3.mk (Vector3.x (cfg_direction config) * cfg_speed config)
                 (Vector3.y (cfg_direction config) * cfg_speed config)
                 (Vector3.z (cfg_direction config) * cfg_speed config))
     true false [].

Definition destroy (p : t) : t :=
  mk (damage p) (owner p) (maxLifetime p) (createdAt p) (meshPosition p) (bodyPosition p)
     (bodyVelocity p) false (hasHit p) (emitted p).

(** [update(deltaTime)] at [now = performance.now()]. *)
Definition update (now : Q) (p : t) : t :=
  if negb (isActive p) then p
  else
    let age := (now - createdAt p) / 1000 in
    if JsMath.gt age (maxLifetime p) then destroy p
    else
      mk (damage p) (owner p) (maxLifetime p) (createdAt p) (bodyPosition p) (bodyPosition p)
         (bodyVelocity p) (isActive p) (hasHit p) (emitted p).

(** [onCollision(event)]; [hitObject] is [event.body.threeMesh], if any. *)
Definition onCollision (hitObject : option HitObject) (p : t) : t :=
  if hasHit p then p
  else
    let p1 := mk (damage p) (owner p) (maxLifetime p) (createdAt p) (meshPosition p)
                 (bodyPosition p) (bodyVelocity p) (isActive p) true (emitted p) in
    let p2 :=
      match hitObject with
      | Some o =>
          if decide (hit_type o = "player"%string) then
            if decide (hit_playerId o <> owner p1) then
              mk (damage p1) (owner p1) (maxLifetime p1) (createdAt p1) (meshPosition p1)
                 (bodyPosition p1) (bodyVelocity p1) (isActive p1) (hasHit p1)
                 (emitted p1 ++ [{| dmg_damage := damage p1;
                                    dmg_playerId := hit_playerId o;
                                    dmg_point := bodyPosition p1 |}])
            else p1
          else p1
      | None => p1
      end in
    destroy p2.

(** The physics engine writes the body's position. *)
Definition moved (position : Vector3.t) (p : t) : t :=
  mk (damage p) (owner p) (maxLifetime p) (createdAt p) (meshPosition p) position
     (bodyVelocity p) (isActive p) (hasHit p) (emitted p).

Inductive Event :=
| Update (now : Q)
| Moved (position : Vector3.t)
| Collide (hitObject : option HitObject).

Definition handle (ev : Event) (p : t) : t :=
  match ev with
  | Update now => update now p
  | Moved position => moved position p
  | Collide hitObject => onCollision hitObject p
  end.

Definition play (events : list Event) (p : t) : t := foldl (fun q ev => handle ev q) p events.

(** At most one damage event, of the projectile's damage, not for its
    owner, and only with the hit recorded and the projectile inactive. *)
Definition hitsOnce (p : t) : Prop :=
  (emitted p = [] \/
   exists e, emitted p = [e] /\ dmg_damage e = damage p /\ dmg_playerId e <> owner p
             /\ hasHit p = true)
  /\ (hasHit p = true -> isActive p = false).

End Projectile.

(** ** The scene manager (js/engine/SceneManager.js)

    Scenes are objects of the classes the game registers; the manager only
    calls their hooks, so the hooks are logged as calls, scene objects are
    numbered in the order they are constructed, and a registered class is a
    number ([None] for a falsy value registered under a name).

    [switchScene] is asynchronous: it runs up to an [await], and goes on
    when the host delivers the outcome of the awaited hook.  A suspended
    call is kept in [pending]; [resume] runs its next part.  The scene code
    called in a run ([onExit], [cleanup], the constructor, [onEnter]) may
    throw instead of returning, which ends the run where it is: the run's
    [fault], if any, names the call that throws. *)

Module SceneManager.

Section WithData.

Context {Data : Type}.

Inductive Call :=
| scene_onExit (scene : nat)
| scene_cleanup (scene : nat)
| scene_new (class : nat) (data : Data) (scene : nat)
| scene_onEnter (scene : nat)
| scene_update (scene : nat) (deltaTime : Q)
| scene_render (scene : nat)
| console_error (sceneName : string).

Inductive Pending :=
| AwaitingExit (sceneName : string) (data : Data)
| AwaitingEnter.

Inductive Outcome := fulfilled | rejected.

(** The calls of scene code that can throw. *)
Inductive Fault := onExit_throws | cleanup_throws | constructor_throws | onEnter_throws.

Definition throwsAt (fault : option Fault) (call : Fault) : bool :=
  match fault, call with
  | Some onExit_throws, onExit_throws
  | Some cleanup_throws, cleanup_throws
  | Some constructor_throws, constructor_throws
  | Some onEnter_throws, onEnter_throws => true
  | _, _ => false
  end.

Record t := mk {
  scenes : gmap string (option nat);
  currentScene : option nat;
  transitioning : bool;
  instances : nat;
  pending : list Pending;
  calls : list Call
}.

Definition constructor : t := mk ∅ None false 0 [] [].

Definition withTransitioning (b : bool) (m : t) : t :=
  mk (scenes m) (currentScene m) b (instances m) (pending m) (calls m).

Definition log (c : list Call) (m : t) : t :=
  mk (scenes m) (currentScene m) (transitioning m) (instances m) (pending m) (calls m ++ c).

Definition suspend (p : Pending) (m : t) : t :=
  mk (scenes m) (currentScene m) (transitioning m) (instances m) (pending m ++ [p]) (calls m).

Definition registerScene (name : string) (sceneClass : option nat) (m : t) : t :=
  mk (<[name := sceneClass]> (scenes m)) (currentScene m) (transitioning m) (instances m)
     (pending m) (calls m).

(** [switchScene] from "Create new scene" to the second [await].  When the
    constructor throws, [currentScene] has not been assigned. *)
Definition createScene (fault : option Fault) (sceneName : string) (data : Data) (m : t) : t :=
  match scenes m !! sceneName with
  | Some (Some SceneClass) =>
      let scene := instances m in
      let m1 := log [scene_new SceneClass data scene]
                  (mk (scenes m) (currentScene m) (transitioning m) (S scene) (pending m)
                      (calls m)) in
      if throwsAt fault constructor_throws then m1
      else
        let m2 := log [scene_onEnter scene]
                    (mk (scenes m1) (Some scene) (transitioning m1) (instances m1) (pending m1)
                        (calls m1)) in
        if throwsAt fault onEnter_throws then m2
        else suspend AwaitingEnter m2
  | _ => withTransitioning false (log [console_error sceneName] m)
  end.

(** [switchScene] up to its first [await], in a run with the given fault. *)
Definition switchSceneWith (fault : option Fault) (sceneName : string) (data : Data) (m : t) : t :=
  if transitioning m then m
  else
    let m1 := withTransitioning true m in
    match currentScene m1 with
    | Some scene =>
        let m2 := log [scene_onExit scene] m1 in
        if throwsAt fault onExit_throws then m2
        else suspend (AwaitingExit sceneName data) m2
    | None => createScene fault sceneName data m1
    end.

(** The host settles the hook that the [i]-th suspended call awaits, and the
    call goes on, in a run with the given fault.  A rejection, like the
    [TypeError] of [this.currentScene.cleanup()] on no scene, ends that call
    there. *)
Definition resumeWith (fault : option Fault) (i : nat) (outcome : Outcome) (m : t) : t :=
  match pending m !! i with
  | None => m
  | Some p =>
      let m1 := mk (scenes m) (currentScene m) (transitioning m) (instances m)
                   (delete i (pending m)) (calls m) in
      match outcome with
      | rejected => m1
      | fulfilled =>
          match p with
          | AwaitingExit sceneName data =>
              match currentScene m1 with
              | Some scene =>
                  let m2 := log [scene_cleanup scene] m1 in
                  if throwsAt fault cleanup_throws then m2
                  else createScene fault sceneName data m2
              | None => m1
              end
          | AwaitingEnter => withTransitioning false m1
          end
      end
  end.

(** The runs in which the scene code returns. *)
Definition switchScene (sceneName : string) (data : Data) (m : t) : t :=
  switchSceneWith None sceneName data m.

Definition resume (i : nat) (outcome : Outcome) (m : t) : t :=
  resumeWith None i outcome m.

Definition update (deltaTime : Q) (m : t) : t :=
  match currentScene m with
  | Some scene => if negb (transitioning m) then log [scene_update scene deltaTime] m else m
  | None => m
  end.

Definition render (m : t) : t :=
  match currentScene m with
  | Some scene => log [scene_render scene] m
  | None => m
  end.

(** What can happen to a manager.  [SwitchThrows] and [ResumeThrows] are a
    [switchScene] call and the continuation after a fulfilled hook in which
    the named call throws. *)
Inductive Event :=
| Register (name : string) (sceneClass : option nat)
| Switch (sceneName : string) (data : Data)
| Resume (i : nat) (outcome : Outcome)
| Update (deltaTime : Q)
| Render
| SwitchThrows (fault : Fault) (sceneName : string) (data : Data)
| ResumeThrows (fault : Fault) (i : nat).

Definition handle (ev : Event) (m : t) : t :=
  match ev with
  | Register name sceneClass => registerScene name sceneClass m
  | Switch sceneName data => switchScene sceneName data m
  | Resume i outcome => resume i outcome m
  | Update deltaTime => update deltaTime m
  | Render => render m
  | SwitchThrows fault sceneName data => switchSceneWith (Some fault) sceneName data m
  | ResumeThrows fault i => resumeWith (Some fault) i fulfilled m
  end.

Definition play (events : list Event) (m : t) : t := foldl (fun s ev => handle ev s) m events.

(** Frames: the engine's loop calls [update] and [render] only. *)
Definition isFrame (ev : Event) : bool :=
  match ev with
  | Update _ | Render => true
  | _ => false
  end.

Definition renders (scene : nat) (frames : list Event) : list Call :=
  omap (fun ev => match ev with Render => Some (scene_render scene) | _ => None end) frames.

(** The events in which a hook's promise rejects or scene code throws. *)
Definition fails (ev : Event) : bool :=
  match ev with
  | Resume _ rejected | SwitchThrows _ _ _ | ResumeThrows _ _ => true
  | _ => false
  end.

(** No switch is suspended and none is marked as running. *)
Definition idle (m : t) : Prop := transitioning m = false /\ pending m = [].

(** What the guard of [switchScene] maintains. *)
Definition exclusive (m : t) : Prop :=
  (length (pending m) <= 1)%nat
  /\ (pending m <> [] -> transitioning m = true)
  /\ (forall sceneName data, AwaitingExit sceneName data ∈ pending m -> currentScene m <> None)
  /\ (forall scene, currentScene m = Some scene -> (scene < instances m)%nat).

End WithData.

Arguments Call : clear implicits.
Arguments Pending : clear implicits.
Arguments t : clear implicits.
Arguments Event : clear implicits.

End SceneManager.

(** ** Scenarios *)

Definition richPlayer : Material -> Z := fun _ => 20%Z.
Definition poorPlayer : Material -> Z := fun _ => 5%Z.
Definition exactPlayer : Material -> Z := fun _ => 10%Z.

Definition host0 : Host :=
  {| Date_now := "1700000000000"; Math_random := "0.25"; performance_now := 0 |}.
Definition host1 : Host :=
  {| Date_now := "1700000000050"; Math_random := "0.75"; performance_now := 50 |}.

(** The camera looks at the terrain near the origin. *)
Definition terrainHit : RayIntersection :=
  {| hit_point := Vector3.mk 0.3 0.2 (-0.4);
     hit_normal := Vector3.mk 0 1 0;
     hit_object := terrain |}.

(** The state a script leads to with the pieces of this game. *)
Definition after (script : list Action) (playerResources : Material -> Z) : BuildingSystem :=
  default (constructor playerResources)
          (run (H := gameBox3) script (constructor playerResources)).

Definition previewScript : list Action := [EnterBuildMode; Update [terrainHit]].
Definition wallScript : list Action := previewScript ++ [PlaceBuild host0].
Definition floorScript : list Action := wallScript ++ [SwitchBuildMode "floor"].
Definition builtScript : list Action := wallScript ++ [IntervalFires 4000 0].

(** The wood wall [wallScript] places, as it is when created. *)
Definition woodWall : Structure.t :=
  newStructure host0 wall (Vector3.mk 0 0 0) (Euler.mk 0 0 0) (constructor richPlayer).

(** A scene manager with a menu and a game scene registered: while the menu
    is being entered, and with the menu entered. *)
Definition enteringMenu : SceneManager.t string :=
  SceneManager.play
    [SceneManager.Register "menu" (Some 0%nat); SceneManager.Register "game" (Some 1%nat);
     SceneManager.Switch "menu" "{}"]
    SceneManager.constructor.
Definition inMenu : SceneManager.t string :=
  SceneManager.resume 0 SceneManager.fulfilled enteringMenu.

(** * Properties *)

(** ** Rounding *)

Lemma round_bounds (v : Q) :
  inject_Z (JsMath.round v) - (1 # 2) <= v /\ v < inject_Z (JsMath.round v) + (1 # 2).
Proof.
  unfold JsMath.round.
  pose proof (Qfloor_le (v + (1 # 2))) as Hlo.
  pose proof (Qlt_floor (v + (1 # 2))) as Hhi.
  rewrite inject_Z_plus in Hhi. change (inject_Z 1) with 1 in Hhi.
  split; lra.
Qed.

Lemma round_unique (v : Q) (k : Z) :
  inject_Z k - (1 # 2) <= v -> v < inject_Z k + (1 # 2) -> JsMath.round v = k.
Proof.
  intros Hlo Hhi.
  destruct (round_bounds v) as [Rlo Rhi].
  assert (H1 : inject_Z (JsMath.round v) < inject_Z (k + 1)).
  { rewrite inject_Z_plus. change (inject_Z 1) with 1. lra. }
  assert (H2 : inject_Z k < inject_Z (JsMath.round v + 1)).
  { rewrite inject_Z_plus. change (inject_Z 1) with 1. lra. }
  rewrite <- Zlt_Qlt in H1, H2. lia.
Qed.

Lemma round_inject_Z (k : Z) : JsMath.round (inject_Z k) = k.
Proof. apply round_unique; lra. Qed.

Lemma round_comp (a b : Q) : a == b -> JsMath.round a = JsMath.round b.
Proof. intros E. unfold JsMath.round. apply Qfloor_comp. rewrite E. reflexivity. Qed.

(** Snapping an already snapped coordinate rounds the same integer. *)
Lemma round_snapped (g v : Q) :
  ~ g == 0 ->
  JsMath.round (inject_Z (JsMath.round (v / g)) * g / g) = JsMath.round (v / g).
Proof.
  intros Hg.
  rewrite (round_comp _ (inject_Z (JsMath.round (v / g)))) by (apply Qdiv_mult_l, Hg).
  apply round_inject_Z.
Qed.

(** No multiple of the grid size is closer than the snapped coordinate. *)
Lemma snapped_nearest (g v : Q) (j : Z) :
  0 < g ->
  Qabs (inject_Z (JsMath.round (v / g)) * g - v) <= Qabs (inject_Z j * g - v).
Proof.
  intros Hg.
  set (k := JsMath.round (v / g)).
  destruct (round_bounds (v / g)) as [Rlo Rhi]. fold k in Rlo, Rhi.
  assert (Hv : v == (v / g) * g) by (field; lra).
  set (d := v / g) in *.
  assert (E1 : inject_Z k * g - v == (inject_Z k - d) * g) by (rewrite Hv at 1; ring).
  assert (E2 : inject_Z j * g - v == (inject_Z j - d) * g) by (rewrite Hv at 1; ring).
  rewrite E1, E2, !Qabs_Qmult.
  apply Qmult_le_compat_r; [| apply Qabs_nonneg].
  assert (Hk : Qabs (inject_Z k - d) <= 1 # 2) by (apply Qabs_Qle_condition; split; lra).
  destruct (Z.lt_trichotomy j k) as [Hlt | [Heq | Hgt]].
  - assert (Hq : inject_Z j + 1 <= inject_Z k).
    { change 1 with (inject_Z 1). rewrite <- inject_Z_plus, <- Zle_Qle. lia. }
    apply Qle_trans with (1 # 2); [exact Hk |].
    rewrite Qabs_neg by lra. lra.
  - subst j. apply Qle_refl.
  - assert (Hq : inject_Z k + 1 <= inject_Z j).
    { change 1 with (inject_Z 1). rewrite <- inject_Z_plus, <- Zle_Qle. lia. }
    apply Qle_trans with (1 # 2); [exact Hk |].
    rewrite Qabs_pos by lra. lra.
Qed.

(** C8: for a positive grid size, [snapToGrid] puts every axis on a
    multiple of the grid size, none of whose multiples is nearer to the
    coordinate it started from, and snapping a snapped position returns it
    unchanged. *)
Theorem snapToGrid_nearest_multiple_idempotent (s : BuildingSystem) (p : Vector3.t) :
  0 < gridSize s ->
  (exists i j k : Z,
      snapToGrid s p =
      Vector3.mk (inject_Z i * gridSize s) (inject_Z j * gridSize s) (inject_Z k * gridSize s))
  /\ (forall n : Z,
        Qabs (Vector3.x (snapToGrid s p) - Vector3.x p) <= Qabs (inject_Z n * gridSize s - Vector3.x p)
        /\ Qabs (Vector3.y (snapToGrid s p) - Vector3.y p) <= Qabs (inject_Z n * gridSize s - Vector3.y p)
        /\ Qabs (Vector3.z (snapToGrid s p) - Vector3.z p) <= Qabs (inject_Z n * gridSize s - Vector3.z p))
  /\ snapToGrid s (snapToGrid s p) = snapToGrid s p.
Proof.
  intros Hg.
  assert (Hne : ~ gridSize s == 0) by lra.
  split; [| split].
  - eexists _, _, _. reflexivity.
  - intros n. unfold snapToGrid. cbn [Vector3.x Vector3.y Vector3.z].
    repeat split; apply snapped_nearest; exact Hg.
  - unfold snapToGrid. cbn [Vector3.x Vector3.y Vector3.z]. rewrite !round_snapped by exact Hne. reflexivity.
Qed.

Lemma snapToGrid_witness :
  0 < gridSize (constructor (fun _ => 20%Z))
  /\ snapToGrid (constructor (fun _ => 20%Z)) (Vector3.mk 2.9 (-0.2) 7) = Vector3.mk 2 0 8
  /\ snapToGrid (constructor (fun _ => 20%Z))
       (snapToGrid (constructor (fun _ => 20%Z)) (Vector3.mk 2.9 (-0.2) 7))
     = snapToGrid (constructor (fun _ => 20%Z)) (Vector3.mk 2.9 (-0.2) 7).
Proof.
  split; [reflexivity |].
  split; [vm_compute; reflexivity |].
  apply (snapToGrid_nearest_multiple_idempotent (constructor (fun _ => 20%Z))
           (Vector3.mk 2.9 (-0.2) 7)).
  reflexivity.
Defined.

(** ** Orientation from the surface normal *)

Lemma gt_true (a b : Q) : JsMath.gt a b = true <-> b < a.
Proof.
  unfold JsMath.gt. rewrite negb_true_iff.
  split.
  - intros H. apply Qnot_le_lt. intros Hle. apply Qle_bool_iff in Hle. congruence.
  - intros H. destruct (Qle_bool a b) eqn:E; [| reflexivity].
    apply Qle_bool_iff in E. lra.
Qed.

Lemma gt_false (a b : Q) : JsMath.gt a b = false <-> a <= b.
Proof.
  unfold JsMath.gt. rewrite negb_false_iff. apply Qle_bool_iff.
Qed.

(** The function reads two magnitudes and nothing else. *)
Lemma calculateRotationFromNormal_cases (n : Vector3.t) :
  (0.9 < Qabs (Vector3.y n) /\ calculateRotationFromNormal n = Euler.mk 0 0 0)
  \/ (Qabs (Vector3.y n) <= 0.9 /\ 0.9 < Qabs (Vector3.x n)
      /\ calculateRotationFromNormal n = Euler.mk 0 (JsMath.PI / 2) 0)
  \/ (Qabs (Vector3.y n) <= 0.9 /\ Qabs (Vector3.x n) <= 0.9
      /\ calculateRotationFromNormal n = Euler.mk 0 0 0).
Proof.
  unfold calculateRotationFromNormal, JsMath.abs.
  destruct (JsMath.gt (Qabs (Vector3.y n)) 0.9) eqn:Ey.
  - left. apply gt_true in Ey. auto.
  - apply gt_false in Ey.
    destruct (JsMath.gt (Qabs (Vector3.x n)) 0.9) eqn:Ex.
    + right; left. apply gt_true in Ex. auto.
    + right; right. apply gt_false in Ex. auto.
Qed.

Lemma square_of_large (v : Q) : 0.9 < Qabs v -> 0.81 < v * v.
Proof.
  apply Qabs_case; intros Hs Hv; nra.
Qed.

(** Within the length bound at most one component exceeds the threshold. *)
Lemma dominant_unique (n : Vector3.t) (a b : Axis) :
  lengthSq n <= 1.62 -> dominant a n -> dominant b n -> a = b.
Proof.
  unfold lengthSq, dominant. intros Hl Ha Hb.
  apply square_of_large in Ha, Hb.
  pose proof (Qle_refl 0) as _.
  assert (Hx : 0 <= Vector3.x n * Vector3.x n) by nra.
  assert (Hy : 0 <= Vector3.y n * Vector3.y n) by nra.
  assert (Hz : 0 <= Vector3.z n * Vector3.z n) by nra.
  destruct a, b; cbn [component] in *; try reflexivity; exfalso; lra.
Qed.

Lemma calculateRotationFromNormal_flipSigns (fx fy fz : bool) (n : Vector3.t) :
  calculateRotationFromNormal (flipSigns fx fy fz n) = calculateRotationFromNormal n.
Proof.
  unfold calculateRotationFromNormal, flipSigns, JsMath.abs, JsMath.gt.
  cbn [Vector3.x Vector3.y Vector3.z].
  assert (Ey : Qabs (if fy then - Vector3.y n else Vector3.y n) == Qabs (Vector3.y n))
    by (destruct fy; [apply Qabs_opp | reflexivity]).
  assert (Ex : Qabs (if fx then - Vector3.x n else Vector3.x n) == Qabs (Vector3.x n))
    by (destruct fx; [apply Qabs_opp | reflexivity]).
  rewrite Ey, Ex. reflexivity.
Qed.

(** The orientation each dominant axis gets. *)
Lemma calculateRotationFromNormal_dominant (a : Axis) (n : Vector3.t) :
  lengthSq n <= 1.62 -> dominant a n ->
  calculateRotationFromNormal n =
  match a with
  | axisX => Euler.mk 0 (JsMath.PI / 2) 0
  | _ => Euler.mk 0 0 0
  end.
Proof.
  intros Hl Ha.
  destruct (calculateRotationFromNormal_cases n) as [[Hy E] | [[Hy [Hx E]] | [Hy [Hx E]]]];
    rewrite E.
  - rewrite (dominant_unique n a axisY Hl Ha Hy). reflexivity.
  - rewrite (dominant_unique n a axisX Hl Ha Hx). reflexivity.
  - destruct a; unfold dominant in Ha; cbn [component] in Ha; try reflexivity; lra.
Qed.

(** C9: for a normal of (about) unit length, the orientation is decided by
    the dominant axis alone: two normals with the same dominant axis get the
    same orientation, negating any components changes nothing, and a normal
    without a dominant axis gets the unrotated orientation. *)
Theorem calculateRotationFromNormal_depends_on_dominant_axis (n : Vector3.t) :
  lengthSq n <= 1.62 ->
  (forall (a : Axis) (n' : Vector3.t),
      lengthSq n' <= 1.62 -> dominant a n -> dominant a n' ->
      calculateRotationFromNormal n' = calculateRotationFromNormal n)
  /\ (forall fx fy fz : bool,
        calculateRotationFromNormal (flipSigns fx fy fz n) = calculateRotationFromNormal n)
  /\ ((forall a : Axis, ~ dominant a n) ->
      calculateRotationFromNormal n = Euler.mk 0 0 0).
Proof.
  intros Hl. split; [| split].
  - intros a n' Hl' Ha Ha'.
    rewrite (calculateRotationFromNormal_dominant a n Hl Ha).
    apply calculateRotationFromNormal_dominant; assumption.
  - intros fx fy fz. apply calculateRotationFromNormal_flipSigns.
  - intros Hnone.
    destruct (calculateRotationFromNormal_cases n) as [[Hy E] | [[Hy [Hx E]] | [Hy [Hx E]]]].
    + exact E.
    + exfalso. exact (Hnone axisX Hx).
    + exact E.
Qed.

Lemma calculateRotationFromNormal_witness :
  lengthSq (Vector3.mk 1 0 0) <= 1.62
  /\ calculateRotationFromNormal (Vector3.mk 1 0 0) = Euler.mk 0 (JsMath.PI / 2) 0
  /\ calculateRotationFromNormal (Vector3.mk (-0.96) 0.28 0)
     = calculateRotationFromNormal (Vector3.mk 1 0 0)
  /\ calculateRotationFromNormal (flipSigns true false true (Vector3.mk 1 0 0))
     = calculateRotationFromNormal (Vector3.mk 1 0 0).
Proof.
  assert (Hl : lengthSq (Vector3.mk 1 0 0) <= 1.62) by (vm_compute; discriminate).
  destruct (calculateRotationFromNormal_depends_on_dominant_axis (Vector3.mk 1 0 0) Hl)
    as [Hsame [Hflip _]].
  split; [exact Hl |].
  split; [reflexivity |].
  split.
  - apply (Hsame axisX); [vm_compute; discriminate | reflexivity | reflexivity].
  - apply Hflip.
Defined.

(** ** The construction ramp *)

Lemma ge_true (a b : Q) : JsMath.ge a b = true <-> b <= a.
Proof. unfold JsMath.ge. apply Qle_bool_iff. Qed.

Lemma le_true (a b : Q) : JsMath.le a b = true <-> a <= b.
Proof. unfold JsMath.le. apply Qle_bool_iff. Qed.

Lemma le_false (a b : Q) : JsMath.le a b = false <-> b < a.
Proof.
  unfold JsMath.le. split.
  - intros H. apply Qnot_le_lt. intros Hle. apply Qle_bool_iff in Hle. congruence.
  - intros H. destruct (Qle_bool a b) eqn:E; [| reflexivity].
    apply Qle_bool_iff in E. lra.
Qed.

Lemma quotient_nonneg (a b : Q) : 0 <= a -> 0 < b -> 0 <= a / b.
Proof.
  intros Ha Hb. unfold Qdiv. apply Qmult_le_0_compat; [exact Ha |].
  apply Qlt_le_weak, Qinv_lt_0_compat, Hb.
Qed.

Lemma progressAt_clamp (now : Q) (st : Structure.t) :
  0 < Structure.buildTime st -> Structure.builtAt st <= now ->
  progressAt now st ==
  clamp ((now - Structure.builtAt st) / 1000 / Structure.buildTime st) 0 1.
Proof.
  intros Hbt Hnow. unfold progressAt, clamp, JsMath.min.
  symmetry. apply Q.max_r. apply Q.min_glb; [| lra].
  apply quotient_nonneg; [| exact Hbt].
  apply quotient_nonneg; lra.
Qed.

(** One run of the callback on a structure that is still building. *)
Lemma animateBuild_tick_building (s : BuildingSystem) (r : nat) (st : Structure.t) (now : Q) :
  heap s !! r = Some st -> r ∈ intervals s -> Structure.isBuilding st = true ->
  animateBuild_tick now r s =
  let st2 := Structure.setMesh
               (Mesh.setScale (Vector3.setScalar (0.5 + 0.5 * progressAt now st)) (Structure.mesh st))
               (Structure.setHp (Structure.maxHp st * progressAt now st) st) in
  if JsMath.ge (progressAt now st) 1
  then clearInterval r (store r (Structure.setIsBuilding false st2) s)
  else store r st2 s.
Proof.
  intros Hst Hin Hb. unfold animateBuild_tick.
  destruct (decide (r ∈ intervals s)) as [_ | Hn]; [| contradiction].
  rewrite Hst, Hb. reflexivity.
Qed.

Lemma animateBuild_tick_cleared (s : BuildingSystem) (r : nat) (now : Q) :
  r ∉ intervals s -> animateBuild_tick now r s = s.
Proof.
  intros Hn. unfold animateBuild_tick.
  destruct (decide (r ∈ intervals s)) as [Hin | _]; [contradiction | reflexivity].
Qed.

Lemma clearInterval_not_elem (r : nat) (s : BuildingSystem) :
  r ∉ intervals (clearInterval r s).
Proof.
  unfold clearInterval. cbn. intros Hin.
  apply list_elem_of_filter in Hin. destruct Hin as [Hne _]. congruence.
Qed.

Lemma heap_store_same (s : BuildingSystem) (r : nat) (old new : Structure.t) :
  heap s !! r = Some old -> heap (store r new s) !! r = Some new.
Proof.
  intros H. unfold store. cbn. apply list_lookup_insert_eq.
  apply lookup_lt_Some in H. exact H.
Qed.

(** C1: a run of the callback on a structure still under construction sets
    its hit points to [maxHp * clamp(elapsed / buildTime, 0, 1)]; for the
    Wood figures (150 hit points, 4 seconds) that is 75 two seconds after the
    start and, from four seconds on, 150 with the structure no longer
    building, its interval cleared and the callback never changing anything
    again. *)
Theorem animateBuild_tick_ramps_hit_points
    (s : BuildingSystem) (r : nat) (st : Structure.t) (now : Q) :
  heap s !! r = Some st -> r ∈ intervals s -> Structure.isBuilding st = true ->
  0 < Structure.buildTime st -> Structure.builtAt st <= now ->
  exists st',
    heap (animateBuild_tick now r s) !! r = Some st'
    /\ Structure.hp st' ==
       Structure.maxHp st *
       clamp ((now - Structure.builtAt st) / 1000 / Structure.buildTime st) 0 1
    /\ (Structure.maxHp st == 150 -> Structure.buildTime st == 4 ->
        (now - Structure.builtAt st == 2000 -> Structure.hp st' == 75)
        /\ (4000 <= now - Structure.builtAt st ->
            Structure.hp st' == 150
            /\ Structure.isBuilding st' = false
            /\ (r ∉ intervals (animateBuild_tick now r s))
            /\ (forall later : Q,
                animateBuild_tick later r (animateBuild_tick now r s)
                = animateBuild_tick now r s))).
Proof.
  intros Hst Hin Hb Hbt Hnow.
  rewrite (animateBuild_tick_building s r st now Hst Hin Hb). cbv zeta.
  pose proof (progressAt_clamp now st Hbt Hnow) as Hclamp.
  set (st2 := Structure.setMesh _ _).
  assert (Hhp2 : Structure.hp st2 = Structure.maxHp st * progressAt now st) by reflexivity.
  destruct (JsMath.ge (progressAt now st) 1) eqn:Hge.
  - exists (Structure.setIsBuilding false st2).
    split; [| split].
    + unfold clearInterval. cbn [heap withIntervals]. eapply heap_store_same, Hst.
    + cbn [Structure.hp Structure.setIsBuilding]. rewrite Hhp2, Hclamp. reflexivity.
    + intros Hmax Hdur. cbn [Structure.hp Structure.setIsBuilding Structure.isBuilding].
      rewrite Hhp2. split.
      * intros Htwo. rewrite Hmax. unfold progressAt, JsMath.min.
        rewrite Htwo, Hdur. reflexivity.
      * intros Hfour. split; [| split; [reflexivity | split]].
        -- apply ge_true in Hge.
           assert (Hp : progressAt now st == 1).
           { apply Qle_antisym; [apply Q.le_min_r | exact Hge]. }
           rewrite Hp, Hmax. reflexivity.
        -- apply clearInterval_not_elem.
        -- intros later. apply animateBuild_tick_cleared, clearInterval_not_elem.
  - exists st2. split; [| split].
    + eapply heap_store_same, Hst.
    + rewrite Hhp2, Hclamp. reflexivity.
    + intros Hmax Hdur. rewrite Hhp2. split.
      * intros Htwo. rewrite Hmax. unfold progressAt, JsMath.min.
        rewrite Htwo, Hdur. reflexivity.
      * intros Hfour. exfalso.
        assert (Hone : 1 <= progressAt now st).
        { unfold progressAt, JsMath.min. apply Q.min_glb; [| lra].
          rewrite Hdur.
          apply Qle_shift_div_l; [reflexivity |].
          apply Qle_shift_div_l; [reflexivity |]. lra. }
        apply ge_true in Hone. congruence.
Qed.

(** ** Validation and commit *)

Section Validation.
Context `{ThreeBox3}.

Lemma noStructureIntersects_hit (h : list Structure.t) (bbox : Box3.t) (l : list nat)
    (r : nat) (st : Structure.t) :
  r ∈ l -> h !! r = Some st ->
  intersectsBox bbox (setFromObject (Structure.mesh st)) = true ->
  noStructureIntersects h bbox l = false.
Proof.
  intros Hin Hst Hbox. induction Hin as [r rest | r a rest Hin IH]; cbn.
  - rewrite Hst, Hbox. reflexivity.
  - destruct (h !! a) as [sa |]; [| exact (IH Hst)].
    destruct (intersectsBox bbox (setFromObject (Structure.mesh sa))); [reflexivity | exact (IH Hst)].
Qed.

(** What [update] does when the ray hits something in build mode. *)
Lemma update_previewing (s : BuildingSystem) (g : BuildMode) (hit : RayIntersection)
    (rest : list RayIntersection) (placement : Placement) (valid : bool) :
  isBuilding s = true -> ghostPiece s = Some g ->
  calculatePlacement (hit :: rest) s = Some placement ->
  checkPlacementValid placement (moveGhost g placement s) = Some valid ->
  update (hit :: rest) s =
  Some (updateGhost g (Mesh.setColor (if valid then 0x00ff00 else 0xff0000)%Z)
          (withPlacementValid valid (moveGhost g placement s))).
Proof.
  intros Hb Hg Hp Hv. unfold update. rewrite Hb, Hg, Hp. cbn. rewrite Hv. reflexivity.
Qed.

Lemma placeBuild_invalid (host : Host) (s : BuildingSystem) :
  placementValid s = false -> placeBuild host s = Some (false, s).
Proof. intros Hv. unfold placeBuild. rewrite Hv. reflexivity. Qed.

(** C3, as the code has it: when the player holds less of the selected
    material than the selected kind costs, validation returns false, and it
    does so at its first test, whatever the registry, the structure objects
    and the ghost piece are (the code returns a boolean and no reason);
    the preview update that runs this validation stores the result, and the
    commit that follows it changes neither the registry nor the ledger, as
    does every commit made while the stored result is false. *)
Theorem insufficient_resources_rejected
    (s : BuildingSystem) (placement : Placement) :
  (resources s (currentMaterial s) < costs s (currentBuildMode s))%Z ->
  checkPlacementValid placement s = Some false
  /\ (forall (registry : list nat) (objects : list Structure.t) (ghost : option BuildMode),
        checkPlacementValid placement
          (withStructures registry (withHeap objects (withGhostPiece ghost s)))
        = Some false)
  /\ (forall (g : BuildMode) (hit : RayIntersection) (rest : list RayIntersection) (host : Host),
        isBuilding s = true -> ghostPiece s = Some g ->
        exists s1,
          update (hit :: rest) s = Some s1
          /\ placementValid s1 = false
          /\ placeBuild host s1 = Some (false, s1)
          /\ structures s1 = structures s
          /\ heap s1 = heap s
          /\ resources s1 = resources s)
  /\ (forall host : Host, placementValid s = false -> placeBuild host s = Some (false, s)).
Proof.
  intros Hpoor. apply Z.ltb_lt in Hpoor.
  split; [| split; [| split]]; [| | | intros host; apply placeBuild_invalid].
  - unfold checkPlacementValid. rewrite Hpoor. reflexivity.
  - intros registry objects ghost. unfold checkPlacementValid. cbn. rewrite Hpoor. reflexivity.
  - intros g hit rest host Hb Hg.
    eexists. split; [| split; [| split; [| split; [| split]]]].
    + eapply (update_previewing s g hit rest _ false Hb Hg); [reflexivity |].
      unfold checkPlacementValid. cbn. rewrite Hpoor. reflexivity.
    + reflexivity.
    + apply placeBuild_invalid. reflexivity.
    + reflexivity.
    + reflexivity.
    + reflexivity.
Qed.

(** C4, as the code has it: when the box of the candidate, the ghost moved
    to the placement, intersects the box of a structure in the registry,
    validation returns false (a boolean, no reason); when the ledger covers
    the cost the overlap is the cause, the same candidate being accepted
    once the registry is empty; the preview update stores the result and the
    commit that follows it leaves the registry as it was. *)
Theorem overlapping_candidate_rejected
    (s : BuildingSystem) (g : BuildMode) (hit : RayIntersection) (rest : list RayIntersection)
    (placement : Placement) (r : nat) (st : Structure.t) :
  isBuilding s = true -> ghostPiece s = Some g ->
  calculatePlacement (hit :: rest) s = Some placement ->
  r ∈ structures s -> heap s !! r = Some st ->
  intersectsBox (setFromObject (ghostMeshes (moveGhost g placement s) g))
                (setFromObject (Structure.mesh st)) = true ->
  checkPlacementValid placement (moveGhost g placement s) = Some false
  /\ ((costs s (currentBuildMode s) <= resources s (currentMaterial s))%Z ->
      checkPlacementValid placement (withStructures [] (moveGhost g placement s)) = Some true)
  /\ exists s1,
       update (hit :: rest) s = Some s1
       /\ placementValid s1 = false
       /\ (forall host : Host, placeBuild host s1 = Some (false, s1))
       /\ structures s1 = structures s
       /\ heap s1 = heap s
       /\ resources s1 = resources s.
Proof.
  intros Hb Hg Hp Hin Hst Hbox.
  assert (Hcheck : checkPlacementValid placement (moveGhost g placement s) = Some false).
  { unfold checkPlacementValid. cbn [moveGhost].
    change (resources (moveGhost g placement s)) with (resources s).
    change (currentMaterial (moveGhost g placement s)) with (currentMaterial s).
    change (costs (moveGhost g placement s)) with (costs s).
    change (currentBuildMode (moveGhost g placement s)) with (currentBuildMode s).
    destruct (resources s (currentMaterial s) <? costs s (currentBuildMode s))%Z; [reflexivity |].
    change (ghostPiece (moveGhost g placement s)) with (ghostPiece s). rewrite Hg.
    f_equal. eapply noStructureIntersects_hit; [exact Hin | exact Hst | exact Hbox]. }
  split; [exact Hcheck | split].
  - intros Hrich. unfold checkPlacementValid. cbn.
    assert (Hnb : (resources s (currentMaterial s) <? costs s (currentBuildMode s))%Z = false)
      by (apply Z.ltb_ge; exact Hrich).
    rewrite Hnb, Hg. reflexivity.
  - eexists. split; [| split; [| split; [| split; [| split]]]].
    + exact (update_previewing s g hit rest placement false Hb Hg Hp Hcheck).
    + reflexivity.
    + intros host. apply placeBuild_invalid. reflexivity.
    + reflexivity.
    + reflexivity.
    + reflexivity.
Qed.


(** A commit with the flag set and a ghost piece selected: the whole sequence. *)
Lemma placeBuild_valid (host : Host) (s : BuildingSystem) (g : BuildMode) :
  placementValid s = true -> ghostPiece s = Some g ->
  placeBuild host s =
  let debited := withResources
                   (setKey (resources s) (currentMaterial s)
                      (resources s (currentMaterial s) - costs s (currentBuildMode s))%Z) s in
  let structure := newStructure host (currentBuildMode s)
                     (Mesh.position (ghostMeshes s g)) (Mesh.rotation (ghostMeshes s g)) s in
  let r := length (heap s) in
  Some (true,
        call (network_send {| ev_type := "build";
                              ev_buildType := currentBuildMode s;
                              ev_position := Mesh.position (ghostMeshes s g);
                              ev_rotation := Mesh.rotation (ghostMeshes s g) |})
          (call (physics_addBody (Structure.id structure) r)
            (call (scene_add (structureMesh r))
              (withStructures (structures s ++ [r])
                (animateBuild r (withHeap (heap s ++ [structure]) debited)))))).
Proof.
  intros Hv Hg. unfold placeBuild. rewrite Hv. cbn [negb].
  cbn [ghostPiece withResources]. rewrite Hg. cbn [mbind option_bind].
  unfold createStructure.
  cbn [heap animateBuild withIntervals withHeap withResources].
  rewrite list_lookup_middle by reflexivity.
  reflexivity.
Qed.

Lemma perform_flagHasGhost (a : Action) (s s' : BuildingSystem) :
  flagHasGhost s -> perform a s = Some s' -> flagHasGhost s'.
Proof.
  unfold flagHasGhost. intros Hinv Hp.
  destruct a; cbn in Hp.
  - injection Hp as <-. cbn. eauto.
  - injection Hp as <-. unfold exitBuildMode. cbn.
    destruct (ghostPiece s) eqn:Hg; cbn; rewrite ?Hg; exact Hinv.
  - injection Hp as <-. unfold switchBuildMode.
    destruct (modeOfString mode); [| exact Hinv].
    destruct (ghostPiece s); cbn; destruct (isBuilding s); cbn; eauto.
  - unfold update in Hp.
    destruct (isBuilding s); cbn in Hp; [| injection Hp as <-; exact Hinv].
    destruct (ghostPiece s) as [g |] eqn:Hg; [| injection Hp as <-; rewrite Hg; exact Hinv].
    destruct (calculatePlacement intersects s); [| injection Hp as <-; rewrite Hg; exact Hinv].
    destruct (checkPlacementValid _ _); cbn in Hp; [| discriminate].
    injection Hp as <-. cbn. rewrite Hg. eauto.
  - destruct (placeBuild host s) as [[b s1] |] eqn:Hpb; cbn in Hp; [| discriminate].
    injection Hp as <-.
    destruct (placementValid s) eqn:Hv.
    + destruct (Hinv eq_refl) as [g Hg].
      rewrite (placeBuild_valid host s g Hv Hg) in Hpb. cbv zeta in Hpb.
      injection Hpb as _ <-. cbn. rewrite Hg. eauto.
    + rewrite (placeBuild_invalid host s Hv) in Hpb. injection Hpb as _ <-.
      rewrite Hv. discriminate.
  - injection Hp as <-. unfold animateBuild_tick.
    destruct (decide _); [| exact Hinv].
    destruct (heap s !! r); [| exact Hinv].
    destruct (negb _); [exact Hinv |].
    destruct (JsMath.ge _ _); exact Hinv.
  - injection Hp as <-. unfold damageStructure.
    destruct (find _ _ _) as [r |]; [| exact Hinv].
    destruct (heap s !! r) as [st |] eqn:Hst; [| exact Hinv].
    destruct (JsMath.le _ _); [| exact Hinv].
    unfold destroyStructure.
    destruct (heap (store r _ s) !! r); exact Hinv.
Qed.

Lemma run_flagHasGhost (script : list Action) (s s' : BuildingSystem) :
  flagHasGhost s -> run script s = Some s' -> flagHasGhost s'.
Proof.
  revert s. induction script as [| a rest IH]; intros s Hinv Hrun; cbn in Hrun.
  - injection Hrun as <-. exact Hinv.
  - destruct (perform a s) as [s1 |] eqn:Hp; cbn in Hrun; [| discriminate].
    exact (IH s1 (perform_flagHasGhost a s s1 Hinv Hp) Hrun).
Qed.

Lemma reachable_flagHasGhost (s : BuildingSystem) : reachable s -> flagHasGhost s.
Proof.
  intros [playerResources [script Hrun]].
  eapply run_flagHasGhost; [| exact Hrun].
  intros Hv. discriminate Hv.
Qed.

(** C7: in a state the game reaches with the validity flag set, the commit
    succeeds and does all of: debit the cost from the selected material,
    create the structure and append it to the registry, add its mesh to the
    scene and its body to the physics world, and send one network event
    {type: "build", buildType, position, rotation}.  The structure created
    is of the selected kind and material, under construction from the
    host's clock reading with the material's hit-point ceiling and build
    time and its build interval started; its mesh has the kind's geometry
    and the material's colour at the ghost's position and rotation, and its
    body is static with the kind's box, placed where the mesh is. *)
Theorem placeBuild_commits (s : BuildingSystem) (host : Host) :
  reachable s -> placementValid s = true ->
  exists (g : BuildMode) (s' : BuildingSystem) (structure : Structure.t),
    ghostPiece s = Some g
    /\ placeBuild host s = Some (true, s')
    /\ Structure.id structure
       = ("structure_" +:+ Date_now host +:+ "_" +:+ Math_random host)%string
    /\ Structure.type structure = currentBuildMode s
    /\ Structure.material structure = currentMaterial s
    /\ Structure.mesh structure
       = Mesh.mk (currentBuildMode s) (Mesh.position (ghostMeshes s g))
           (Mesh.rotation (ghostMeshes s g)) (Vector3.mk 1 1 1) true
           (getMaterialColor (currentMaterial s))
    /\ Structure.body structure
       = Body.mk 0 (createPhysicsShape (currentBuildMode s))
           (Mesh.position (ghostMeshes s g)) (Mesh.rotation (ghostMeshes s g))
    /\ Structure.maxHp structure = props_hp (materialProps s (currentMaterial s))
    /\ Structure.buildTime structure = props_buildTime (materialProps s (currentMaterial s))
    /\ Structure.builtAt structure = performance_now host
    /\ Structure.isBuilding structure = true
    /\ resources s' (currentMaterial s)
       = (resources s (currentMaterial s) - costs s (currentBuildMode s))%Z
    /\ (forall m : Material, m <> currentMaterial s -> resources s' m = resources s m)
    /\ heap s' = heap s ++ [structure]
    /\ structures s' = structures s ++ [length (heap s)]
    /\ intervals s' = intervals s ++ [length (heap s)]
    /\ calls s' = calls s ++
         [scene_add (structureMesh (length (heap s)));
          physics_addBody (Structure.id structure) (length (heap s));
          network_send {| ev_type := "build";
                          ev_buildType := currentBuildMode s;
                          ev_position := Mesh.position (ghostMeshes s g);
                          ev_rotation := Mesh.rotation (ghostMeshes s g) |}].
Proof.
  intros Hreach Hv.
  destruct (reachable_flagHasGhost s Hreach Hv) as [g Hg].
  exists g. eexists.
  exists (newStructure host (currentBuildMode s) (Mesh.position (ghostMeshes s g))
            (Mesh.rotation (ghostMeshes s g)) s).
  split; [exact Hg |].
  split; [exact (placeBuild_valid host s g Hv Hg) |].
  do 9 (split; [reflexivity |]).
  cbn. unfold setKey.
  split; [destruct (decide _); [reflexivity | congruence] |].
  split; [intros m Hm; destruct (decide _); [congruence | reflexivity] |].
  split; [reflexivity |].
  split; [reflexivity |].
  split; [reflexivity |].
  rewrite <- !app_assoc. reflexivity.
Qed.

(** C2, as the code has it: [createStructure] allocates a structure that is
    under construction, with the material's hit-point ceiling and build time,
    its mesh and body at the given placement and its build interval set, and
    calls no collaborator; it is [placeBuild] that, right after, appends the
    structure to the registry, adds the mesh to the scene and the body to the
    physics world. *)
Theorem createStructure_under_construction
    (host : Host) (type : BuildMode) (position : Vector3.t) (rotation : Euler.t)
    (s : BuildingSystem) :
  exists (st : Structure.t),
    fst (createStructure host type position rotation s) = length (heap s)
    /\ heap (snd (createStructure host type position rotation s)) = heap s ++ [st]
    /\ Structure.isBuilding st = true
    /\ Structure.maxHp st = props_hp (materialProps s (currentMaterial s))
    /\ Structure.buildTime st = props_buildTime (materialProps s (currentMaterial s))
    /\ Structure.builtAt st = performance_now host
    /\ Structure.type st = type
    /\ Structure.material st = currentMaterial s
    /\ Mesh.position (Structure.mesh st) = position
    /\ Mesh.rotation (Structure.mesh st) = rotation
    /\ Body.position (Structure.body st) = position
    /\ Body.mass (Structure.body st) = 0
    /\ intervals (snd (createStructure host type position rotation s))
       = intervals s ++ [length (heap s)]
    /\ calls (snd (createStructure host type position rotation s)) = calls s
    /\ structures (snd (createStructure host type position rotation s)) = structures s
    /\ (forall (g : BuildMode),
          placementValid s = true -> ghostPiece s = Some g ->
          exists (s' : BuildingSystem) (placed : Structure.t),
            placeBuild host s = Some (true, s')
            /\ heap s' = heap s ++ [placed]
            /\ structures s' = structures s ++ [length (heap s)]
            /\ calls s' = calls s ++
                 [scene_add (structureMesh (length (heap s)));
                  physics_addBody (Structure.id placed) (length (heap s));
                  network_send {| ev_type := "build";
                                  ev_buildType := currentBuildMode s;
                                  ev_position := Mesh.position (Structure.mesh placed);
                                  ev_rotation := Mesh.rotation (Structure.mesh placed) |}]).
Proof.
  exists (newStructure host type position rotation s).
  repeat (split; [reflexivity |]).
  intros g Hv Hg.
  eexists. eexists.
  split; [exact (placeBuild_valid host s g Hv Hg) |].
  cbn. split; [reflexivity |]. split; [reflexivity |].
  rewrite <- !app_assoc. reflexivity.
Qed.

End Validation.

(** ** Damage and destruction *)

Lemma find_Some_inv (h : list Structure.t) (structureId : string) (l : list nat) (r : nat) :
  find h structureId l = Some r ->
  r ∈ l /\ exists st, h !! r = Some st /\ Structure.id st = structureId.
Proof.
  induction l as [| a rest IH]; cbn; [discriminate |].
  destruct (h !! a) as [sa |] eqn:Ha.
  - destruct (decide (Structure.id sa = structureId)) as [Hid | Hid].
    + intros [= <-]. split; [left | eauto].
    + intros Hf. destruct (IH Hf) as [Hin Hex]. split; [right; exact Hin | exact Hex].
  - intros Hf. destruct (IH Hf) as [Hin Hex]. split; [right; exact Hin | exact Hex].
Qed.

Lemma find_None_intro (h : list Structure.t) (structureId : string) (l : list nat) :
  (forall r st, r ∈ l -> h !! r = Some st -> Structure.id st <> structureId) ->
  find h structureId l = None.
Proof.
  induction l as [| a rest IH]; intros Hall; cbn; [reflexivity |].
  assert (Hrest : find h structureId rest = None).
  { apply IH. intros r st Hin. apply Hall. right. exact Hin. }
  destruct (h !! a) as [sa |] eqn:Ha; [| exact Hrest].
  destruct (decide (Structure.id sa = structureId)) as [Hid | Hid]; [| exact Hrest].
  exfalso. exact (Hall a sa (list_elem_of_here a rest) Ha Hid).
Qed.

Lemma spliceOut_elem (r x : nat) (l : list nat) :
  NoDup l -> x ∈ spliceOut r l -> x ∈ l /\ x <> r.
Proof.
  induction 1 as [| a rest Hnotin Hnd IH]; cbn; [intros Hx; inversion Hx |].
  destruct (decide (a = r)) as [-> | Hne].
  - intros Hx. split; [right; exact Hx |]. intros ->. contradiction.
  - intros Hx. apply elem_of_cons in Hx. destruct Hx as [-> | Hx].
    + split; [left | exact Hne].
    + destruct (IH Hx) as [Hin Hxr]. split; [right; exact Hin | exact Hxr].
Qed.

Lemma destroyStructure_effect (s : BuildingSystem) (r : nat) (st : Structure.t) :
  heap s !! r = Some st ->
  destroyStructure r s =
  withStructures (spliceOut r (structures s))
    (call (physics_removeBody (Structure.id st)) (call (scene_remove (structureMesh r)) s)).
Proof. intros Hst. unfold destroyStructure. rewrite Hst. reflexivity. Qed.

Lemma damageStructure_found (s : BuildingSystem) (structureId : string) (damage : Q)
    (r : nat) (st : Structure.t) :
  find (heap s) structureId (structures s) = Some r -> heap s !! r = Some st ->
  damageStructure structureId damage s =
  let damaged := store r (Structure.setHp (Structure.hp st - damage) st) s in
  if JsMath.le (Structure.hp st - damage) 0
  then withStructures (spliceOut r (structures s))
         (call (physics_removeBody (Structure.id st))
            (call (scene_remove (structureMesh r)) damaged))
  else damaged.
Proof.
  intros Hf Hst. unfold damageStructure. rewrite Hf, Hst.
  cbn [Structure.hp Structure.setHp]. cbv zeta.
  destruct (JsMath.le (Structure.hp st - damage) 0); [| reflexivity].
  rewrite (destroyStructure_effect _ r (Structure.setHp (Structure.hp st - damage) st)).
  - reflexivity.
  - eapply heap_store_same, Hst.
Qed.

(** C5, as the code has it: [damageStructure] subtracts the damage from the
    hit points of the structure it finds and stores the difference as it is,
    below zero too; when the difference is zero or less the structure leaves
    the registry, a later search for its identifier finds nothing, and the
    scene removal and the physics-body removal are each called once; when it
    is positive the registry and the collaborators are left alone. *)
Theorem damageStructure_subtracts_and_removes
    (s : BuildingSystem) (structureId : string) (damage : Q) (r : nat) :
  uniqueIds s -> find (heap s) structureId (structures s) = Some r ->
  exists st,
    heap s !! r = Some st
    /\ Structure.id st = structureId
    /\ heap (damageStructure structureId damage s) !! r
       = Some (Structure.setHp (Structure.hp st - damage) st)
    /\ (Structure.hp st - damage <= 0 ->
        find (heap (damageStructure structureId damage s)) structureId
             (structures (damageStructure structureId damage s)) = None
        /\ structures (damageStructure structureId damage s) = spliceOut r (structures s)
        /\ (r ∉ structures (damageStructure structureId damage s))
        /\ calls (damageStructure structureId damage s)
           = calls s ++ [scene_remove (structureMesh r); physics_removeBody structureId])
    /\ (0 < Structure.hp st - damage ->
        structures (damageStructure structureId damage s) = structures s
        /\ calls (damageStructure structureId damage s) = calls s).
Proof.
  intros [Hnd Huniq] Hf.
  destruct (find_Some_inv _ _ _ _ Hf) as [Hin [st [Hst Hid]]].
  exists st. split; [exact Hst | split; [exact Hid |]].
  rewrite (damageStructure_found s structureId damage r st Hf Hst). cbv zeta.
  destruct (JsMath.le (Structure.hp st - damage) 0) eqn:Hle.
  - split; [| split].
    + cbn [heap withStructures call withCalls]. eapply heap_store_same, Hst.
    + intros _. cbn [heap structures calls withStructures call withCalls store withHeap].
      split; [| split; [reflexivity | split]].
      * apply find_None_intro. intros r' st' Hin' Hst' Hid'.
        destruct (spliceOut_elem r r' (structures s) Hnd Hin') as [Hin0 Hne].
        rewrite list_lookup_insert_ne in Hst' by congruence.
        apply Hne. apply (Huniq r' r st' st Hin0 Hin Hst' Hst). congruence.
      * intros Hin'. destruct (spliceOut_elem r r (structures s) Hnd Hin') as [_ Hne].
        congruence.
      * rewrite Hid, <- app_assoc. reflexivity.
    + intros Hpos. apply le_true in Hle. lra.
  - split; [| split].
    + eapply heap_store_same, Hst.
    + intros Hneg. apply le_false in Hle. lra.
    + intros _. split; reflexivity.
Qed.

(** ** The scenarios *)

Lemma after_run (script : list Action) (playerResources : Material -> Z) :
  is_Some (run (H := gameBox3) script (constructor playerResources)) ->
  run (H := gameBox3) script (constructor playerResources)
  = Some (after script playerResources).
Proof. unfold after. intros [s' ->]. reflexivity. Qed.

Lemma after_reachable (script : list Action) (playerResources : Material -> Z) :
  is_Some (run (H := gameBox3) script (constructor playerResources)) ->
  reachable (H := gameBox3) (after script playerResources).
Proof. intros Hs. exists playerResources, script. apply after_run, Hs. Qed.

Lemma animateBuild_tick_witness :
  heap (after wallScript richPlayer) !! 0%nat = Some woodWall
  /\ 0%nat ∈ intervals (after wallScript richPlayer)
  /\ exists st',
       heap (animateBuild_tick 4000 0 (after wallScript richPlayer)) !! 0%nat = Some st'
       /\ Structure.hp st' == 150
       /\ Structure.isBuilding st' = false
       /\ (0%nat ∉ intervals (animateBuild_tick 4000 0 (after wallScript richPlayer))).
Proof.
  assert (Hst : heap (after wallScript richPlayer) !! 0%nat = Some woodWall)
    by (vm_compute; reflexivity).
  assert (Hin : 0%nat ∈ intervals (after wallScript richPlayer))
    by (vm_compute; left).
  split; [exact Hst | split; [exact Hin |]].
  destruct (animateBuild_tick_ramps_hit_points (after wallScript richPlayer) 0%nat woodWall 4000
              Hst Hin eq_refl ltac:(reflexivity) ltac:(vm_compute; discriminate))
    as [st' [Hheap [_ Hwood]]].
  destruct (Hwood ltac:(reflexivity) ltac:(reflexivity)) as [_ Hfour].
  destruct (Hfour ltac:(vm_compute; discriminate)) as [Hhp [Hb [Hi _]]].
  exists st'. auto.
Defined.

(** C2, the claim as stated fails: the structure [createStructure] returns
    for a wood wall holds 150 hit points, not 0, and no call has reached the
    scene or the physics world. *)
Lemma createStructure_full_hit_points_unregistered :
  exists st,
    heap (snd (createStructure host0 wall (Vector3.mk 0 0 0) (Euler.mk 0 0 0)
                 (constructor richPlayer)))
      !! fst (createStructure host0 wall (Vector3.mk 0 0 0) (Euler.mk 0 0 0)
                (constructor richPlayer)) = Some st
    /\ Structure.isBuilding st = true
    /\ Structure.hp st == 150
    /\ ~ Structure.hp st == 0
    /\ calls (snd (createStructure host0 wall (Vector3.mk 0 0 0) (Euler.mk 0 0 0)
                     (constructor richPlayer)))
       = calls (constructor richPlayer).
Proof.
  exists woodWall.
  split; [vm_compute; reflexivity |].
  split; [reflexivity |].
  split; [reflexivity |].
  split; [vm_compute; discriminate | vm_compute; reflexivity].
Qed.

Lemma insufficient_resources_witness :
  (resources (after [EnterBuildMode] poorPlayer) (currentMaterial (after [EnterBuildMode] poorPlayer))
   < costs (after [EnterBuildMode] poorPlayer) (currentBuildMode (after [EnterBuildMode] poorPlayer)))%Z
  /\ resources (after [EnterBuildMode] poorPlayer) wood = 5%Z
  /\ exists s1,
       update (H := gameBox3) [terrainHit] (after [EnterBuildMode] poorPlayer) = Some s1
       /\ placementValid s1 = false
       /\ placeBuild host0 s1 = Some (false, s1)
       /\ structures s1 = structures (after [EnterBuildMode] poorPlayer)
       /\ heap s1 = heap (after [EnterBuildMode] poorPlayer)
       /\ resources s1 = resources (after [EnterBuildMode] poorPlayer).
Proof.
  assert (Hpoor :
    (resources (after [EnterBuildMode] poorPlayer) (currentMaterial (after [EnterBuildMode] poorPlayer))
     < costs (after [EnterBuildMode] poorPlayer) (currentBuildMode (after [EnterBuildMode] poorPlayer)))%Z)
    by (vm_compute; reflexivity).
  split; [exact Hpoor |].
  split; [reflexivity |].
  destruct (insufficient_resources_rejected (H := gameBox3) (after [EnterBuildMode] poorPlayer)
              {| pl_position := Vector3.mk 0 0 0; pl_rotation := Euler.mk 0 0 0;
                 pl_attachedTo := terrain |}
              Hpoor) as [_ [_ [Hcommit _]]].
  exact (Hcommit wall terrainHit [] host0 eq_refl eq_refl).
Defined.

(** C3, the claim as stated fails: after one wall has been committed from a
    ledger of exactly its cost and build mode has been left, the ledger (0)
    is below the cost (10) and validation returns false; the per-frame
    update returns at once and stores nothing, the flag of the earlier
    preview is still set, and the commit succeeds: the registry gains a
    second structure and the ledger goes to -10. *)
Lemma commit_on_stale_flag_with_insufficient_resources :
  (resources (after (wallScript ++ [ExitBuildMode]) exactPlayer)
     (currentMaterial (after (wallScript ++ [ExitBuildMode]) exactPlayer))
   < costs (after (wallScript ++ [ExitBuildMode]) exactPlayer)
       (currentBuildMode (after (wallScript ++ [ExitBuildMode]) exactPlayer)))%Z
  /\ run (H := gameBox3) (wallScript ++ [ExitBuildMode]) (constructor exactPlayer)
     = Some (after (wallScript ++ [ExitBuildMode]) exactPlayer)
  /\ checkPlacementValid (H := gameBox3)
       {| pl_position := Vector3.mk 0 0 0; pl_rotation := Euler.mk 0 0 0;
          pl_attachedTo := terrain |}
       (after (wallScript ++ [ExitBuildMode]) exactPlayer) = Some false
  /\ update (H := gameBox3) [terrainHit] (after (wallScript ++ [ExitBuildMode]) exactPlayer)
     = Some (after (wallScript ++ [ExitBuildMode]) exactPlayer)
  /\ structures (after (wallScript ++ [ExitBuildMode]) exactPlayer) = [0%nat]
  /\ resources (after (wallScript ++ [ExitBuildMode]) exactPlayer) wood = 0%Z
  /\ exists s',
       placeBuild host1 (after (wallScript ++ [ExitBuildMode]) exactPlayer) = Some (true, s')
       /\ structures s' = [0%nat; 1%nat]
       /\ resources s' wood = (-10)%Z.
Proof.
  split; [vm_compute; reflexivity |].
  split; [apply after_run; vm_compute; eauto |].
  split; [vm_compute; reflexivity |].
  split; [vm_compute; reflexivity |].
  split; [vm_compute; reflexivity |].
  split; [vm_compute; reflexivity |].
  eexists.
  split; [apply (placeBuild_valid host1 _ wall); vm_compute; reflexivity |].
  split; vm_compute; reflexivity.
Qed.

Lemma overlapping_candidate_witness :
  structures (after floorScript richPlayer) = [0%nat]
  /\ heap (after floorScript richPlayer) !! 0%nat = Some woodWall
  /\ Structure.type woodWall = wall
  /\ Mesh.position (Structure.mesh woodWall) = Vector3.mk 0 0 0
  /\ ghostPiece (after floorScript richPlayer) = Some floor
  /\ resources (after floorScript richPlayer) wood = 10%Z
  /\ exists s1,
       update (H := gameBox3) [terrainHit] (after floorScript richPlayer) = Some s1
       /\ placementValid s1 = false
       /\ (forall host : Host, placeBuild host s1 = Some (false, s1))
       /\ structures s1 = structures (after floorScript richPlayer)
       /\ heap s1 = heap (after floorScript richPlayer)
       /\ resources s1 = resources (after floorScript richPlayer).
Proof.
  assert (Hs : structures (after floorScript richPlayer) = [0%nat]) by (vm_compute; reflexivity).
  assert (Hst : heap (after floorScript richPlayer) !! 0%nat = Some woodWall)
    by (vm_compute; reflexivity).
  assert (Hg : ghostPiece (after floorScript richPlayer) = Some floor) by (vm_compute; reflexivity).
  assert (Hin : 0%nat ∈ structures (after floorScript richPlayer)) by (rewrite Hs; left).
  split; [exact Hs |]. split; [exact Hst |].
  split; [reflexivity |]. split; [reflexivity |]. split; [exact Hg |].
  split; [vm_compute; reflexivity |].
  destruct (overlapping_candidate_rejected (H := gameBox3) (after floorScript richPlayer)
              floor terrainHit []
              {| pl_position := Vector3.mk 0 0 0; pl_rotation := Euler.mk 0 0 0;
                 pl_attachedTo := terrain |}
              0%nat woodWall
              ltac:(vm_compute; reflexivity) Hg ltac:(vm_compute; reflexivity) Hin Hst
              ltac:(vm_compute; reflexivity))
    as [_ [_ Hcommit]].
  exact Hcommit.
Defined.

(** C4, the claim as stated fails: with the wall committed from a ledger of
    exactly its cost, the floor ghost moved onto the wall's cell intersects
    the wall, and validation returns false; but it returns false as well
    with the registry emptied and with no ghost piece at all, where the
    overlap test would have nothing to compare or would throw: the ledger
    (0) is below the cost (10), the code fails at the resource test and
    never reaches the volumes. *)
Lemma overlapping_candidate_fails_at_resource_test :
  ghostPiece (after (floorScript ++ [Update [terrainHit]]) exactPlayer) = Some floor
  /\ structures (after (floorScript ++ [Update [terrainHit]]) exactPlayer) = [0%nat]
  /\ (exists st,
        heap (after (floorScript ++ [Update [terrainHit]]) exactPlayer) !! 0%nat = Some st
        /\ Structure.type st = wall
        /\ intersectsBox (ThreeBox3 := gameBox3)
             (setFromObject (ThreeBox3 := gameBox3)
                (ghostMeshes (after (floorScript ++ [Update [terrainHit]]) exactPlayer) floor))
             (setFromObject (ThreeBox3 := gameBox3) (Structure.mesh st)) = true)
  /\ resources (after (floorScript ++ [Update [terrainHit]]) exactPlayer) wood = 0%Z
  /\ costs (after (floorScript ++ [Update [terrainHit]]) exactPlayer) floor = 10%Z
  /\ checkPlacementValid (H := gameBox3)
       {| pl_position := Vector3.mk 0 0 0; pl_rotation := Euler.mk 0 0 0;
          pl_attachedTo := terrain |}
       (after (floorScript ++ [Update [terrainHit]]) exactPlayer) = Some false
  /\ checkPlacementValid (H := gameBox3)
       {| pl_position := Vector3.mk 0 0 0; pl_rotation := Euler.mk 0 0 0;
          pl_attachedTo := terrain |}
       (withStructures [] (after (floorScript ++ [Update [terrainHit]]) exactPlayer))
     = Some false
  /\ checkPlacementValid (H := gameBox3)
       {| pl_position := Vector3.mk 0 0 0; pl_rotation := Euler.mk 0 0 0;
          pl_attachedTo := terrain |}
       (withGhostPiece None (after (floorScript ++ [Update [terrainHit]]) exactPlayer))
     = Some false.
Proof.
  split; [vm_compute; reflexivity |].
  split; [vm_compute; reflexivity |].
  split.
  { eexists. split; [vm_compute; reflexivity |]. split; vm_compute; reflexivity. }
  split; [vm_compute; reflexivity |].
  split; [vm_compute; reflexivity |].
  split; [vm_compute; reflexivity |].
  split; vm_compute; reflexivity.
Qed.

Lemma builtWall_uniqueIds : uniqueIds (after builtScript richPlayer).
Proof.
  assert (Hs : structures (after builtScript richPlayer) = [0%nat]) by (vm_compute; reflexivity).
  unfold uniqueIds. rewrite Hs. split.
  - apply NoDup_singleton.
  - intros r1 r2 st1 st2 H1 H2 _ _ _.
    apply list_elem_of_singleton in H1, H2. congruence.
Defined.

Lemma damageStructure_witness :
  uniqueIds (after builtScript richPlayer)
  /\ find (heap (after builtScript richPlayer)) "structure_1700000000000_0.25"
          (structures (after builtScript richPlayer)) = Some 0%nat
  /\ exists st,
       heap (after builtScript richPlayer) !! 0%nat = Some st
       /\ Structure.hp st == 150
       /\ find (heap (damageStructure "structure_1700000000000_0.25" 200 (after builtScript richPlayer)))
               "structure_1700000000000_0.25"
               (structures (damageStructure "structure_1700000000000_0.25" 200
                              (after builtScript richPlayer))) = None
       /\ calls (damageStructure "structure_1700000000000_0.25" 200 (after builtScript richPlayer))
          = calls (after builtScript richPlayer)
            ++ [scene_remove (structureMesh 0); physics_removeBody "structure_1700000000000_0.25"].
Proof.
  assert (Hf : find (heap (after builtScript richPlayer)) "structure_1700000000000_0.25"
                    (structures (after builtScript richPlayer)) = Some 0%nat)
    by (vm_compute; reflexivity).
  split; [exact builtWall_uniqueIds | split; [exact Hf |]].
  destruct (damageStructure_subtracts_and_removes (after builtScript richPlayer)
              "structure_1700000000000_0.25" 200 0%nat builtWall_uniqueIds Hf)
    as [st [Hst [_ [_ [Hdead _]]]]].
  assert (Hhp : Structure.hp st == 150).
  { assert (E : heap (after builtScript richPlayer) !! 0%nat
                = Some (Structure.setIsBuilding false
                          (Structure.setMesh
                             (Mesh.setScale (Vector3.setScalar (400000 # 400000)) (Structure.mesh woodWall))
                             (Structure.setHp (600000 # 4000) woodWall))))
      by (vm_compute; reflexivity).
    rewrite E in Hst. injection Hst as <-. reflexivity. }
  assert (Hle : Structure.hp st - 200 <= 0) by (rewrite Hhp; discriminate).
  destruct (Hdead Hle) as [Hnone [_ [_ Hcalls]]].
  exists st. auto.
Defined.

(** C5, the claim as stated fails: 200 damage on the built wall's 150 hit
    points leaves -50 in the structure, not 0. *)
Lemma damageStructure_leaves_negative_hit_points :
  exists st0 st1,
    heap (after builtScript richPlayer) !! 0%nat = Some st0
    /\ Structure.hp st0 == 150
    /\ heap (damageStructure "structure_1700000000000_0.25" 200 (after builtScript richPlayer))
         !! 0%nat = Some st1
    /\ Structure.hp st1 == -50
    /\ Structure.hp st1 < 0.
Proof.
  eexists. eexists.
  split; [vm_compute; reflexivity |].
  split; [reflexivity |].
  split; [vm_compute; reflexivity |].
  split; [reflexivity | reflexivity].
Qed.

(** C6, the code at the failing input: a wood wall is created with 150 hit
    points and the first run of its callback, 100 ms later and with the
    structure still building, lowers them to 3.75. *)
Theorem hit_points_fall_on_first_tick :
  exists st0 st1,
    heap (after wallScript richPlayer) !! 0%nat = Some st0
    /\ Structure.isBuilding st0 = true
    /\ Structure.hp st0 == 150
    /\ heap (animateBuild_tick 100 0 (after wallScript richPlayer)) !! 0%nat = Some st1
    /\ Structure.isBuilding st1 = true
    /\ Structure.hp st1 == 3.75
    /\ Structure.hp st1 < Structure.hp st0.
Proof.
  eexists. eexists.
  split; [vm_compute; reflexivity |].
  split; [reflexivity |].
  split; [reflexivity |].
  split; [vm_compute; reflexivity |].
  split; [reflexivity |].
  split; reflexivity.
Qed.

Lemma placeBuild_commits_witness :
  reachable (H := gameBox3) (after previewScript richPlayer)
  /\ placementValid (after previewScript richPlayer) = true
  /\ exists s',
       placeBuild host0 (after previewScript richPlayer) = Some (true, s')
       /\ resources s' wood = 10%Z
       /\ heap s'
          = [Structure.mk "structure_1700000000000_0.25"
               (Mesh.mk wall (Vector3.mk 0 0 0) (Euler.mk 0 0 0) (Vector3.mk 1 1 1) true
                  0x8B4513%Z)
               (Body.mk 0 (Vector3.mk 1 1 0.1) (Vector3.mk 0 0 0) (Euler.mk 0 0 0))
               wall wood 150 150 4 0 true]
       /\ structures s' = [0%nat]
       /\ intervals s' = [0%nat]
       /\ calls s' = calls (after previewScript richPlayer) ++
            [scene_add (structureMesh 0);
             physics_addBody "structure_1700000000000_0.25" 0;
             network_send {| ev_type := "build"; ev_buildType := wall;
                             ev_position := Vector3.mk 0 0 0;
                             ev_rotation := Euler.mk 0 0 0 |}].
Proof.
  assert (Hr : reachable (H := gameBox3) (after previewScript richPlayer))
    by (apply after_reachable; vm_compute; eauto).
  assert (Hv : placementValid (after previewScript richPlayer) = true)
    by (vm_compute; reflexivity).
  split; [exact Hr | split; [exact Hv |]].
  destruct (placeBuild_commits (H := gameBox3) (after previewScript richPlayer) host0 Hr Hv)
    as (g & s' & st & Hg & Hpb & _ & _ & _ & _ & _ & _ & _ & _ & _ & Hres & _ & _ & _ & _ & _).
  assert (Eg : g = wall).
  { assert (E : ghostPiece (after previewScript richPlayer) = Some wall) by (vm_compute; reflexivity).
    congruence. }
  subst g.
  assert (Em : currentMaterial (after previewScript richPlayer) = wood)
    by (vm_compute; reflexivity).
  rewrite Em in Hres.
  assert (Hfull : placeBuild host0 (after previewScript richPlayer)
                  = Some (true, after wallScript richPlayer))
    by (vm_compute; reflexivity).
  assert (Es : s' = after wallScript richPlayer) by congruence.
  exists s'. split; [exact Hpb |].
  split; [rewrite Hres; vm_compute; reflexivity |].
  subst s'.
  split; [vm_compute; reflexivity |].
  split; [vm_compute; reflexivity |].
  split; vm_compute; reflexivity.
Defined.

(** C10: the commit reads the stored flag and validates nothing: whenever
    the flag is set and a ghost piece is selected it debits the ledger and
    appends a structure; and after a first commit from a ledger of exactly
    the cost, with no preview update in between, a validation would reject
    the placement (the ledger is empty and the wall is in the way) while the
    second commit succeeds, taking the ledger below zero and adding a second
    structure. *)
Theorem placeBuild_trusts_stored_flag :
  (forall (host : Host) (s : BuildingSystem) (g : BuildMode),
      placementValid s = true -> ghostPiece s = Some g ->
      exists s',
        placeBuild host s = Some (true, s')
        /\ resources s' (currentMaterial s)
           = (resources s (currentMaterial s) - costs s (currentBuildMode s))%Z
        /\ structures s' = structures s ++ [length (heap s)])
  /\ exists (placement : Placement) (s' : BuildingSystem),
       reachable (H := gameBox3) (after wallScript exactPlayer)
       /\ placementValid (after wallScript exactPlayer) = true
       /\ resources (after wallScript exactPlayer) wood = 0%Z
       /\ structures (after wallScript exactPlayer) = [0%nat]
       /\ checkPlacementValid (H := gameBox3) placement (after wallScript exactPlayer) = Some false
       /\ placeBuild host1 (after wallScript exactPlayer) = Some (true, s')
       /\ resources s' wood = (-10)%Z
       /\ structures s' = [0%nat; 1%nat].
Proof.
  split.
  - intros host s g Hv Hg. eexists.
    split; [exact (placeBuild_valid host s g Hv Hg) |].
    cbn. unfold setKey. split; [| reflexivity].
    destruct (decide _); [reflexivity | congruence].
  - exists {| pl_position := Vector3.mk 0 0 0; pl_rotation := Euler.mk 0 0 0;
              pl_attachedTo := terrain |}.
    eexists.
    split; [apply after_reachable; vm_compute; eauto |].
    split; [vm_compute; reflexivity |].
    split; [vm_compute; reflexivity |].
    split; [vm_compute; reflexivity |].
    split; [vm_compute; reflexivity |].
    split; [apply (placeBuild_valid host1 _ wall); vm_compute; reflexivity |].
    split; vm_compute; reflexivity.
Qed.


(** ** Invariants of the reachable states *)

Section Invariants.
Context `{ThreeBox3}.

Lemma run_invariant (P : BuildingSystem -> Prop) :
  (forall a s s', P s -> perform a s = Some s' -> P s') ->
  forall script s s', P s -> run script s = Some s' -> P s'.
Proof.
  intros Hstep script. induction script as [| a rest IH]; intros s s' Hs Hrun; cbn in Hrun.
  - injection Hrun as <-. exact Hs.
  - destruct (perform a s) as [s1 |] eqn:Hp; cbn in Hrun; [| discriminate].
    exact (IH s1 s' (Hstep a s s1 Hs Hp) Hrun).
Qed.

Lemma sameIdentity_refl (a : Structure.t) : sameIdentity a a.
Proof. unfold sameIdentity. tauto. Qed.

Lemma sameIdentity_trans (a b c : Structure.t) :
  sameIdentity a b -> sameIdentity b c -> sameIdentity a c.
Proof.
  unfold sameIdentity. intros Hab Hbc.
  destruct Hab as (? & ? & ? & ? & ? & ? & ? & ? & ? & ?).
  destruct Hbc as (? & ? & ? & ? & ? & ? & ? & ? & ? & ?).
  repeat split; try congruence. auto.
Qed.

Lemma heapEvolves_refl (h : list Structure.t) : heapEvolves h h.
Proof. intros r st Hst. exists st. split; [exact Hst | apply sameIdentity_refl]. Qed.

Lemma heapEvolves_trans (h1 h2 h3 : list Structure.t) :
  heapEvolves h1 h2 -> heapEvolves h2 h3 -> heapEvolves h1 h3.
Proof.
  intros H12 H23 r st Hst.
  destruct (H12 r st Hst) as [st2 [Hst2 Hs2]].
  destruct (H23 r st2 Hst2) as [st3 [Hst3 Hs3]].
  exists st3. split; [exact Hst3 | exact (sameIdentity_trans _ _ _ Hs2 Hs3)].
Qed.

Lemma heapEvolves_app (h : list Structure.t) (st : Structure.t) : heapEvolves h (h ++ [st]).
Proof.
  intros r old Hold. exists old. split; [| apply sameIdentity_refl].
  apply lookup_app_l_Some. exact Hold.
Qed.

Lemma heapEvolves_insert (h : list Structure.t) (r : nat) (old new : Structure.t) :
  h !! r = Some old -> sameIdentity old new -> heapEvolves h (<[r := new]> h).
Proof.
  intros Hold Hsame r' st Hst.
  destruct (decide (r' = r)) as [-> | Hne].
  - exists new. split.
    + apply list_lookup_insert_eq. apply lookup_lt_Some in Hold. exact Hold.
    + rewrite Hold in Hst. injection Hst as <-. exact Hsame.
  - exists st. split; [| apply sameIdentity_refl].
    rewrite list_lookup_insert_ne by congruence. exact Hst.
Qed.

Lemma heap_destroyStructure (r : nat) (s : BuildingSystem) :
  heap (destroyStructure r s) = heap s.
Proof. unfold destroyStructure. destruct (heap s !! r); reflexivity. Qed.

Lemma heap_update (intersects : list RayIntersection) (s s' : BuildingSystem) :
  update intersects s = Some s' ->
  heap s' = heap s /\ structures s' = structures s /\ intervals s' = intervals s
  /\ resources s' = resources s /\ materialProps s' = materialProps s
  /\ calls s' = calls s.
Proof.
  unfold update. intros Hu.
  destruct (isBuilding s); cbn in Hu; [| injection Hu as <-; tauto].
  destruct (ghostPiece s) as [g |]; [| injection Hu as <-; tauto].
  destruct (calculatePlacement intersects s); [| injection Hu as <-; tauto].
  destruct (checkPlacementValid _ _); cbn in Hu; [| discriminate].
  injection Hu as <-. cbn. tauto.
Qed.

Lemma placeBuild_cases (host : Host) (s : BuildingSystem) (b : bool) (s' : BuildingSystem) :
  placeBuild host s = Some (b, s') ->
  (b = false /\ s' = s)
  \/ (exists g, placementValid s = true /\ ghostPiece s = Some g).
Proof.
  intros Hpb. destruct (placementValid s) eqn:Hv.
  - right. unfold placeBuild in Hpb. rewrite Hv in Hpb. cbn in Hpb.
    destruct (ghostPiece s) as [g |]; [eauto | discriminate].
  - left. rewrite (placeBuild_invalid host s Hv) in Hpb. injection Hpb as <- <-. tauto.
Qed.

Lemma perform_heapEvolves (a : Action) (s s' : BuildingSystem) :
  perform a s = Some s' -> heapEvolves (heap s) (heap s').
Proof.
  destruct a; cbn; intros Hp.
  - injection Hp as <-. apply heapEvolves_refl.
  - injection Hp as <-. unfold exitBuildMode. cbn.
    destruct (ghostPiece s); apply heapEvolves_refl.
  - injection Hp as <-. unfold switchBuildMode.
    destruct (modeOfString mode); [| apply heapEvolves_refl].
    destruct (ghostPiece s); cbn; destruct (isBuilding s); apply heapEvolves_refl.
  - destruct (heap_update intersects s s' Hp) as [-> _]. apply heapEvolves_refl.
  - destruct (placeBuild host s) as [[b s1] |] eqn:Hpb; cbn in Hp; [| discriminate].
    injection Hp as <-.
    destruct (placeBuild_cases host s b s1 Hpb) as [[_ ->] | [g [Hv Hg]]];
      [apply heapEvolves_refl |].
    rewrite (placeBuild_valid host s g Hv Hg) in Hpb. cbv zeta in Hpb.
    injection Hpb as _ <-. cbn. apply heapEvolves_app.
  - injection Hp as <-. unfold animateBuild_tick.
    destruct (decide _); [| apply heapEvolves_refl].
    destruct (heap s !! r) as [st |] eqn:Hst; [| apply heapEvolves_refl].
    destruct (Structure.isBuilding st) eqn:Hb; cbn [negb]; [| apply heapEvolves_refl].
    destruct (JsMath.ge _ _); cbn; apply (heapEvolves_insert _ _ st); try exact Hst;
      unfold sameIdentity; cbn; repeat split; try reflexivity; congruence.
  - injection Hp as <-. unfold damageStructure.
    destruct (find _ _ _) as [r |]; [| apply heapEvolves_refl].
    destruct (heap s !! r) as [st |] eqn:Hst; [| apply heapEvolves_refl].
    assert (Hev : heapEvolves (heap s)
                    (heap (store r (Structure.setHp (Structure.hp st - damage) st) s))).
    { cbn. apply (heapEvolves_insert _ _ st); [exact Hst |].
      unfold sameIdentity. cbn. repeat split; try reflexivity. auto. }
    destruct (JsMath.le _ _); [rewrite heap_destroyStructure |]; exact Hev.
Qed.

Lemma run_heapEvolves (script : list Action) (s s' : BuildingSystem) :
  run script s = Some s' -> heapEvolves (heap s) (heap s').
Proof.
  intros Hrun.
  apply (run_invariant (fun x => heapEvolves (heap s) (heap x))) with script s.
  - intros a s1 s2 H1 Hp. eapply heapEvolves_trans; [exact H1 |].
    exact (perform_heapEvolves a s1 s2 Hp).
  - apply heapEvolves_refl.
  - exact Hrun.
Qed.

End Invariants.

Section WellFormed.
Context `{ThreeBox3}.

Lemma spliceOut_subset (r x : nat) (l : list nat) : x ∈ spliceOut r l -> x ∈ l.
Proof.
  induction l as [| a rest IH]; cbn; [intros Hx; exact Hx |].
  destruct (decide (a = r)) as [_ | _].
  - intros Hx. right. exact Hx.
  - intros Hx. apply elem_of_cons in Hx. destruct Hx as [-> | Hx]; [left | right; auto].
Qed.

Lemma spliceOut_NoDup (r : nat) (l : list nat) : NoDup l -> NoDup (spliceOut r l).
Proof.
  induction 1 as [| a rest Hnotin Hnd IH]; cbn; [constructor |].
  destruct (decide (a = r)) as [_ | _]; [exact Hnd |].
  constructor; [| exact IH].
  intros Hin. apply Hnotin. exact (spliceOut_subset r a rest Hin).
Qed.

Lemma constructor_wellFormed (playerResources : Material -> Z) :
  wellFormed (constructor playerResources).
Proof.
  unfold wellFormed. cbn.
  split; [constructor |].
  split; [intros r Hr; inversion Hr |].
  split; [intros r Hr; inversion Hr |].
  split; [intros []; reflexivity |].
  split; intros r st Hst; rewrite lookup_nil in Hst; discriminate.
Qed.

Lemma wellFormed_same (s s' : BuildingSystem) :
  heap s' = heap s -> structures s' = structures s -> intervals s' = intervals s ->
  materialProps s' = materialProps s ->
  wellFormed s -> wellFormed s'.
Proof.
  unfold wellFormed. intros -> -> -> ->. tauto.
Qed.

Lemma placeBuild_wellFormed (host : Host) (s : BuildingSystem) (g : BuildMode) (s' : BuildingSystem) :
  placementValid s = true -> ghostPiece s = Some g ->
  placeBuild host s = Some (true, s') -> wellFormed s -> wellFormed s'.
Proof.
  intros Hv Hg Hpb (Hnd & Hstr & Hint & Hprops & Hbt & Hbuilding).
  rewrite (placeBuild_valid host s g Hv Hg) in Hpb. cbv zeta in Hpb.
  injection Hpb as <-. unfold wellFormed. cbn.
  rewrite length_app. cbn [length].
  split; [| split; [| split; [| split; [| split]]]].
  - apply NoDup_app. split; [exact Hnd |]. split; [| apply NoDup_singleton].
    intros r Hr Hr'. apply list_elem_of_singleton in Hr'. subst r.
    specialize (Hstr _ Hr). lia.
  - intros r Hr. apply elem_of_app in Hr. destruct Hr as [Hr | Hr].
    + specialize (Hstr _ Hr). lia.
    + apply list_elem_of_singleton in Hr. lia.
  - intros r Hr. apply elem_of_app in Hr. destruct Hr as [Hr | Hr].
    + specialize (Hint _ Hr). lia.
    + apply list_elem_of_singleton in Hr. lia.
  - exact Hprops.
  - intros r st Hst. apply lookup_app_Some in Hst. destruct Hst as [Hst | [_ Hst]].
    + exact (Hbt r st Hst).
    + apply list_lookup_singleton_Some in Hst. destruct Hst as [_ <-]. cbn. apply Hprops.
  - intros r st Hst Hb. apply elem_of_app.
    apply lookup_app_Some in Hst. destruct Hst as [Hst | [Hlen Hst]].
    + left. exact (Hbuilding r st Hst Hb).
    + right. apply list_lookup_singleton_Some in Hst. destruct Hst as [Hz _].
      apply list_elem_of_singleton. lia.
Qed.

Lemma store_wellFormed (s : BuildingSystem) (r : nat) (old new : Structure.t) :
  heap s !! r = Some old ->
  Structure.buildTime new = Structure.buildTime old ->
  (Structure.isBuilding new = true -> Structure.isBuilding old = true) ->
  wellFormed s -> wellFormed (store r new s).
Proof.
  intros Hold Hbt' Hb' (Hnd & Hstr & Hint & Hprops & Hbt & Hbuilding).
  unfold wellFormed, store. cbn. rewrite length_insert.
  split; [exact Hnd |]. split; [exact Hstr |]. split; [exact Hint |].
  split; [exact Hprops |].
  assert (Hlt : (r < length (heap s))%nat) by (apply lookup_lt_Some in Hold; exact Hold).
  split.
  - intros r' st Hst. destruct (decide (r' = r)) as [-> | Hne].
    + rewrite list_lookup_insert_eq in Hst by exact Hlt. injection Hst as <-.
      rewrite Hbt'. exact (Hbt r old Hold).
    + rewrite list_lookup_insert_ne in Hst by congruence. exact (Hbt r' st Hst).
  - intros r' st Hst Hb. destruct (decide (r' = r)) as [-> | Hne].
    + rewrite list_lookup_insert_eq in Hst by exact Hlt. injection Hst as <-.
      exact (Hbuilding r old Hold (Hb' Hb)).
    + rewrite list_lookup_insert_ne in Hst by congruence. exact (Hbuilding r' st Hst Hb).
Qed.

Lemma clearInterval_wellFormed (s : BuildingSystem) (r : nat) (st : Structure.t) :
  heap s !! r = Some st -> Structure.isBuilding st = false ->
  wellFormed s -> wellFormed (clearInterval r s).
Proof.
  intros Hst Hb (Hnd & Hstr & Hint & Hprops & Hbt & Hbuilding).
  unfold wellFormed, clearInterval. cbn.
  split; [exact Hnd |]. split; [exact Hstr |].
  split.
  - intros r' Hr'. apply list_elem_of_filter in Hr'. destruct Hr' as [_ Hr']. exact (Hint r' Hr').
  - split; [exact Hprops |]. split; [exact Hbt |].
    intros r' st' Hst' Hb'. apply list_elem_of_filter. split.
    + intros ->. rewrite Hst in Hst'. injection Hst' as <-. congruence.
    + exact (Hbuilding r' st' Hst' Hb').
Qed.

Lemma tick_wellFormed (now : Q) (r : nat) (s : BuildingSystem) :
  wellFormed s -> wellFormed (animateBuild_tick now r s).
Proof.
  intros Hwf. unfold animateBuild_tick.
  destruct (decide _); [| exact Hwf].
  destruct (heap s !! r) as [st |] eqn:Hst; [| exact Hwf].
  destruct (Structure.isBuilding st) eqn:Hb; cbn [negb].
  - destruct (JsMath.ge _ _).
    + eapply clearInterval_wellFormed.
      * eapply heap_store_same, Hst.
      * reflexivity.
      * apply (store_wellFormed s r st); [exact Hst | reflexivity | | exact Hwf].
        cbn. discriminate.
    + apply (store_wellFormed s r st); [exact Hst | reflexivity | | exact Hwf].
      cbn. intros _. exact Hb.
  - exact (clearInterval_wellFormed s r st Hst Hb Hwf).
Qed.

Lemma destroyStructure_wellFormed (r : nat) (s : BuildingSystem) :
  wellFormed s -> wellFormed (destroyStructure r s).
Proof.
  intros (Hnd & Hstr & Hint & Hprops & Hbt & Hbuilding).
  unfold destroyStructure. destruct (heap s !! r) as [st |]; [| unfold wellFormed; tauto].
  unfold wellFormed. cbn.
  split; [apply spliceOut_NoDup, Hnd |].
  split; [intros r' Hr'; apply Hstr; exact (spliceOut_subset r r' _ Hr') |].
  tauto.
Qed.

Lemma damageStructure_wellFormed (structureId : string) (damage : Q) (s : BuildingSystem) :
  wellFormed s -> wellFormed (damageStructure structureId damage s).
Proof.
  intros Hwf. unfold damageStructure.
  destruct (find _ _ _) as [r |]; [| exact Hwf].
  destruct (heap s !! r) as [st |] eqn:Hst; [| exact Hwf].
  assert (Hs : wellFormed (store r (Structure.setHp (Structure.hp st - damage) st) s)).
  { apply (store_wellFormed s r st); [exact Hst | reflexivity | | exact Hwf]. cbn. auto. }
  destruct (JsMath.le _ _); [apply destroyStructure_wellFormed |]; exact Hs.
Qed.

Lemma perform_wellFormed (a : Action) (s s' : BuildingSystem) :
  wellFormed s -> perform a s = Some s' -> wellFormed s'.
Proof.
  intros Hwf. destruct a; cbn; intros Hp.
  - injection Hp as <-. revert Hwf. apply wellFormed_same; reflexivity.
  - injection Hp as <-. revert Hwf. unfold exitBuildMode. cbn.
    destruct (ghostPiece s); apply wellFormed_same; reflexivity.
  - injection Hp as <-. unfold switchBuildMode.
    destruct (modeOfString mode); [| exact Hwf].
    revert Hwf. destruct (ghostPiece s); cbn; destruct (isBuilding s);
      apply wellFormed_same; reflexivity.
  - destruct (heap_update intersects s s' Hp) as (E1 & E2 & E3 & _ & E4 & _).
    exact (wellFormed_same s s' E1 E2 E3 E4 Hwf).
  - destruct (placeBuild host s) as [[b s1] |] eqn:Hpb; cbn in Hp; [| discriminate].
    injection Hp as <-.
    destruct (placeBuild_cases host s b s1 Hpb) as [[_ ->] | [g [Hv Hg]]]; [exact Hwf |].
    assert (Hb : b = true).
    { rewrite (placeBuild_valid host s g Hv Hg) in Hpb. cbv zeta in Hpb. congruence. }
    subst b. exact (placeBuild_wellFormed host s g s1 Hv Hg Hpb Hwf).
  - injection Hp as <-. apply tick_wellFormed, Hwf.
  - injection Hp as <-. apply damageStructure_wellFormed, Hwf.
Qed.

Lemma run_wellFormed (script : list Action) (s s' : BuildingSystem) :
  wellFormed s -> run script s = Some s' -> wellFormed s'.
Proof. apply (run_invariant wellFormed). exact perform_wellFormed. Qed.

End WellFormed.

(** ** Further properties of the building system *)

Section MoreValidation.
Context `{ThreeBox3}.

Lemma noStructureIntersects_true (h : list Structure.t) (bbox : Box3.t) (l : list nat) :
  noStructureIntersects h bbox l = true <->
  forall r st, r ∈ l -> h !! r = Some st ->
               intersectsBox bbox (setFromObject (Structure.mesh st)) = false.
Proof.
  induction l as [| a rest IH]; cbn.
  - split; [intros _ r st Hr; inversion Hr | reflexivity].
  - destruct (h !! a) as [sa |] eqn:Ha.
    + destruct (intersectsBox bbox (setFromObject (Structure.mesh sa))) eqn:Hbox.
      * split; [discriminate |]. intros Hall.
        rewrite (Hall a sa (list_elem_of_here a rest) Ha) in Hbox. discriminate.
      * rewrite IH. split.
        -- intros Hall r st Hr Hst. apply elem_of_cons in Hr. destruct Hr as [-> | Hr].
           ++ rewrite Ha in Hst. injection Hst as <-. exact Hbox.
           ++ exact (Hall r st Hr Hst).
        -- intros Hall r st Hr. apply Hall. right. exact Hr.
    + rewrite IH. split.
      * intros Hall r st Hr Hst. apply elem_of_cons in Hr. destruct Hr as [-> | Hr].
        -- rewrite Ha in Hst. discriminate.
        -- exact (Hall r st Hr Hst).
      * intros Hall r st Hr. apply Hall. right. exact Hr.
Qed.

(** X1: with a ghost piece selected, [checkPlacementValid] accepts exactly
    when the ledger entry of the current material covers the cost of the
    current mode and the ghost's box intersects the box of no structure in
    the registry; its [placement] argument is never read. *)
Theorem checkPlacementValid_accepts_iff
    (placement : Placement) (s : BuildingSystem) (g : BuildMode) :
  ghostPiece s = Some g ->
  (checkPlacementValid placement s = Some true <->
   (costs s (currentBuildMode s) <= resources s (currentMaterial s))%Z
   /\ forall r st, r ∈ structures s -> heap s !! r = Some st ->
        intersectsBox (setFromObject (ghostMeshes s g))
                      (setFromObject (Structure.mesh st)) = false)
  /\ (forall other : Placement,
        checkPlacementValid other s = checkPlacementValid placement s).
Proof.
  intros Hg. split; [| reflexivity].
  unfold checkPlacementValid. rewrite Hg.
  destruct (resources s (currentMaterial s) <? costs s (currentBuildMode s))%Z eqn:Hlt.
  - apply Z.ltb_lt in Hlt. split; [discriminate | intros [Hle _]; lia].
  - apply Z.ltb_ge in Hlt. split.
    + intros [= Hno]. split; [exact Hlt |]. apply noStructureIntersects_true, Hno.
    + intros [_ Hall]. f_equal. apply noStructureIntersects_true, Hall.
Qed.

End MoreValidation.

Lemma checkPlacementValid_accepts_witness :
  ghostPiece (after previewScript richPlayer) = Some wall
  /\ checkPlacementValid (H := gameBox3)
       {| pl_position := Vector3.mk 0 0 0; pl_rotation := Euler.mk 0 0 0;
          pl_attachedTo := terrain |}
       (after previewScript richPlayer) = Some true
  /\ (costs (after previewScript richPlayer) (currentBuildMode (after previewScript richPlayer))
      <= resources (after previewScript richPlayer)
           (currentMaterial (after previewScript richPlayer)))%Z.
Proof.
  assert (Hg : ghostPiece (after previewScript richPlayer) = Some wall)
    by (vm_compute; reflexivity).
  assert (Hc : checkPlacementValid (H := gameBox3)
                 {| pl_position := Vector3.mk 0 0 0; pl_rotation := Euler.mk 0 0 0;
                    pl_attachedTo := terrain |}
                 (after previewScript richPlayer) = Some true)
    by (vm_compute; reflexivity).
  split; [exact Hg | split; [exact Hc |]].
  destruct (checkPlacementValid_accepts_iff (H := gameBox3)
              {| pl_position := Vector3.mk 0 0 0; pl_rotation := Euler.mk 0 0 0;
                 pl_attachedTo := terrain |}
              (after previewScript richPlayer) wall Hg) as [[Hto _] _].
  destruct (Hto Hc) as [Hle _]. exact Hle.
Defined.

Lemma find_gone_after_splice (h : list Structure.t) (structureId : string) (l : list nat)
    (r : nat) (st new : Structure.t) :
  NoDup l ->
  (forall r1 r2 st1 st2, r1 ∈ l -> r2 ∈ l -> h !! r1 = Some st1 -> h !! r2 = Some st2 ->
                         Structure.id st1 = Structure.id st2 -> r1 = r2) ->
  r ∈ l -> h !! r = Some st -> Structure.id st = structureId ->
  find (<[r := new]> h) structureId (spliceOut r l) = None.
Proof.
  intros Hnd Huniq Hin Hst Hid. apply find_None_intro.
  intros r' st' Hin' Hst' Hid'.
  destruct (spliceOut_elem r r' l Hnd Hin') as [Hin0 Hne].
  rewrite list_lookup_insert_ne in Hst' by congruence.
  apply Hne. apply (Huniq r' r st' st Hin0 Hin Hst' Hst). congruence.
Qed.

(** X2: once damage has destroyed a structure, damage addressed to the same
    identifier is ignored: with unique identifiers, a second
    [damageStructure] after a lethal one changes nothing, whatever its
    amount. *)
Theorem damageStructure_after_destruction_is_ignored
    (s : BuildingSystem) (structureId : string) (damage again : Q) (r : nat) (st : Structure.t) :
  uniqueIds s -> find (heap s) structureId (structures s) = Some r ->
  heap s !! r = Some st -> Structure.hp st - damage <= 0 ->
  damageStructure structureId again (damageStructure structureId damage s)
  = damageStructure structureId damage s.
Proof.
  intros [Hnd Huniq] Hf Hst Hle.
  destruct (find_Some_inv _ _ _ _ Hf) as [Hin [st0 [Hst0 Hid]]].
  rewrite Hst in Hst0. injection Hst0 as <-.
  rewrite (damageStructure_found s structureId damage r st Hf Hst). cbv zeta.
  apply le_true in Hle. rewrite Hle.
  unfold damageStructure at 1. cbn [heap structures withStructures call withCalls store withHeap].
  rewrite (find_gone_after_splice (heap s) structureId (structures s) r st _ Hnd Huniq Hin Hst Hid).
  reflexivity.
Qed.

Lemma damageStructure_after_destruction_witness :
  uniqueIds (after builtScript richPlayer)
  /\ find (heap (after builtScript richPlayer)) "structure_1700000000000_0.25"
          (structures (after builtScript richPlayer)) = Some 0%nat
  /\ damageStructure "structure_1700000000000_0.25" 30
       (damageStructure "structure_1700000000000_0.25" 200 (after builtScript richPlayer))
     = damageStructure "structure_1700000000000_0.25" 200 (after builtScript richPlayer).
Proof.
  assert (Hf : find (heap (after builtScript richPlayer)) "structure_1700000000000_0.25"
                    (structures (after builtScript richPlayer)) = Some 0%nat)
    by (vm_compute; reflexivity).
  split; [exact builtWall_uniqueIds | split; [exact Hf |]].
  apply (damageStructure_after_destruction_is_ignored (after builtScript richPlayer)
           "structure_1700000000000_0.25" 200 30 0%nat
           (Structure.setIsBuilding false
              (Structure.setMesh
                 (Mesh.setScale (Vector3.setScalar (400000 # 400000)) (Structure.mesh woodWall))
                 (Structure.setHp (600000 # 4000) woodWall)))
           builtWall_uniqueIds Hf).
  - vm_compute; reflexivity.
  - vm_compute; discriminate.
Defined.

Lemma progressAt_bounds (now : Q) (st : Structure.t) :
  0 < Structure.buildTime st -> Structure.builtAt st <= now ->
  0 <= progressAt now st /\ progressAt now st <= 1.
Proof.
  intros Hbt Hnow. unfold progressAt, JsMath.min. cbv zeta. split.
  - apply Q.min_glb; [| lra].
    apply quotient_nonneg; [| exact Hbt]. apply quotient_nonneg; lra.
  - apply Q.le_min_r.
Qed.

(** X3: a run of the build callback on a structure that is still building,
    at a time not before its start, leaves its hit points between 0 and the
    ceiling and the scale of its mesh between one half and one, the same on
    the three axes; the ceiling, the times and the placement are not touched. *)
Theorem animateBuild_tick_keeps_bounds
    (s : BuildingSystem) (r : nat) (st : Structure.t) (now : Q) :
  heap s !! r = Some st -> r ∈ intervals s -> Structure.isBuilding st = true ->
  0 < Structure.buildTime st -> Structure.builtAt st <= now -> 0 <= Structure.maxHp st ->
  exists st',
    heap (animateBuild_tick now r s) !! r = Some st'
    /\ 0 <= Structure.hp st' /\ Structure.hp st' <= Structure.maxHp st'
    /\ (exists k, Mesh.scale (Structure.mesh st') = Vector3.mk k k k /\ 0.5 <= k /\ k <= 1)
    /\ sameIdentity st st'
    /\ structures (animateBuild_tick now r s) = structures s
    /\ calls (animateBuild_tick now r s) = calls s.
Proof.
  intros Hst Hin Hb Hbt Hnow Hmax.
  rewrite (animateBuild_tick_building s r st now Hst Hin Hb). cbv zeta.
  destruct (progressAt_bounds now st Hbt Hnow) as [Hp0 Hp1].
  set (p := progressAt now st) in *.
  assert (Hhp0 : 0 <= Structure.maxHp st * p) by (apply Qmult_le_0_compat; assumption).
  assert (Hhp1 : Structure.maxHp st * p <= Structure.maxHp st) by nra.
  destruct (JsMath.ge p 1); eexists;
    (split; [first [ unfold clearInterval; cbn [heap withIntervals];
                     eapply heap_store_same, Hst
                   | eapply heap_store_same, Hst ] |]);
    cbn; (split; [exact Hhp0 |]); (split; [exact Hhp1 |]);
    (split; [exists (0.5 + 0.5 * p); split; [reflexivity | split; lra] |]);
    (split; [unfold sameIdentity; cbn; repeat split; try reflexivity; congruence |]);
    split; reflexivity.
Qed.

Lemma animateBuild_tick_keeps_bounds_witness :
  heap (after wallScript richPlayer) !! 0%nat = Some woodWall
  /\ exists st',
       heap (animateBuild_tick 1000 0 (after wallScript richPlayer)) !! 0%nat = Some st'
       /\ 0 <= Structure.hp st' /\ Structure.hp st' <= Structure.maxHp st'.
Proof.
  assert (Hst : heap (after wallScript richPlayer) !! 0%nat = Some woodWall)
    by (vm_compute; reflexivity).
  assert (Hin : 0%nat ∈ intervals (after wallScript richPlayer))
    by (vm_compute; left).
  split; [exact Hst |].
  destruct (animateBuild_tick_keeps_bounds (after wallScript richPlayer) 0%nat woodWall 1000
              Hst Hin eq_refl ltac:(reflexivity) ltac:(vm_compute; discriminate)
              ltac:(vm_compute; discriminate))
    as [st' [Hheap [H0 [H1 _]]]].
  exists st'. auto.
Defined.

Section MoreInvariants.
Context `{ThreeBox3}.










End MoreInvariants.


Section Preview.
Context `{ThreeBox3}.

Lemma previewShown_frame (s s' : BuildingSystem) :
  ghostPiece s' = ghostPiece s -> currentBuildMode s' = currentBuildMode s ->
  isBuilding s' = isBuilding s ->
  (forall g, Mesh.visible (ghostMeshes s' g) = Mesh.visible (ghostMeshes s g)) ->
  previewShown s -> previewShown s'.
Proof.
  unfold previewShown. intros -> -> -> Hvis [Hgp Hshown].
  split; [exact Hgp |]. intros g. rewrite Hvis. apply Hshown.
Qed.

Lemma hidden_unless_selected (s : BuildingSystem) (g : BuildMode) :
  previewShown s -> ghostPiece s <> Some g -> Mesh.visible (ghostMeshes s g) = false.
Proof.
  intros [_ Hshown] Hne.
  destruct (Mesh.visible (ghostMeshes s g)) eqn:Hv; [| reflexivity].
  apply Hshown in Hv. destruct Hv as [_ Hv]. contradiction.
Qed.

Lemma hidden_outside_build_mode (s : BuildingSystem) (g : BuildMode) :
  previewShown s -> isBuilding s = false -> Mesh.visible (ghostMeshes s g) = false.
Proof.
  intros [_ Hshown] Hb.
  destruct (Mesh.visible (ghostMeshes s g)) eqn:Hv; [| reflexivity].
  apply Hshown in Hv. destruct Hv as [Hv _]. congruence.
Qed.

Ltac never_shown :=
  split; [discriminate | intros [? ?]; first [discriminate | congruence]].

Lemma enterBuildMode_previewShown (s : BuildingSystem) :
  previewShown s -> previewShown (enterBuildMode s).
Proof.
  intros Hinv. split; [right; reflexivity |].
  intros g. cbn. unfold setKey.
  destruct (decide (g = currentBuildMode s)) as [-> | Hne]; cbn.
  - tauto.
  - rewrite (hidden_unless_selected s g Hinv).
    + never_shown.
    + destruct Hinv as [[Hn | Hc] _]; congruence.
Qed.

Lemma exitBuildMode_previewShown (s : BuildingSystem) :
  previewShown s -> previewShown (exitBuildMode s).
Proof.
  intros Hinv. unfold exitBuildMode. cbn [ghostPiece withIsBuilding].
  assert (Hsel : ghostPiece s = None \/ ghostPiece s = Some (currentBuildMode s))
    by apply Hinv.
  destruct (ghostPiece s) as [gp |] eqn:Hgp.
  - split; [cbn; rewrite Hgp; exact Hsel |].
    intros g. cbn. unfold setKey.
    destruct (decide (g = gp)) as [-> | Hne]; cbn.
    + never_shown.
    + rewrite (hidden_unless_selected s g Hinv) by congruence.
      never_shown.
  - split; [cbn; rewrite Hgp; exact Hsel |].
    intros g. cbn. rewrite (hidden_unless_selected s g Hinv) by congruence.
    never_shown.
Qed.

Lemma switchBuildMode_previewShown (mode : string) (s : BuildingSystem) :
  previewShown s -> previewShown (switchBuildMode mode s).
Proof.
  intros Hinv. unfold switchBuildMode.
  destruct (modeOfString mode) as [m |]; [| exact Hinv].
  destruct (isBuilding s) eqn:Hb; destruct (ghostPiece s) as [gp |] eqn:Hgp;
    cbn; rewrite ?Hb; cbn; (split; [right; reflexivity |]); intros g; cbn; unfold setKey.
  - destruct (decide (g = m)) as [-> | Hne]; cbn; [tauto |].
    destruct (decide (g = gp)) as [-> | Hne']; cbn.
    + never_shown.
    + rewrite (hidden_unless_selected s g Hinv) by congruence.
      never_shown.
  - destruct (decide (g = m)) as [-> | Hne]; cbn; [tauto |].
    rewrite (hidden_unless_selected s g Hinv) by congruence.
    never_shown.
  - destruct (decide (g = gp)) as [-> | Hne']; cbn.
    + never_shown.
    + rewrite (hidden_outside_build_mode s g Hinv Hb).
      never_shown.
  - rewrite (hidden_outside_build_mode s g Hinv Hb).
    never_shown.
Qed.

Lemma perform_previewShown (a : Action) (s s' : BuildingSystem) :
  previewShown s -> perform a s = Some s' -> previewShown s'.
Proof.
  intros Hinv Hp. destruct a; cbn in Hp.
  - injection Hp as <-. apply enterBuildMode_previewShown, Hinv.
  - injection Hp as <-. apply exitBuildMode_previewShown, Hinv.
  - injection Hp as <-. apply switchBuildMode_previewShown, Hinv.
  - unfold update in Hp.
    destruct (isBuilding s) eqn:Hb; cbn in Hp; [| injection Hp as <-; exact Hinv].
    destruct (ghostPiece s) as [g |] eqn:Hg; [| injection Hp as <-; exact Hinv].
    destruct intersects as [| hit rest]; cbn in Hp; [injection Hp as <-; exact Hinv |].
    destruct (checkPlacementValid _ _); cbn in Hp; [| discriminate].
    injection Hp as <-. revert Hinv. apply previewShown_frame; try reflexivity.
    intros k. cbn. unfold setKey.
    destruct (decide (k = g)) as [-> |]; [| reflexivity].
    destruct (decide (g = g)) as [_ | Hne]; [reflexivity | congruence].
  - destruct (placeBuild host s) as [[b s1] |] eqn:Hpb; cbn in Hp; [| discriminate].
    injection Hp as <-.
    destruct (placeBuild_cases host s b s1 Hpb) as [[_ ->] | [g [Hv Hg]]]; [exact Hinv |].
    rewrite (placeBuild_valid host s g Hv Hg) in Hpb. cbv zeta in Hpb.
    injection Hpb as _ <-. revert Hinv. apply previewShown_frame; reflexivity.
  - injection Hp as <-. unfold animateBuild_tick. destruct (decide _); [| exact Hinv].
    destruct (heap s !! r); [| exact Hinv]. destruct (negb _); [exact Hinv |].
    destruct (JsMath.ge _ _); exact Hinv.
  - injection Hp as <-. unfold damageStructure. destruct (find _ _ _) as [r |]; [| exact Hinv].
    destruct (heap s !! r) as [st |]; [| exact Hinv].
    destruct (JsMath.le _ _); [| exact Hinv].
    unfold destroyStructure. destruct (heap (store r _ s) !! r); exact Hinv.
Qed.

Lemma constructor_previewShown (playerResources : Material -> Z) :
  previewShown (constructor playerResources).
Proof.
  split; [left; reflexivity |].
  intros g. split.
  - destruct g; discriminate.
  - intros [E _]. discriminate.
Qed.

(** X5: in every state a game reaches, a ghost mesh is visible exactly when
    build mode is on and it is the selected ghost piece, so at most one
    preview is shown and none outside build mode; the selected ghost piece,
    when there is one, is that of the current build mode. *)
Theorem reachable_preview_is_the_selected_ghost (s : BuildingSystem) :
  reachable s -> previewShown s.
Proof.
  intros [playerResources [script Hrun]].
  exact (run_invariant previewShown perform_previewShown script _ s
           (constructor_previewShown playerResources) Hrun).
Qed.

End Preview.

Lemma reachable_preview_witness :
  reachable (H := gameBox3) (after floorScript richPlayer)
  /\ previewShown (after floorScript richPlayer).
Proof.
  assert (Hr : reachable (H := gameBox3) (after floorScript richPlayer))
    by (apply after_reachable; vm_compute; eauto).
  split; [exact Hr |].
  exact (reachable_preview_is_the_selected_ghost (H := gameBox3) (after floorScript richPlayer) Hr).
Defined.

Section MoreCommit.
Context `{ThreeBox3}.

(** X6: a commit that directly follows a preview update which accepted the
    placement builds a structure of the current mode at the snapped hit
    point, in the orientation read off the hit normal, appends it to the
    registry, and leaves the ledger entry of the current material at zero
    or more; the ghost's box then intersected no registered structure. *)
Theorem validated_commit_builds_at_the_preview
    (s s1 : BuildingSystem) (g : BuildMode) (hit : RayIntersection)
    (rest : list RayIntersection) (host : Host) :
  isBuilding s = true -> ghostPiece s = Some g ->
  update (hit :: rest) s = Some s1 -> placementValid s1 = true ->
  exists s2 st,
    placeBuild host s1 = Some (true, s2)
    /\ heap s2 = heap s ++ [st]
    /\ structures s2 = structures s ++ [length (heap s)]
    /\ Structure.type st = currentBuildMode s
    /\ Mesh.position (Structure.mesh st) = snapToGrid s (hit_point hit)
    /\ Mesh.rotation (Structure.mesh st) = calculateRotationFromNormal (hit_normal hit)
    /\ (0 <= resources s2 (currentMaterial s))%Z
    /\ (forall r old, r ∈ structures s -> heap s !! r = Some old ->
          intersectsBox
            (setFromObject
               (Mesh.setRotation (calculateRotationFromNormal (hit_normal hit))
                  (Mesh.setPosition (snapToGrid s (hit_point hit)) (ghostMeshes s g))))
            (setFromObject (Structure.mesh old)) = false).
Proof.
  intros Hb Hg Hu Hv.
  unfold update in Hu. rewrite Hb, Hg in Hu. cbn in Hu.
  destruct (checkPlacementValid _ _) as [valid |] eqn:Hc; cbn in Hu; [| discriminate].
  injection Hu as <-. cbn in Hv. subst valid.
  unfold checkPlacementValid in Hc. cbn in Hc. rewrite Hg in Hc.
  destruct (resources s (currentMaterial s) <? costs s (currentBuildMode s))%Z eqn:Hlt;
    [discriminate |].
  apply Z.ltb_ge in Hlt. injection Hc as Hno.
  unfold setKey in Hno.
  destruct (decide (g = g)) as [_ | Hne]; [| congruence]. cbn in Hno.
  eexists. eexists.
  split.
  { apply (placeBuild_valid host _ g); [reflexivity | cbn; exact Hg]. }
  cbn. unfold setKey.
  destruct (decide (g = g)) as [_ | Hne]; [| congruence]. cbn.
  destruct (decide (currentMaterial s = currentMaterial s)) as [_ | Hne]; [| congruence].
  repeat (split; [reflexivity |]).
  split; [lia |].
  intros r old Hr Hold.
  exact (proj1 (noStructureIntersects_true _ _ _) Hno r old Hr Hold).
Qed.

(** X7: [damageStructure] never clears an interval: a structure destroyed
    while it is still building leaves the registry but keeps its interval,
    and the next run of its callback writes ramped hit points into the
    removed structure again. *)
Theorem destroyed_while_building_keeps_its_interval
    (s : BuildingSystem) (structureId : string) (damage now : Q) (r : nat) (st : Structure.t) :
  NoDup (structures s) -> find (heap s) structureId (structures s) = Some r ->
  heap s !! r = Some st -> Structure.isBuilding st = true -> r ∈ intervals s ->
  Structure.hp st - damage <= 0 ->
  (r ∉ structures (damageStructure structureId damage s))
  /\ intervals (damageStructure structureId damage s) = intervals s
  /\ exists st',
       heap (animateBuild_tick now r (damageStructure structureId damage s)) !! r = Some st'
       /\ Structure.hp st' = Structure.maxHp st * progressAt now st.
Proof.
  intros Hnd Hf Hst Hb Hin Hle.
  rewrite (damageStructure_found s structureId damage r st Hf Hst). cbv zeta.
  apply le_true in Hle. rewrite Hle.
  set (hurt := Structure.setHp (Structure.hp st - damage) st).
  split; [| split; [reflexivity |]].
  - cbn. intros Hin'. destruct (spliceOut_elem r r (structures s) Hnd Hin') as [_ Hne].
    congruence.
  - match goal with |- context [animateBuild_tick now r ?x] => set (s' := x) end.
    assert (Hst' : heap s' !! r = Some hurt) by (cbn; eapply (heap_store_same s), Hst).
    rewrite (animateBuild_tick_building s' r hurt now Hst' Hin Hb). cbv zeta.
    destruct (JsMath.ge _ _); eexists;
      (split; [first [ unfold clearInterval; cbn [heap withIntervals];
                       eapply heap_store_same, Hst'
                     | eapply heap_store_same, Hst' ] | reflexivity]).
Qed.

(** X8: every state a game reaches is well formed: the registry holds each
    structure once, the registry and the intervals refer to allocated
    structures, build times are positive, and a structure that is still
    building has its interval set. *)
Theorem reachable_states_are_wellFormed (s : BuildingSystem) :
  reachable s -> wellFormed s.
Proof.
  intros [playerResources [script Hrun]].
  exact (run_wellFormed script _ s (constructor_wellFormed playerResources) Hrun).
Qed.

(** X9: whatever the game does next, a structure stays at its reference
    with the identifier, kind, material, hit-point ceiling, build time,
    start time, position, rotation and body it was created with, and a
    construction flag that is false stays false. *)
Theorem structures_keep_their_identity
    (script : list Action) (s s' : BuildingSystem) (r : nat) (st : Structure.t) :
  run script s = Some s' -> heap s !! r = Some st ->
  exists st', heap s' !! r = Some st' /\ sameIdentity st st'.
Proof.
  intros Hrun Hst. exact (run_heapEvolves script s s' Hrun r st Hst).
Qed.

(** X10: the preview update reads the registry and the ledger and writes
    neither: structures, heap, intervals, resources and the log of
    collaborator calls are what they were, whether it accepts or rejects. *)
Theorem update_writes_only_the_preview
    (intersects : list RayIntersection) (s s' : BuildingSystem) :
  update intersects s = Some s' ->
  heap s' = heap s /\ structures s' = structures s /\ intervals s' = intervals s
  /\ resources s' = resources s /\ calls s' = calls s
  /\ isBuilding s' = isBuilding s /\ currentBuildMode s' = currentBuildMode s
  /\ ghostPiece s' = ghostPiece s.
Proof.
  intros Hu. destruct (heap_update intersects s s' Hu) as (? & ? & ? & ? & _ & ?).
  repeat (split; [assumption |]).
  unfold update in Hu.
  destruct (isBuilding s) eqn:Hb; cbn in Hu;
    [| injection Hu as <-; repeat split; congruence].
  destruct (ghostPiece s) as [g |] eqn:Hg; [| injection Hu as <-; repeat split; congruence].
  destruct (calculatePlacement intersects s); [| injection Hu as <-; repeat split; congruence].
  destruct (checkPlacementValid _ _); cbn in Hu; [| discriminate].
  injection Hu as <-. cbn. repeat split; congruence.
Qed.

End MoreCommit.

Lemma validated_commit_witness :
  isBuilding (after [EnterBuildMode] richPlayer) = true
  /\ update (H := gameBox3) [terrainHit] (after [EnterBuildMode] richPlayer)
     = Some (after previewScript richPlayer)
  /\ placementValid (after previewScript richPlayer) = true
  /\ exists s2 st,
       placeBuild host0 (after previewScript richPlayer) = Some (true, s2)
       /\ heap s2 = heap (after [EnterBuildMode] richPlayer) ++ [st]
       /\ (0 <= resources s2 (currentMaterial (after [EnterBuildMode] richPlayer)))%Z.
Proof.
  assert (Hu : update (H := gameBox3) [terrainHit] (after [EnterBuildMode] richPlayer)
               = Some (after previewScript richPlayer)) by (vm_compute; reflexivity).
  assert (Hv : placementValid (after previewScript richPlayer) = true)
    by (vm_compute; reflexivity).
  split; [vm_compute; reflexivity | split; [exact Hu | split; [exact Hv |]]].
  destruct (validated_commit_builds_at_the_preview (H := gameBox3)
              (after [EnterBuildMode] richPlayer) (after previewScript richPlayer)
              wall terrainHit [] host0
              ltac:(vm_compute; reflexivity) ltac:(vm_compute; reflexivity) Hu Hv)
    as [s2 [st [Hpb [Hheap [_ [_ [_ [_ [Hres _]]]]]]]]].
  exists s2, st. auto.
Defined.

Lemma destroyed_while_building_witness :
  NoDup (structures (after wallScript richPlayer))
  /\ find (heap (after wallScript richPlayer)) "structure_1700000000000_0.25"
          (structures (after wallScript richPlayer)) = Some 0%nat
  /\ Structure.isBuilding woodWall = true
  /\ (0%nat ∉ structures (damageStructure "structure_1700000000000_0.25" 200
                            (after wallScript richPlayer)))
  /\ exists st',
       heap (animateBuild_tick 1000 0
               (damageStructure "structure_1700000000000_0.25" 200 (after wallScript richPlayer)))
         !! 0%nat = Some st'
       /\ Structure.hp st' = Structure.maxHp woodWall * progressAt 1000 woodWall.
Proof.
  assert (Hs : structures (after wallScript richPlayer) = [0%nat]) by (vm_compute; reflexivity).
  assert (Hnd : NoDup (structures (after wallScript richPlayer)))
    by (rewrite Hs; apply NoDup_singleton).
  assert (Hf : find (heap (after wallScript richPlayer)) "structure_1700000000000_0.25"
                    (structures (after wallScript richPlayer)) = Some 0%nat)
    by (vm_compute; reflexivity).
  split; [exact Hnd | split; [exact Hf | split; [reflexivity |]]].
  destruct (destroyed_while_building_keeps_its_interval (after wallScript richPlayer)
              "structure_1700000000000_0.25" 200 1000 0%nat woodWall Hnd Hf
              ltac:(vm_compute; reflexivity) eq_refl ltac:(vm_compute; left)
              ltac:(vm_compute; discriminate)) as [Hout [_ Htick]].
  split; [exact Hout | exact Htick].
Defined.

Lemma reachable_states_witness :
  reachable (H := gameBox3) (after builtScript richPlayer)
  /\ wellFormed (after builtScript richPlayer).
Proof.
  assert (Hr : reachable (H := gameBox3) (after builtScript richPlayer))
    by (apply after_reachable; vm_compute; eauto).
  split; [exact Hr |].
  exact (reachable_states_are_wellFormed (H := gameBox3) (after builtScript richPlayer) Hr).
Defined.

Lemma structures_keep_their_identity_witness :
  run (H := gameBox3) [IntervalFires 4000 0; DamageStructure "structure_1700000000000_0.25" 200]
      (after wallScript richPlayer)
  = Some (after (wallScript ++ [IntervalFires 4000 0;
                                DamageStructure "structure_1700000000000_0.25" 200]) richPlayer)
  /\ heap (after wallScript richPlayer) !! 0%nat = Some woodWall
  /\ exists st',
       heap (after (wallScript ++ [IntervalFires 4000 0;
                                   DamageStructure "structure_1700000000000_0.25" 200]) richPlayer)
         !! 0%nat = Some st'
       /\ sameIdentity woodWall st'.
Proof.
  assert (Hrun : run (H := gameBox3)
                   [IntervalFires 4000 0; DamageStructure "structure_1700000000000_0.25" 200]
                   (after wallScript richPlayer)
                 = Some (after (wallScript ++ [IntervalFires 4000 0;
                           DamageStructure "structure_1700000000000_0.25" 200]) richPlayer))
    by (vm_compute; reflexivity).
  assert (Hst : heap (after wallScript richPlayer) !! 0%nat = Some woodWall)
    by (vm_compute; reflexivity).
  split; [exact Hrun | split; [exact Hst |]].
  exact (structures_keep_their_identity (H := gameBox3) _ _ _ 0%nat woodWall Hrun Hst).
Defined.

Lemma update_writes_only_the_preview_witness :
  update (H := gameBox3) [terrainHit] (after floorScript richPlayer)
  = Some (after (floorScript ++ [Update [terrainHit]]) richPlayer)
  /\ structures (after (floorScript ++ [Update [terrainHit]]) richPlayer)
     = structures (after floorScript richPlayer)
  /\ resources (after (floorScript ++ [Update [terrainHit]]) richPlayer)
     = resources (after floorScript richPlayer).
Proof.
  assert (Hu : update (H := gameBox3) [terrainHit] (after floorScript richPlayer)
               = Some (after (floorScript ++ [Update [terrainHit]]) richPlayer))
    by (vm_compute; reflexivity).
  split; [exact Hu |].
  destruct (update_writes_only_the_preview (H := gameBox3) _ _ _ Hu)
    as (_ & Hs & _ & Hr & _).
  split; [exact Hs | exact Hr].
Defined.

(** ** The physics world *)

(** X11: the table of the physics world is a map by identifier: after
    [addBody] the identifier leads to the body and the other entries are as
    before; [removeBody] of an identifier that is not in the table changes
    nothing and calls nothing on the world, so removing twice is removing
    once; and removing a body added under a fresh identifier restores the
    table, the world having seen one add and one remove of that body. *)
Theorem physicsWorld_table_round_trip (p : PhysicsWorld.t) (id : string) (body : nat) :
  PhysicsWorld.bodies (PhysicsWorld.addBody id body p) !! id = Some body
  /\ (forall other, other <> id ->
        PhysicsWorld.bodies (PhysicsWorld.addBody id body p) !! other
        = PhysicsWorld.bodies p !! other)
  /\ (PhysicsWorld.bodies p !! id = None -> PhysicsWorld.removeBody id p = p)
  /\ PhysicsWorld.removeBody id (PhysicsWorld.removeBody id p) = PhysicsWorld.removeBody id p
  /\ (PhysicsWorld.bodies p !! id = None ->
      PhysicsWorld.removeBody id (PhysicsWorld.addBody id body p)
      = PhysicsWorld.mk
          (PhysicsWorld.world p
             ++ [PhysicsWorld.world_addBody body; PhysicsWorld.world_removeBody body])
          (PhysicsWorld.bodies p)).
Proof.
  split; [| split; [| split; [| split]]].
  - cbn. apply lookup_insert_eq.
  - intros other Hne. cbn. apply lookup_insert_ne. congruence.
  - intros Hnone. unfold PhysicsWorld.removeBody. rewrite Hnone. reflexivity.
  - unfold PhysicsWorld.removeBody.
    destruct (PhysicsWorld.bodies p !! id) as [b |] eqn:Hb; cbn.
    + rewrite lookup_delete_eq. reflexivity.
    + rewrite Hb. reflexivity.
  - intros Hnone. unfold PhysicsWorld.removeBody, PhysicsWorld.addBody. cbn.
    rewrite lookup_insert_eq, delete_insert_id by exact Hnone.
    rewrite <- app_assoc. reflexivity.
Qed.

(** X12: the table holds one body per identifier: a second [addBody] under
    an identifier already in use replaces the entry while the first body
    stays in the world, and the [removeBody] that follows removes only the
    second body; the first one is never removed and no identifier leads to
    it any more than before. *)
Theorem physicsWorld_reused_id_orphans_body
    (p : PhysicsWorld.t) (id : string) (first second : nat) :
  PhysicsWorld.removeBody id
    (PhysicsWorld.addBody id second (PhysicsWorld.addBody id first p))
  = PhysicsWorld.mk
      (PhysicsWorld.world p
         ++ [PhysicsWorld.world_addBody first; PhysicsWorld.world_addBody second;
             PhysicsWorld.world_removeBody second])
      (delete id (PhysicsWorld.bodies p)).
Proof.
  unfold PhysicsWorld.removeBody, PhysicsWorld.addBody. cbn.
  rewrite lookup_insert_eq, !delete_insert_eq, <- !app_assoc. reflexivity.
Qed.

Section Mirror.
Context `{ThreeBox3}.

Lemma physicsAfter_snoc (log : list Call) (c : Call) :
  physicsAfter (log ++ [c]) = physicsCall (physicsAfter log) c.
Proof. unfold physicsAfter. apply foldl_snoc. Qed.

Lemma idsOf_store (s : BuildingSystem) (r : nat) (old new : Structure.t) :
  heap s !! r = Some old -> Structure.id new = Structure.id old ->
  idsOf (store r new s) = idsOf s.
Proof.
  intros Hold Hid. unfold idsOf, store. cbn.
  rewrite list_fmap_insert. apply list_insert_id.
  rewrite list_lookup_fmap, Hold. cbn. congruence.
Qed.

Lemma spliceOut_keeps (r x : nat) (l : list nat) : x ∈ l -> x <> r -> x ∈ spliceOut r l.
Proof.
  induction l as [| a rest IH]; cbn; [intros Hx; inversion Hx |].
  intros Hx Hne. apply elem_of_cons in Hx.
  destruct (decide (a = r)) as [-> | Ha].
  - destruct Hx as [-> | Hx]; [congruence | exact Hx].
  - destruct Hx as [-> | Hx]; [left | right; auto].
Qed.

(** What an entry point does to the identifiers, the registry and the
    physics world: nothing, a commit, or a destruction. *)
Lemma perform_registry_step (a : Action) (s s' : BuildingSystem) :
  perform a s = Some s' ->
  (idsOf s' = idsOf s /\ structures s' = structures s
   /\ physicsAfter (calls s') = physicsAfter (calls s))
  \/ (exists id,
        idsOf s' = idsOf s ++ [id]
        /\ structures s' = structures s ++ [length (heap s)]
        /\ physicsAfter (calls s')
           = PhysicsWorld.addBody id (length (heap s)) (physicsAfter (calls s)))
  \/ (exists id r,
        idsOf s' = idsOf s /\ r ∈ structures s /\ idsOf s !! r = Some id
        /\ structures s' = spliceOut r (structures s)
        /\ physicsAfter (calls s')
           = PhysicsWorld.removeBody id (physicsAfter (calls s))).
Proof.
  destruct a; cbn; intros Hp.
  - injection Hp as <-. left. tauto.
  - injection Hp as <-. left. unfold exitBuildMode. cbn. destruct (ghostPiece s); tauto.
  - injection Hp as <-. left. unfold switchBuildMode.
    destruct (modeOfString mode); [| tauto].
    destruct (ghostPiece s); cbn; destruct (isBuilding s); tauto.
  - left. destruct (heap_update intersects s s' Hp) as (E1 & E2 & _ & _ & _ & E3).
    unfold idsOf. rewrite E1, E2, E3. tauto.
  - destruct (placeBuild host s) as [[b s1] |] eqn:Hpb; cbn in Hp; [| discriminate].
    injection Hp as <-.
    destruct (placeBuild_cases host s b s1 Hpb) as [[_ ->] | [g [Hv Hg]]]; [left; tauto |].
    rewrite (placeBuild_valid host s g Hv Hg) in Hpb. cbv zeta in Hpb.
    injection Hpb as _ <-. right; left. eexists.
    split; [| split].
    + unfold idsOf. cbn. rewrite fmap_app. reflexivity.
    + reflexivity.
    + cbn. rewrite !physicsAfter_snoc. reflexivity.
  - injection Hp as <-. left. unfold animateBuild_tick.
    destruct (decide _); [| tauto].
    destruct (heap s !! r) as [st |] eqn:Hst; [| tauto].
    destruct (Structure.isBuilding st); cbn [negb]; [| tauto].
    destruct (JsMath.ge _ _).
    + split; [| tauto]. unfold clearInterval.
      change (idsOf (withIntervals ?i ?x)) with (idsOf x).
      apply (idsOf_store s r st); [exact Hst | reflexivity].
    + split; [| tauto]. apply (idsOf_store s r st); [exact Hst | reflexivity].
  - injection Hp as <-.
    destruct (find (heap s) structureId (structures s)) as [r |] eqn:Hf;
      [| left; unfold damageStructure; rewrite Hf; tauto].
    destruct (find_Some_inv _ _ _ _ Hf) as [Hin [st [Hst Hid]]].
    rewrite (damageStructure_found s structureId damage r st Hf Hst). cbv zeta.
    assert (Hids : idsOf (store r (Structure.setHp (Structure.hp st - damage) st) s) = idsOf s)
      by (apply (idsOf_store s r st); [exact Hst | reflexivity]).
    destruct (JsMath.le _ _).
    + right; right. exists structureId, r.
      split; [exact Hids |]. split; [exact Hin |].
      split; [unfold idsOf; rewrite list_lookup_fmap, Hst; cbn; congruence |].
      split; [reflexivity |].
      cbn. rewrite !physicsAfter_snoc. cbn. rewrite Hid. reflexivity.
    + left. split; [exact Hids | split; reflexivity].
Qed.

Lemma perform_mirror (a : Action) (s s' : BuildingSystem) :
  wellFormed s -> (NoDup (idsOf s) -> tableMirrorsRegistry s) ->
  perform a s = Some s' -> NoDup (idsOf s') -> tableMirrorsRegistry s'.
Proof.
  intros (Hnd & Hvalid & _) Hinv Hp Hnd'.
  unfold tableMirrorsRegistry.
  destruct (perform_registry_step a s s' Hp)
    as [(Ei & Es & Ep) | [(idn & Ei & Es & Ep) | (idd & r & Ei & Hin & Hr & Es & Ep)]].
  - rewrite Ei in Hnd'. specialize (Hinv Hnd'). unfold tableMirrorsRegistry in Hinv.
    intros id r0. rewrite Ep, Es, Ei. apply Hinv.
  - rewrite Ei in Hnd'. apply NoDup_app in Hnd'. destruct Hnd' as (Hnd0 & Hfresh & _).
    specialize (Hinv Hnd0). unfold tableMirrorsRegistry in Hinv.
    assert (Hlen : length (idsOf s) = length (heap s)) by (unfold idsOf; apply length_fmap).
    intros id r0. rewrite Ep, Es, Ei. cbn.
    destruct (decide (id = idn)) as [-> | Hne].
    + rewrite lookup_insert_eq. split.
      * intros [= <-]. split; [apply elem_of_app; right; left |].
        rewrite lookup_app_r by lia. rewrite Hlen, Nat.sub_diag. reflexivity.
      * intros [_ Hl]. apply lookup_app_Some in Hl. destruct Hl as [Hl | [Hge Hl]].
        -- exfalso. apply (Hfresh idn); [| left].
           apply list_elem_of_lookup. eauto.
        -- apply list_lookup_singleton_Some in Hl. destruct Hl as [Hz _].
           f_equal. lia.
    + rewrite lookup_insert_ne by congruence. rewrite Hinv. split.
      * intros [Hr0 Hl]. split; [apply elem_of_app; left; exact Hr0 |].
        apply lookup_app_l_Some. exact Hl.
      * intros [Hr0 Hl]. apply lookup_app_Some in Hl. destruct Hl as [Hl | [Hge Hl]].
        -- split; [| exact Hl]. apply elem_of_app in Hr0. destruct Hr0 as [Hr0 | Hr0]; [exact Hr0 |].
           apply list_elem_of_singleton in Hr0. apply lookup_lt_Some in Hl. lia.
        -- apply list_lookup_singleton_Some in Hl. destruct Hl as [_ Hl]. congruence.
  - rewrite Ei in Hnd'. specialize (Hinv Hnd'). unfold tableMirrorsRegistry in Hinv.
    assert (Hentry : PhysicsWorld.bodies (physicsAfter (calls s)) !! idd = Some r)
      by (apply Hinv; split; assumption).
    intros id r0. rewrite Ep, Es, Ei. unfold PhysicsWorld.removeBody. rewrite Hentry. cbn.
    destruct (decide (id = idd)) as [-> | Hne].
    + rewrite lookup_delete_eq. split; [discriminate |].
      intros [Hr0 Hl]. exfalso.
      destruct (spliceOut_elem r r0 (structures s) Hnd Hr0) as [_ Hneq].
      apply Hneq. exact (NoDup_lookup _ _ _ _ Hnd' Hl Hr).
    + rewrite lookup_delete_ne by congruence. rewrite Hinv. split.
      * intros [Hr0 Hl]. split; [| exact Hl].
        apply spliceOut_keeps; [exact Hr0 |]. intros ->. congruence.
      * intros [Hr0 Hl]. split; [| exact Hl]. exact (spliceOut_subset r r0 _ Hr0).
Qed.

Lemma perform_ids_grow (a : Action) (s s' : BuildingSystem) :
  perform a s = Some s' -> NoDup (idsOf s') -> NoDup (idsOf s).
Proof.
  intros Hp Hnd'.
  destruct (perform_registry_step a s s' Hp)
    as [(Ei & _) | [(idn & Ei & _) | (idd & r & Ei & _)]]; rewrite Ei in Hnd'.
  - exact Hnd'.
  - apply NoDup_app in Hnd'. tauto.
  - exact Hnd'.
Qed.

Lemma run_mirror (script : list Action) (s s' : BuildingSystem) :
  wellFormed s -> (NoDup (idsOf s) -> tableMirrorsRegistry s) ->
  run script s = Some s' ->
  wellFormed s' /\ (NoDup (idsOf s') -> tableMirrorsRegistry s').
Proof.
  intros Hwf Hinv Hrun.
  apply (run_invariant (fun x => wellFormed x /\ (NoDup (idsOf x) -> tableMirrorsRegistry x)))
    with script s; [| tauto | exact Hrun].
  intros a s1 s2 [Hwf1 Hinv1] Hp. split.
  - exact (perform_wellFormed a s1 s2 Hwf1 Hp).
  - intros Hnd2. exact (perform_mirror a s1 s2 Hwf1 Hinv1 Hp Hnd2).
Qed.

(** X13: played into a new physics world, the calls of the building system
    keep its table in step with the registry: in every state a game
    reaches in which no two structures ever created share an identifier,
    an identifier leads to a body exactly when that body's structure is in
    the registry under that identifier. *)
Theorem physics_table_mirrors_registry (s : BuildingSystem) :
  reachable s -> NoDup (idsOf s) -> tableMirrorsRegistry s.
Proof.
  intros [playerResources [script Hrun]] Hnd.
  refine (proj2 (run_mirror script (constructor playerResources) s
                   (constructor_wellFormed playerResources) _ Hrun) Hnd).
  intros _ id r. cbn. rewrite lookup_empty. split; [discriminate |].
  intros [Hin _]. inversion Hin.
Qed.

End Mirror.

Lemma physics_table_mirrors_registry_witness :
  reachable (H := gameBox3) (after builtScript richPlayer)
  /\ NoDup (idsOf (after builtScript richPlayer))
  /\ tableMirrorsRegistry (after builtScript richPlayer).
Proof.
  assert (Hr : reachable (H := gameBox3) (after builtScript richPlayer))
    by (apply after_reachable; vm_compute; eauto).
  assert (Hi : idsOf (after builtScript richPlayer) = ["structure_1700000000000_0.25"%string])
    by (vm_compute; reflexivity).
  assert (Hnd : NoDup (idsOf (after builtScript richPlayer)))
    by (rewrite Hi; apply NoDup_singleton).
  split; [exact Hr | split; [exact Hnd |]].
  exact (physics_table_mirrors_registry (H := gameBox3) (after builtScript richPlayer) Hr Hnd).
Defined.

(** ** The engine loop *)

Lemma steps_fields (n : nat) (e : Engine.t) :
  Engine.fixedTimeStep (Engine.steps n e) = Engine.fixedTimeStep e
  /\ Engine.isRunning (Engine.steps n e) = Engine.isRunning e
  /\ Engine.lastTime (Engine.steps n e) = Engine.lastTime e
  /\ Engine.deltaTime (Engine.steps n e) = Engine.deltaTime e
  /\ Engine.calls (Engine.steps n e) = Engine.calls e
  /\ Engine.accumulator (Engine.steps n e)
     == Engine.accumulator e - inject_Z (Z.of_nat n) * Engine.fixedTimeStep e
  /\ PhysicsWorld.bodies (Engine.physics (Engine.steps n e))
     = PhysicsWorld.bodies (Engine.physics e)
  /\ PhysicsWorld.world (Engine.physics (Engine.steps n e))
     = PhysicsWorld.world (Engine.physics e)
       ++ replicate n (PhysicsWorld.world_step (Engine.fixedTimeStep e)).
Proof.
  revert e. induction n as [| k IH]; intros e.
  - cbn. rewrite app_nil_r. repeat split; try reflexivity. ring.
  - cbn [Engine.steps]. destruct (IH (Engine.stepOnce e)) as (F & R & L & D & C & A & B & W).
    rewrite F, R, L, D, C, B, W. cbn [Engine.stepOnce Engine.fixedTimeStep Engine.isRunning
      Engine.lastTime Engine.deltaTime Engine.calls Engine.physics Engine.accumulator
      PhysicsWorld.step PhysicsWorld.bodies PhysicsWorld.world].
    repeat split; try reflexivity.
    + rewrite A. cbn [Engine.stepOnce Engine.accumulator Engine.fixedTimeStep].
      rewrite Nat2Z.inj_succ, <- Z.add_1_r, inject_Z_plus. change (inject_Z 1) with 1. ring.
    + rewrite <- app_assoc. reflexivity.
Qed.

Lemma physicsLoop_runs (n : nat) :
  forall (fuel : nat) (e : Engine.t),
    0 < Engine.fixedTimeStep e ->
    inject_Z (Z.of_nat n) * Engine.fixedTimeStep e <= Engine.accumulator e ->
    Engine.accumulator e < (inject_Z (Z.of_nat n) + 1) * Engine.fixedTimeStep e ->
    (n <= fuel)%nat ->
    Engine.physicsLoop fuel e = Some (Engine.steps n e).
Proof.
  induction n as [| k IH]; intros fuel e Hf Hlo Hhi Hfuel.
  - cbn [Engine.steps].
    assert (Hc : JsMath.ge (Engine.accumulator e) (Engine.fixedTimeStep e) = false).
    { destruct (JsMath.ge _ _) eqn:E; [| reflexivity].
      apply ge_true in E. change (inject_Z (Z.of_nat 0)) with 0 in Hhi. lra. }
    destruct fuel; cbn; rewrite Hc; reflexivity.
  - rewrite Nat2Z.inj_succ, <- Z.add_1_r, inject_Z_plus in Hlo, Hhi.
    change (inject_Z 1) with 1 in Hlo, Hhi.
    assert (Hk : 0 <= inject_Z (Z.of_nat k)).
    { change 0 with (inject_Z 0). rewrite <- Zle_Qle. lia. }
    assert (Hc : JsMath.ge (Engine.accumulator e) (Engine.fixedTimeStep e) = true).
    { apply ge_true. nra. }
    destruct fuel as [| fuel]; [lia |].
    cbn [Engine.physicsLoop Engine.steps]. rewrite Hc.
    apply IH; cbn [Engine.stepOnce Engine.fixedTimeStep Engine.accumulator];
      [exact Hf | lra | lra | lia].
Qed.

Lemma turns_bounds (acc fixed : Q) :
  0 < fixed -> 0 <= acc ->
  inject_Z (Z.of_nat (Z.to_nat (Qfloor (acc / fixed)))) * fixed <= acc
  /\ acc < (inject_Z (Z.of_nat (Z.to_nat (Qfloor (acc / fixed)))) + 1) * fixed.
Proof.
  intros Hf Ha.
  assert (Hq : 0 <= acc / fixed) by (apply quotient_nonneg; assumption).
  assert (Hfl : (0 <= Qfloor (acc / fixed))%Z).
  { change 0%Z with (Qfloor 0). apply Qfloor_resp_le. exact Hq. }
  rewrite Z2Nat.id by exact Hfl.
  pose proof (Qfloor_le (acc / fixed)) as Hlo.
  pose proof (Qlt_floor (acc / fixed)) as Hhi.
  rewrite inject_Z_plus in Hhi. change (inject_Z 1) with 1 in Hhi.
  assert (Hacc : acc == acc / fixed * fixed) by (field; lra).
  split.
  - rewrite Hacc at 2. apply Qmult_le_compat_r; lra.
  - rewrite Hacc at 1. apply Qmult_lt_compat_r; lra.
Qed.

(** ** The weapon *)

Lemma weapon_handle_ammoOk (ev : Weapon.Event) (w : Weapon.t) :
  Weapon.ammoOk w ->
  Weapon.ammoOk (snd (Weapon.handle ev w))
  /\ Weapon.magazineSize (snd (Weapon.handle ev w)) = Weapon.magazineSize w
  /\ (Weapon.currentAmmo (snd (Weapon.handle ev w))
      + Weapon.reserveAmmo (snd (Weapon.handle ev w))
      + (if fst (Weapon.handle ev w) then 1 else 0)
      = Weapon.currentAmmo w + Weapon.reserveAmmo w)%Z.
Proof.
  unfold Weapon.ammoOk. intros (Hmag & Hres & Htim).
  destruct ev as [now fired | now |]; cbn.
  - unfold Weapon.fire, Weapon.canFire.
    destruct (Weapon.isReloading w) eqn:Hr; cbn; [rewrite Hr; repeat split; lia |].
    destruct (0 <? Weapon.currentAmmo w)%Z eqn:Hpos; cbn; [| rewrite Hr; repeat split; lia].
    apply Z.ltb_lt in Hpos.
    destruct (JsMath.ge _ _); cbn; rewrite ?Hr; repeat split; try lia; exact Htim.
  - unfold Weapon.reload.
    destruct (Weapon.isReloading w) eqn:Hr; cbn; [rewrite Hr; repeat split; lia |].
    destruct (Weapon.currentAmmo w =? Weapon.magazineSize w)%Z; cbn;
      rewrite ?Hr; repeat split; lia.
  - unfold Weapon.reloadTimeout.
    destruct (Weapon.timers w) as [| pending] eqn:Ht; cbn; [rewrite Ht; repeat split; lia |].
    destruct (Weapon.isReloading w); [| discriminate].
    repeat split; lia.
Qed.

Lemma weapon_play_ammoOk (events : list Weapon.Event) :
  forall w : Weapon.t,
    Weapon.ammoOk w ->
    Weapon.ammoOk (snd (Weapon.play events w))
    /\ Weapon.magazineSize (snd (Weapon.play events w)) = Weapon.magazineSize w
    /\ (0 <= fst (Weapon.play events w))%Z
    /\ (Weapon.currentAmmo (snd (Weapon.play events w))
        + Weapon.reserveAmmo (snd (Weapon.play events w))
        + fst (Weapon.play events w)
        = Weapon.currentAmmo w + Weapon.reserveAmmo w)%Z.
Proof.
  induction events as [| ev rest IH]; intros w Hok.
  - cbn. repeat split; try lia; apply Hok.
  - cbn [Weapon.play].
    destruct (weapon_handle_ammoOk ev w Hok) as (Hok1 & Hm1 & Hc1).
    destruct (Weapon.handle ev w) as [shot w1]. cbn [fst snd] in *.
    destruct (IH w1 Hok1) as (Hok2 & Hm2 & Hn2 & Hc2).
    destruct (Weapon.play rest w1) as [n w2]. cbn [fst snd] in *.
    split; [exact Hok2 |]. split; [congruence |].
    destruct shot; split; lia.
Qed.

(** X16: whatever sequence of shots, reload requests and reload timers a
    weapon built from a configuration with a non-negative magazine size and
    reserve goes through, the magazine holds between 0 and [magazineSize]
    rounds, the reserve is never negative, exactly one reload timer is
    pending while [isReloading] is set and none otherwise, and every round
    is accounted for: magazine + reserve + shots fired = magazineSize +
    maxAmmo. *)
Theorem weapon_ammunition_is_conserved (data : Weapon.Data) (events : list Weapon.Event) :
  (0 <= Weapon.data_magazineSize data)%Z -> (0 <= Weapon.data_maxAmmo data)%Z ->
  (0 <= Weapon.currentAmmo (snd (Weapon.play events (Weapon.constructor data)))
   <= Weapon.data_magazineSize data)%Z
  /\ (0 <= Weapon.reserveAmmo (snd (Weapon.play events (Weapon.constructor data))))%Z
  /\ Weapon.timers (snd (Weapon.play events (Weapon.constructor data)))
     = (if Weapon.isReloading (snd (Weapon.play events (Weapon.constructor data)))
        then 1 else 0)%nat
  /\ (0 <= fst (Weapon.play events (Weapon.constructor data)))%Z
  /\ (Weapon.currentAmmo (snd (Weapon.play events (Weapon.constructor data)))
      + Weapon.reserveAmmo (snd (Weapon.play events (Weapon.constructor data)))
      + fst (Weapon.play events (Weapon.constructor data))
      = Weapon.data_magazineSize data + Weapon.data_maxAmmo data)%Z.
Proof.
  intros Hmag Hmax.
  assert (Hok : Weapon.ammoOk (Weapon.constructor data)).
  { unfold Weapon.ammoOk. cbn. repeat split; lia. }
  destruct (weapon_play_ammoOk events (Weapon.constructor data) Hok)
    as ((Hc & Hr & Ht) & Hm & Hn & Hsum).
  rewrite Hm in Hc. cbn in Hc, Hsum.
  split; [exact Hc |]. split; [exact Hr |]. split; [exact Ht |]. split; [exact Hn | exact Hsum].
Qed.

Lemma weapon_ammunition_witness :
  (0 <= Weapon.data_magazineSize
          {| Weapon.data_damage := 30; Weapon.data_fireRate := 600;
             Weapon.data_magazineSize := 2; Weapon.data_reloadTime := 2000;
             Weapon.data_maxAmmo := 3 |})%Z
  /\ Weapon.play [Weapon.Fire 100 101; Weapon.Fire 150 151; Weapon.Fire 300 301;
                  Weapon.Fire 500 501; Weapon.Reload 600; Weapon.Fire 700 701;
                  Weapon.ReloadTimeout; Weapon.Fire 3000 3001]
       (Weapon.constructor
          {| Weapon.data_damage := 30; Weapon.data_fireRate := 600;
             Weapon.data_magazineSize := 2; Weapon.data_reloadTime := 2000;
             Weapon.data_maxAmmo := 3 |})
     = (3%Z, Weapon.mk 30 600 2 2000 1 1 false 3001 600 (60000 / 600) 0)
  /\ (Weapon.currentAmmo (snd (Weapon.play [Weapon.Fire 100 101; Weapon.Reload 600]
        (Weapon.constructor
          {| Weapon.data_damage := 30; Weapon.data_fireRate := 600;
             Weapon.data_magazineSize := 2; Weapon.data_reloadTime := 2000;
             Weapon.data_maxAmmo := 3 |})))
      + Weapon.reserveAmmo (snd (Weapon.play [Weapon.Fire 100 101; Weapon.Reload 600]
        (Weapon.constructor
          {| Weapon.data_damage := 30; Weapon.data_fireRate := 600;
             Weapon.data_magazineSize := 2; Weapon.data_reloadTime := 2000;
             Weapon.data_maxAmmo := 3 |})))
      + fst (Weapon.play [Weapon.Fire 100 101; Weapon.Reload 600]
        (Weapon.constructor
          {| Weapon.data_damage := 30; Weapon.data_fireRate := 600;
             Weapon.data_magazineSize := 2; Weapon.data_reloadTime := 2000;
             Weapon.data_maxAmmo := 3 |}))
      = 2 + 3)%Z.
Proof.
  split; [cbn; lia |].
  split; [vm_compute; reflexivity |].
  apply (weapon_ammunition_is_conserved
           {| Weapon.data_damage := 30; Weapon.data_fireRate := 600;
              Weapon.data_magazineSize := 2; Weapon.data_reloadTime := 2000;
              Weapon.data_maxAmmo := 3 |}
           [Weapon.Fire 100 101; Weapon.Reload 600]); cbn; lia.
Defined.

(** X17: a reload runs from the request to the timer: requested on a weapon
    that is not reloading and whose magazine is not full, it sets
    [isReloading] and one timer; until the timer runs no shot is fired and
    further reload requests change nothing; the timer moves
    [min(magazineSize - currentAmmo, reserveAmmo)] rounds from the reserve
    to the magazine, so the magazine ends at [min(magazineSize, currentAmmo
    + reserveAmmo)], and clears [isReloading]. *)
Theorem weapon_reload_fills_magazine_from_reserve (w : Weapon.t) (now : Q) :
  Weapon.ammoOk w -> Weapon.isReloading w = false ->
  Weapon.currentAmmo w <> Weapon.magazineSize w ->
  Weapon.isReloading (Weapon.reload now w) = true
  /\ Weapon.reloadStartTime (Weapon.reload now w) = now
  /\ (forall (t fired : Q) (A : Type) (shot : A),
        Weapon.fire t fired shot (Weapon.reload now w) = (None, Weapon.reload now w))
  /\ (forall t : Q, Weapon.reload t (Weapon.reload now w) = Weapon.reload now w)
  /\ Weapon.isReloading (Weapon.reloadTimeout (Weapon.reload now w)) = false
  /\ Weapon.currentAmmo (Weapon.reloadTimeout (Weapon.reload now w))
     = Z.min (Weapon.magazineSize w) (Weapon.currentAmmo w + Weapon.reserveAmmo w)
  /\ (Weapon.currentAmmo (Weapon.reloadTimeout (Weapon.reload now w))
      + Weapon.reserveAmmo (Weapon.reloadTimeout (Weapon.reload now w))
      = Weapon.currentAmmo w + Weapon.reserveAmmo w)%Z
  /\ Weapon.reloadTimeout (Weapon.reloadTimeout (Weapon.reload now w))
     = Weapon.reloadTimeout (Weapon.reload now w).
Proof.
  intros (Hmag & Hres & Htim) Hidle Hfull.
  assert (Hr : Weapon.reload now w
               = Weapon.mk (Weapon.damage w) (Weapon.fireRate w) (Weapon.magazineSize w)
                   (Weapon.reloadTime w) (Weapon.currentAmmo w) (Weapon.reserveAmmo w) true
                   (Weapon.lastFireTime w) now (Weapon.timeBetweenShots w)
                   (S (Weapon.timers w))).
  { unfold Weapon.reload. rewrite Hidle. cbn.
    destruct (Weapon.currentAmmo w =? Weapon.magazineSize w)%Z eqn:E; [| reflexivity].
    apply Z.eqb_eq in E. contradiction. }
  rewrite Hr. rewrite Hidle in Htim. rewrite Htim. cbn.
  repeat split; try reflexivity; lia.
Qed.

Lemma weapon_reload_witness :
  Weapon.ammoOk (Weapon.mk 30 600 30 2000 12 7 false 0 0 100 0)
  /\ Weapon.reloadTimeout (Weapon.reload 500 (Weapon.mk 30 600 30 2000 12 7 false 0 0 100 0))
     = Weapon.mk 30 600 30 2000 19 0 false 0 500 100 0
  /\ Weapon.currentAmmo
       (Weapon.reloadTimeout (Weapon.reload 500 (Weapon.mk 30 600 30 2000 12 7 false 0 0 100 0)))
     = Z.min 30 (12 + 7).
Proof.
  assert (Hok : Weapon.ammoOk (Weapon.mk 30 600 30 2000 12 7 false 0 0 100 0))
    by (unfold Weapon.ammoOk; cbn; repeat split; lia).
  split; [exact Hok |]. split; [reflexivity |].
  apply (weapon_reload_fills_magazine_from_reserve
           (Weapon.mk 30 600 30 2000 12 7 false 0 0 100 0) 500 Hok eq_refl).
  cbn. lia.
Defined.

(** X18: a shot leaves the weapon only when it is not reloading, the
    magazine is not empty and [timeBetweenShots] has passed since the last
    shot; it takes one round and records its time, and after it no shot is
    fired before [timeBetweenShots] has passed again: a refused [fire]
    returns null and changes nothing. *)
Theorem weapon_fire_is_rate_limited
    (A : Type) (w : Weapon.t) (now fired : Q) (shot : A) :
  fst (Weapon.fire now fired shot w) = Some shot ->
  Weapon.isReloading w = false
  /\ (0 < Weapon.currentAmmo w)%Z
  /\ Weapon.timeBetweenShots w <= now - Weapon.lastFireTime w
  /\ Weapon.currentAmmo (snd (Weapon.fire now fired shot w)) = (Weapon.currentAmmo w - 1)%Z
  /\ Weapon.reserveAmmo (snd (Weapon.fire now fired shot w)) = Weapon.reserveAmmo w
  /\ Weapon.lastFireTime (snd (Weapon.fire now fired shot w)) = fired
  /\ (forall (later after : Q) (next : A),
        later - fired < Weapon.timeBetweenShots w ->
        Weapon.fire later after next (snd (Weapon.fire now fired shot w))
        = (None, snd (Weapon.fire now fired shot w))).
Proof.
  unfold Weapon.fire.
  destruct (Weapon.canFire now w) eqn:Hcan; cbn; [| discriminate].
  intros _. unfold Weapon.canFire in Hcan.
  apply andb_true_iff in Hcan. destruct Hcan as [Hcan Htime].
  apply andb_true_iff in Hcan. destruct Hcan as [Hidle Hammo].
  apply negb_true_iff in Hidle. apply Z.ltb_lt in Hammo. apply ge_true in Htime.
  repeat split; try assumption; try reflexivity.
  intros later after next Hsoon.
  unfold Weapon.canFire. cbn.
  assert (Hno : JsMath.ge (later - fired) (Weapon.timeBetweenShots w) = false).
  { destruct (JsMath.ge _ _) eqn:E; [| reflexivity]. apply ge_true in E. lra. }
  rewrite Hno, andb_false_r. reflexivity.
Qed.

Lemma weapon_fire_witness :
  fst (Weapon.fire 1000 1001 tt (Weapon.mk 30 600 30 2000 12 7 false 0 0 100 0)) = Some tt
  /\ Weapon.fire 1050 1051 tt
       (snd (Weapon.fire 1000 1001 tt (Weapon.mk 30 600 30 2000 12 7 false 0 0 100 0)))
     = (None, snd (Weapon.fire 1000 1001 tt (Weapon.mk 30 600 30 2000 12 7 false 0 0 100 0))).
Proof.
  assert (Hf : fst (Weapon.fire 1000 1001 tt (Weapon.mk 30 600 30 2000 12 7 false 0 0 100 0))
               = Some tt) by reflexivity.
  split; [exact Hf |].
  destruct (weapon_fire_is_rate_limited unit (Weapon.mk 30 600 30 2000 12 7 false 0 0 100 0)
              1000 1001 tt Hf) as (_ & _ & _ & _ & _ & _ & Hlimit).
  apply Hlimit. reflexivity.
Defined.

(** ** The projectile *)

Lemma projectile_handle_hitsOnce (ev : Projectile.Event) (p : Projectile.t) :
  Projectile.hitsOnce p ->
  Projectile.hitsOnce (Projectile.handle ev p)
  /\ Projectile.damage (Projectile.handle ev p) = Projectile.damage p
  /\ Projectile.owner (Projectile.handle ev p) = Projectile.owner p
  /\ (Projectile.isActive p = false -> Projectile.isActive (Projectile.handle ev p) = false)
  /\ (Projectile.isActive p = false ->
      Projectile.meshPosition (Projectile.handle ev p) = Projectile.meshPosition p).
Proof.
  unfold Projectile.hitsOnce. intros [Hem Hhit].
  destruct ev as [now | position | hitObject]; cbn.
  - unfold Projectile.update.
    destruct (Projectile.isActive p) eqn:Ha; cbn.
    + destruct (JsMath.gt _ _); cbn; rewrite ?Ha;
        (split; [split; [exact Hem | intros Hh; specialize (Hhit Hh); congruence] |]);
        repeat split; try reflexivity; discriminate.
    + rewrite Ha. repeat split; try reflexivity; tauto.
  - repeat split; try reflexivity; tauto.
  - unfold Projectile.onCollision.
    destruct (Projectile.hasHit p) eqn:Hh.
    + rewrite Hh. repeat split; try reflexivity; tauto.
    + assert (Hnone : Projectile.emitted p = []).
      { destruct Hem as [Hnil | [e (_ & _ & _ & Hcontra)]]; [exact Hnil | discriminate]. }
      destruct hitObject as [o |]; cbn.
      * destruct (decide (Projectile.hit_type o = "player"%string)); cbn.
        -- destruct (decide (Projectile.hit_playerId o <> Projectile.owner p)); cbn.
           ++ rewrite Hnone. cbn. repeat split; try reflexivity.
              right. eexists. split; [reflexivity |]. split; [reflexivity |]. split; [assumption | reflexivity].
           ++ rewrite Hnone. repeat split; try reflexivity. left. reflexivity.
        -- rewrite Hnone. repeat split; try reflexivity. left. reflexivity.
      * rewrite Hnone. repeat split; try reflexivity. left. reflexivity.
Qed.

Lemma projectile_play_hitsOnce (events : list Projectile.Event) :
  forall p : Projectile.t,
    Projectile.hitsOnce p ->
    Projectile.hitsOnce (Projectile.play events p)
    /\ Projectile.damage (Projectile.play events p) = Projectile.damage p
    /\ Projectile.owner (Projectile.play events p) = Projectile.owner p
    /\ (Projectile.isActive p = false ->
        Projectile.isActive (Projectile.play events p) = false
        /\ Projectile.meshPosition (Projectile.play events p) = Projectile.meshPosition p).
Proof.
  induction events as [| ev rest IH]; intros p Hok.
  - cbn. tauto.
  - change (Projectile.play (ev :: rest) p) with (Projectile.play rest (Projectile.handle ev p)).
    destruct (projectile_handle_hitsOnce ev p Hok) as (Hok1 & Hd1 & Ho1 & Ha1 & Hm1).
    destruct (IH (Projectile.handle ev p) Hok1) as (Hok2 & Hd2 & Ho2 & Ha2).
    split; [exact Hok2 |]. split; [congruence |]. split; [congruence |].
    intros Hin. destruct (Ha2 (Ha1 Hin)) as [Hi Hm]. split; [exact Hi |].
    rewrite Hm. exact (Hm1 Hin).
Qed.

(** X19: whatever updates, moves and collisions a projectile goes through
    after it is created, it emits at most one [playerDamaged] event; that
    event carries the configured damage and a player other than the owner,
    and once a collision is recorded the projectile is inactive. *)
Theorem projectile_damages_at_most_one_other_player
    (config : Projectile.Config) (created : Q) (events : list Projectile.Event) :
  (Projectile.emitted (Projectile.play events (Projectile.constructor config created)) = []
   \/ exists e,
        Projectile.emitted (Projectile.play events (Projectile.constructor config created)) = [e]
        /\ Projectile.dmg_damage e = Projectile.cfg_damage config
        /\ Projectile.dmg_playerId e <> Projectile.cfg_owner config)
  /\ (Projectile.hasHit (Projectile.play events (Projectile.constructor config created)) = true ->
      Projectile.isActive (Projectile.play events (Projectile.constructor config created)) = false).
Proof.
  assert (Hok : Projectile.hitsOnce (Projectile.constructor config created)).
  { split; [left; reflexivity | discriminate]. }
  destruct (projectile_play_hitsOnce events _ Hok) as ([Hem Hhit] & Hd & Ho & _).
  cbn in Hd, Ho. split; [| exact Hhit].
  destruct Hem as [Hnil | [e (He & Hdmg & Hpl & _)]]; [left; exact Hnil |].
  right. exists e. rewrite Hd in Hdmg. rewrite Ho in Hpl. tauto.
Qed.

(** X20: a projectile lives [maxLifetime] seconds, 5 when the configuration
    gives none or zero: an update later than that deactivates it, and an
    inactive projectile is never active again nor does its mesh move; but
    deactivation does not silence the collision handler: a first collision
    with another player after the lifetime still emits the damage event. *)
Theorem projectile_expires_but_still_collides
    (config : Projectile.Config) (created now : Q) (victim : string)
    (events : list Projectile.Event) :
  Projectile.lifetimeOrDefault (Projectile.cfg_maxLifetime config) < (now - created) / 1000 ->
  victim <> Projectile.cfg_owner config ->
  Projectile.isActive (Projectile.update now (Projectile.constructor config created)) = false
  /\ Projectile.isActive
       (Projectile.play events (Projectile.update now (Projectile.constructor config created)))
     = false
  /\ Projectile.meshPosition
       (Projectile.play events (Projectile.update now (Projectile.constructor config created)))
     = Projectile.cfg_position config
  /\ Projectile.emitted
       (Projectile.onCollision
          (Some {| Projectile.hit_type := "player"; Projectile.hit_playerId := victim |})
          (Projectile.update now (Projectile.constructor config created)))
     = [{| Projectile.dmg_damage := Projectile.cfg_damage config;
           Projectile.dmg_playerId := victim;
           Projectile.dmg_point := Projectile.cfg_position config |}].
Proof.
  intros Hold Hother.
  assert (Hu : Projectile.update now (Projectile.constructor config created)
               = Projectile.destroy (Projectile.constructor config created)).
  { unfold Projectile.update. cbn.
    assert (Hgt : JsMath.gt ((now - created) / 1000)
                    (Projectile.lifetimeOrDefault (Projectile.cfg_maxLifetime config)) = true)
      by (apply gt_true; exact Hold).
    rewrite Hgt. reflexivity. }
  rewrite Hu.
  assert (Hok : Projectile.hitsOnce (Projectile.destroy (Projectile.constructor config created))).
  { split; [left; reflexivity | reflexivity]. }
  destruct (projectile_play_hitsOnce events _ Hok) as (_ & _ & _ & Hin).
  destruct (Hin eq_refl) as [Hi Hm].
  split; [reflexivity |]. split; [exact Hi |]. split; [exact Hm |].
  unfold Projectile.onCollision. cbn.
  destruct (decide (victim <> Projectile.cfg_owner config)) as [_ | Hn]; [reflexivity | contradiction].
Qed.

Lemma projectile_expires_witness :
  Projectile.lifetimeOrDefault (Some 0) < (6000 - 0) / 1000
  /\ Projectile.lifetimeOrDefault (Some 0) = 5
  /\ Projectile.emitted
       (Projectile.onCollision
          (Some {| Projectile.hit_type := "player"; Projectile.hit_playerId := "p2" |})
          (Projectile.update 6000
             (Projectile.constructor
                {| Projectile.cfg_position := Vector3.mk 0 1 0;
                   Projectile.cfg_direction := Vector3.mk 0 0 (-1);
                   Projectile.cfg_speed := 100; Projectile.cfg_damage := 40;
                   Projectile.cfg_gravity := 0; Projectile.cfg_owner := "p1";
                   Projectile.cfg_maxLifetime := Some 0 |} 0)))
     = [{| Projectile.dmg_damage := 40; Projectile.dmg_playerId := "p2";
           Projectile.dmg_point := Vector3.mk 0 1 0 |}].
Proof.
  split; [reflexivity |]. split; [reflexivity |].
  apply (projectile_expires_but_still_collides
           {| Projectile.cfg_position := Vector3.mk 0 1 0;
              Projectile.cfg_direction := Vector3.mk 0 0 (-1);
              Projectile.cfg_speed := 100; Projectile.cfg_damage := 40;
              Projectile.cfg_gravity := 0; Projectile.cfg_owner := "p1";
              Projectile.cfg_maxLifetime := Some 0 |} 0 6000 "p2"%string []).
  - reflexivity.
  - discriminate.
Defined.

(** ** The scene manager *)

Section SceneManagerFacts.

Context {Data : Type}.

Implicit Types (m : SceneManager.t Data) (ev : SceneManager.Event Data).
Implicit Types (fault : option SceneManager.Fault).

Lemma sceneManager_createScene_exclusive fault m sceneName data :
  SceneManager.pending m = [] ->
  SceneManager.transitioning m = true ->
  (forall scene, SceneManager.currentScene m = Some scene -> (scene < SceneManager.instances m)%nat) ->
  SceneManager.exclusive (SceneManager.createScene fault sceneName data m)
  /\ (fault = None ->
      SceneManager.transitioning (SceneManager.createScene fault sceneName data m) = true ->
      SceneManager.pending (SceneManager.createScene fault sceneName data m) <> []).
Proof.
  intros Hp Ht Hc. unfold SceneManager.createScene, SceneManager.exclusive.
  destruct (SceneManager.scenes m !! sceneName) as [[cls |] |].
  - destruct (SceneManager.throwsAt fault SceneManager.constructor_throws) eqn:Hcon.
    + cbn. rewrite Hp. cbn. split.
      * split; [lia |]. split; [congruence |].
        split; [intros ? ? Hin; inversion Hin |].
        intros scene Hs. specialize (Hc scene Hs). lia.
      * intros ->. discriminate Hcon.
    + destruct (SceneManager.throwsAt fault SceneManager.onEnter_throws) eqn:Hent.
      * cbn. rewrite Hp. cbn. split.
        -- split; [lia |]. split; [congruence |].
           split; [intros ? ? Hin; inversion Hin |].
           intros scene [= <-]. lia.
        -- intros ->. discriminate Hent.
      * cbn. rewrite Hp. cbn. split; [| discriminate].
        split; [lia |]. split; [intros _; exact Ht |].
        split; [intros ? ? Hin; apply list_elem_of_singleton in Hin; discriminate |].
        intros scene [= <-]. lia.
  - cbn. rewrite Hp. split; [| intros _ Hf; discriminate Hf].
    split; [cbn; lia |]. split; [congruence |].
    split; [intros ? ? Hin; inversion Hin | exact Hc].
  - cbn. rewrite Hp. split; [| intros _ Hf; discriminate Hf].
    split; [cbn; lia |]. split; [congruence |].
    split; [intros ? ? Hin; inversion Hin | exact Hc].
Qed.

Lemma sceneManager_switchSceneWith_exclusive fault sceneName data m :
  SceneManager.exclusive m ->
  SceneManager.exclusive (SceneManager.switchSceneWith fault sceneName data m)
  /\ (fault = None ->
      (SceneManager.transitioning m = true -> SceneManager.pending m <> []) ->
      SceneManager.transitioning (SceneManager.switchSceneWith fault sceneName data m) = true ->
      SceneManager.pending (SceneManager.switchSceneWith fault sceneName data m) <> []).
Proof.
  intros Hex. pose proof Hex as (Hlen & Hflag & Hexit & Hfresh).
  unfold SceneManager.switchSceneWith.
  destruct (SceneManager.transitioning m) eqn:Ht.
  - split; [exact Hex |]. intros _ Hlive _. apply Hlive. reflexivity.
  - assert (Hp : SceneManager.pending m = []).
    { destruct (SceneManager.pending m) as [| p rest] eqn:Hp; [reflexivity |].
      assert (false = true) by (apply Hflag; discriminate). discriminate. }
    cbn. destruct (SceneManager.currentScene m) as [scene |] eqn:Hc.
    + destruct (SceneManager.throwsAt fault SceneManager.onExit_throws) eqn:Hthrow.
      * unfold SceneManager.exclusive. cbn. rewrite ?Hp, ?Hc. split.
        -- split; [cbn; lia |]. split; [reflexivity |].
           split; [discriminate | exact Hfresh].
        -- intros ->. discriminate Hthrow.
      * unfold SceneManager.exclusive. cbn. rewrite ?Hp, ?Hc. cbn. split; [| discriminate].
        split; [lia |]. split; [reflexivity |].
        split; [discriminate | exact Hfresh].
    + destruct (sceneManager_createScene_exclusive fault
                  (SceneManager.withTransitioning true m) sceneName data) as [Hex' Hlive'].
      * exact Hp.
      * reflexivity.
      * cbn. rewrite Hc. discriminate.
      * split; [exact Hex' | intros Hnone _; exact (Hlive' Hnone)].
Qed.

Lemma sceneManager_resumeWith_exclusive fault (i : nat) (outcome : SceneManager.Outcome) m :
  SceneManager.exclusive m ->
  SceneManager.exclusive (SceneManager.resumeWith fault i outcome m)
  /\ (fault = None -> outcome = SceneManager.fulfilled ->
      (SceneManager.transitioning m = true -> SceneManager.pending m <> []) ->
      SceneManager.transitioning (SceneManager.resumeWith fault i outcome m) = true ->
      SceneManager.pending (SceneManager.resumeWith fault i outcome m) <> []).
Proof.
  intros Hex. pose proof Hex as (Hlen & Hflag & Hexit & Hfresh).
  unfold SceneManager.resumeWith.
  destruct (SceneManager.pending m) as [| p rest] eqn:Hp.
  - destruct i; cbn;
      (split; [exact Hex | intros _ _ Hlive Htr; rewrite ?Hp; exact (Hlive Htr)]).
  - assert (Hrest : rest = []) by (destruct rest; [reflexivity | cbn in Hlen; lia]).
    subst rest.
    assert (Ht : SceneManager.transitioning m = true) by (apply Hflag; discriminate).
    destruct i as [| i]; cbn.
    + destruct outcome.
      * destruct p as [sceneName data |].
        -- destruct (SceneManager.currentScene m) as [scene |] eqn:Hc.
           ++ destruct (SceneManager.throwsAt fault SceneManager.cleanup_throws) eqn:Hthrow.
              ** unfold SceneManager.exclusive. cbn. rewrite ?Hc. split.
                 --- split; [lia |]. split; [congruence |].
                     split; [intros ? ? Hin; inversion Hin | exact Hfresh].
                 --- intros ->. discriminate Hthrow.
              ** destruct (sceneManager_createScene_exclusive fault
                             (SceneManager.log [SceneManager.scene_cleanup scene]
                                (SceneManager.mk (SceneManager.scenes m) (Some scene)
                                   (SceneManager.transitioning m) (SceneManager.instances m)
                                   [] (SceneManager.calls m)))
                             sceneName data) as [Hex' Hlive'].
                 --- reflexivity.
                 --- exact Ht.
                 --- cbn. intros s [= <-]. exact (Hfresh scene eq_refl).
                 --- split; [exact Hex' | intros Hnone _ _; exact (Hlive' Hnone)].
           ++ exfalso. apply (Hexit sceneName data); [left | reflexivity].
        -- split; [| cbn; intros _ _ _ Hf; discriminate Hf].
           unfold SceneManager.exclusive. cbn.
           split; [lia |]. split; [congruence |].
           split; [intros ? ? Hin; inversion Hin | exact Hfresh].
      * split; [| intros _ Hf; discriminate Hf].
        unfold SceneManager.exclusive. cbn.
        split; [lia |]. split; [congruence |].
        split; [intros ? ? Hin; inversion Hin | exact Hfresh].
    + destruct i; cbn;
        (split; [exact Hex | intros _ _ Hlive Htr; rewrite ?Hp; exact (Hlive Htr)]).
Qed.

Lemma sceneManager_handle_exclusive ev m :
  SceneManager.exclusive m ->
  SceneManager.exclusive (SceneManager.handle ev m)
  /\ (SceneManager.fails ev = false ->
      (SceneManager.transitioning m = true -> SceneManager.pending m <> []) ->
      SceneManager.transitioning (SceneManager.handle ev m) = true ->
      SceneManager.pending (SceneManager.handle ev m) <> []).
Proof.
  intros Hex. pose proof Hex as (Hlen & Hflag & Hexit & Hfresh).
  destruct ev as [name cls | sceneName data | i outcome | deltaTime |
                  | thrown sceneName data | thrown i]; cbn [SceneManager.handle].
  - split; [| intros _ Hlive; exact Hlive]. repeat split; assumption.
  - destruct (sceneManager_switchSceneWith_exclusive None sceneName data m Hex) as [A B].
    split; [exact A | intros _; exact (B eq_refl)].
  - destruct (sceneManager_resumeWith_exclusive None i outcome m Hex) as [A B].
    split; [exact A |]. intros Hok. apply B; [reflexivity |].
    destruct outcome; [reflexivity | discriminate Hok].
  - unfold SceneManager.update.
    destruct (SceneManager.currentScene m) as [scene |] eqn:Hc;
      [| split; [exact Hex | intros _ Hlive Htr; exact (Hlive Htr)]].
    destruct (negb (SceneManager.transitioning m));
      (split; [| intros _ Hlive Htr; exact (Hlive Htr)]); [| exact Hex].
    unfold SceneManager.exclusive. cbn. rewrite ?Hc. repeat split; assumption.
  - unfold SceneManager.render.
    destruct (SceneManager.currentScene m) as [scene |] eqn:Hc;
      [| split; [exact Hex | intros _ Hlive Htr; exact (Hlive Htr)]].
    split; [| intros _ Hlive Htr; exact (Hlive Htr)].
    unfold SceneManager.exclusive. cbn. rewrite ?Hc. repeat split; assumption.
  - destruct (sceneManager_switchSceneWith_exclusive (Some thrown) sceneName data m Hex)
      as [A _].
    split; [exact A | intros Hf; discriminate Hf].
  - destruct (sceneManager_resumeWith_exclusive (Some thrown) i SceneManager.fulfilled m Hex)
      as [A _].
    split; [exact A | intros Hf; discriminate Hf].
Qed.

Lemma sceneManager_play_exclusive (events : list (SceneManager.Event Data)) :
  forall m,
    SceneManager.exclusive m ->
    SceneManager.exclusive (SceneManager.play events m)
    /\ (forallb (fun ev => negb (SceneManager.fails ev)) events = true ->
        (SceneManager.transitioning m = true -> SceneManager.pending m <> []) ->
        SceneManager.transitioning (SceneManager.play events m) = true ->
        SceneManager.pending (SceneManager.play events m) <> []).
Proof.
  induction events as [| ev rest IH]; intros m Hex.
  - cbn. split; [exact Hex | intros _ Hlive; exact Hlive].
  - change (SceneManager.play (ev :: rest) m)
      with (SceneManager.play rest (SceneManager.handle ev m)).
    destruct (sceneManager_handle_exclusive ev m Hex) as [Hex1 Hlive1].
    destruct (IH _ Hex1) as [Hex2 Hlive2].
    split; [exact Hex2 |].
    cbn. intros Hall Hlive. apply andb_prop in Hall as [Hev Hrest].
    apply Hlive2; [exact Hrest |].
    apply Hlive1; [| exact Hlive]. destruct (SceneManager.fails ev); [discriminate | reflexivity].
Qed.

Lemma sceneManager_play_app (first second : list (SceneManager.Event Data)) m :
  SceneManager.play (first ++ second) m
  = SceneManager.play second (SceneManager.play first m).
Proof. unfold SceneManager.play. apply foldl_app. Qed.

Lemma sceneManager_frames_while_transitioning (frames : list (SceneManager.Event Data)) :
  forall m scene,
    forallb SceneManager.isFrame frames = true ->
    SceneManager.transitioning m = true ->
    SceneManager.currentScene m = Some scene ->
    SceneManager.play frames m
    = SceneManager.log (SceneManager.renders scene frames) m.
Proof.
  induction frames as [| ev rest IH]; intros m scene Hall Ht Hc.
  - cbn. unfold SceneManager.log. rewrite app_nil_r. destruct m; reflexivity.
  - cbn in Hall. apply andb_prop in Hall as [Hev Hrest].
    change (SceneManager.play (ev :: rest) m)
      with (SceneManager.play rest (SceneManager.handle ev m)).
    destruct ev as [| | | deltaTime | | |]; try discriminate; cbn.
    + unfold SceneManager.update. rewrite Hc, Ht. cbn. apply IH; assumption.
    + unfold SceneManager.render. rewrite Hc.
      rewrite (IH _ scene Hrest); [| exact Ht | exact Hc].
      unfold SceneManager.log. cbn. rewrite <- app_assoc. reflexivity.
Qed.

(** A manager whose flag is set with no switch suspended stays so: every
    switch request returns at the guard, nothing can be resumed, the scene
    is never updated, only rendered. *)
Lemma sceneManager_blocked_for_good (events : list (SceneManager.Event Data)) :
  forall m,
    SceneManager.transitioning m = true ->
    SceneManager.pending m = [] ->
    SceneManager.transitioning (SceneManager.play events m) = true
    /\ SceneManager.pending (SceneManager.play events m) = []
    /\ SceneManager.currentScene (SceneManager.play events m) = SceneManager.currentScene m
    /\ exists frames : list (SceneManager.Event Data),
         SceneManager.calls (SceneManager.play events m)
         = SceneManager.calls m
           ++ match SceneManager.currentScene m with
              | Some scene => SceneManager.renders scene frames
              | None => []
              end.
Proof.
  induction events as [| ev rest IH]; intros m Ht Hp.
  - cbn. repeat split; try assumption. exists [].
    destruct (SceneManager.currentScene m); cbn; rewrite app_nil_r; reflexivity.
  - change (SceneManager.play (ev :: rest) m)
      with (SceneManager.play rest (SceneManager.handle ev m)).
    assert (Hsame : forall m', m' = m -> 
              SceneManager.transitioning (SceneManager.play rest m') = true
              /\ SceneManager.pending (SceneManager.play rest m') = []
              /\ SceneManager.currentScene (SceneManager.play rest m')
                 = SceneManager.currentScene m
              /\ exists frames : list (SceneManager.Event Data),
                   SceneManager.calls (SceneManager.play rest m')
                   = SceneManager.calls m
                     ++ match SceneManager.currentScene m with
                        | Some scene => SceneManager.renders scene frames
                        | None => []
                        end).
    { intros m' ->. apply IH; assumption. }
    destruct ev as [name cls | sceneName data | i outcome | deltaTime |
                    | thrown sceneName data | thrown i]; cbn [SceneManager.handle].
    + destruct (IH (SceneManager.registerScene name cls m) Ht Hp) as (A & B & C & D).
      repeat split; assumption.
    + apply Hsame. unfold SceneManager.switchScene, SceneManager.switchSceneWith.
      rewrite Ht. reflexivity.
    + apply Hsame. unfold SceneManager.resume, SceneManager.resumeWith.
      rewrite Hp. destruct i; reflexivity.
    + apply Hsame. unfold SceneManager.update. rewrite Ht.
      destruct (SceneManager.currentScene m); reflexivity.
    + destruct (SceneManager.currentScene m) as [scene |] eqn:Hc.
      * assert (Hr : SceneManager.render m
                     = SceneManager.log [SceneManager.scene_render scene] m)
          by (unfold SceneManager.render; rewrite Hc; reflexivity).
        rewrite Hr.
        destruct (IH (SceneManager.log [SceneManager.scene_render scene] m) Ht Hp)
          as (A & B & C & [frames D]).
        cbn in C, D. rewrite Hc in C, D.
        split; [exact A |]. split; [exact B |]. split; [exact C |].
        exists (SceneManager.Render :: frames). rewrite D. cbn.
        rewrite <- app_assoc. reflexivity.
      * assert (Hr : SceneManager.render m = m)
          by (unfold SceneManager.render; rewrite Hc; reflexivity).
        rewrite Hr. destruct (IH m Ht Hp) as (A & B & C & [frames D]).
        rewrite Hc in C, D.
        split; [exact A |]. split; [exact B |]. split; [exact C |].
        exists frames. exact D.
    + apply Hsame. unfold SceneManager.switchSceneWith. rewrite Ht. reflexivity.
    + apply Hsame. unfold SceneManager.resumeWith. rewrite Hp. destruct i; reflexivity.
Qed.

(** X21: the guard of [switchScene] keeps transitions exclusive.  After any
    sequence of registrations, switch requests, settled hooks, frames and
    runs in which scene code throws, at most one switch is suspended, and a
    suspended switch has the flag set; and as long as no hook rejects and
    no scene code throws, the flag is set only while a switch is suspended,
    so that the manager cannot stay blocked. *)
Theorem sceneManager_transitions_are_exclusive (events : list (SceneManager.Event Data)) :
  (length (SceneManager.pending (SceneManager.play events SceneManager.constructor)) <= 1)%nat
  /\ (SceneManager.pending (SceneManager.play events SceneManager.constructor) <> [] ->
      SceneManager.transitioning (SceneManager.play events SceneManager.constructor) = true)
  /\ (forallb (fun ev => negb (SceneManager.fails ev)) events = true ->
      SceneManager.transitioning (SceneManager.play events SceneManager.constructor) = true ->
      SceneManager.pending (SceneManager.play events SceneManager.constructor) <> []).
Proof.
  assert (Hex : SceneManager.exclusive (@SceneManager.constructor Data)).
  { unfold SceneManager.exclusive. cbn. split; [lia |]. split; [congruence |].
    split; [intros ? ? Hin; inversion Hin | discriminate]. }
  destruct (sceneManager_play_exclusive events _ Hex) as [(Hlen & Hflag & _) Hlive].
  split; [exact Hlen |]. split; [exact Hflag |].
  intros Hall. apply Hlive; [exact Hall | discriminate].
Qed.

(** X22: a rejected hook blocks the manager for good.  When the hook that
    the one suspended switch awaits rejects, the flag stays set: whatever
    happens afterwards, no switch request does anything, the current scene
    never changes and is never updated again; it is only rendered. *)
Theorem sceneManager_rejected_hook_blocks
    m (p : SceneManager.Pending Data) (events : list (SceneManager.Event Data)) :
  SceneManager.pending m = [p] ->
  SceneManager.transitioning m = true ->
  SceneManager.transitioning
    (SceneManager.play events (SceneManager.resume 0 SceneManager.rejected m)) = true
  /\ SceneManager.pending
       (SceneManager.play events (SceneManager.resume 0 SceneManager.rejected m)) = []
  /\ SceneManager.currentScene
       (SceneManager.play events (SceneManager.resume 0 SceneManager.rejected m))
     = SceneManager.currentScene m
  /\ exists frames : list (SceneManager.Event Data),
       SceneManager.calls
         (SceneManager.play events (SceneManager.resume 0 SceneManager.rejected m))
       = SceneManager.calls m
         ++ match SceneManager.currentScene m with
            | Some scene => SceneManager.renders scene frames
            | None => []
            end.
Proof.
  intros Hp Ht. unfold SceneManager.resume, SceneManager.resumeWith. rewrite Hp. cbn.
  apply (sceneManager_blocked_for_good events
           (SceneManager.mk (SceneManager.scenes m) (SceneManager.currentScene m)
              (SceneManager.transitioning m) (SceneManager.instances m) []
              (SceneManager.calls m))); [exact Ht | reflexivity].
Qed.

(** X23: a switch to a name that is not registered tears the current scene
    down and keeps it: the scene gets [onExit] and [cleanup], the error is
    reported, and the manager is idle again with the cleaned-up scene still
    current, so the next frame updates it. *)
Theorem sceneManager_unknown_scene_keeps_cleaned_up_scene
    m (scene : nat) (sceneName : string) (data : Data) (deltaTime : Q) :
  SceneManager.idle m ->
  SceneManager.currentScene m = Some scene ->
  SceneManager.scenes m !! sceneName = None \/ SceneManager.scenes m !! sceneName = Some None ->
  SceneManager.idle
    (SceneManager.resume 0 SceneManager.fulfilled (SceneManager.switchScene sceneName data m))
  /\ SceneManager.currentScene
       (SceneManager.resume 0 SceneManager.fulfilled (SceneManager.switchScene sceneName data m))
     = Some scene
  /\ SceneManager.calls
       (SceneManager.update deltaTime
          (SceneManager.resume 0 SceneManager.fulfilled
             (SceneManager.switchScene sceneName data m)))
     = SceneManager.calls m
       ++ [SceneManager.scene_onExit scene; SceneManager.scene_cleanup scene;
           SceneManager.console_error sceneName; SceneManager.scene_update scene deltaTime].
Proof.
  intros [Ht Hp] Hc Hmissing.
  unfold SceneManager.switchScene, SceneManager.switchSceneWith. rewrite Ht. cbn. rewrite Hc.
  unfold SceneManager.resume, SceneManager.resumeWith. cbn. rewrite Hp. cbn. rewrite ?Hc.
  unfold SceneManager.createScene. cbn.
  assert (Hlook : match SceneManager.scenes m !! sceneName with
                  | Some (Some _) => False
                  | _ => True
                  end).
  { destruct Hmissing as [-> | ->]; exact I. }
  destruct (SceneManager.scenes m !! sceneName) as [[cls |] |]; try contradiction;
    cbn; rewrite ?Hc; (split; [split; reflexivity |]); (split; [reflexivity |]);
    unfold SceneManager.update; cbn; rewrite ?Hc; cbn; rewrite <- !app_assoc; reflexivity.
Qed.

(** X24: a switch to a registered scene, with frames running while its two
    hooks are awaited.  The old scene gets [onExit] and then [cleanup], a
    new scene object is constructed with the data and gets [onEnter]; no
    frame in between updates any scene, but the frames still render: the old
    scene while its [onExit] is awaited, and the new one before its
    [onEnter] has finished.  Afterwards the manager is idle on the new
    scene. *)
Theorem sceneManager_switch_renders_but_does_not_update
    m (scene SceneClass : nat) (sceneName : string) (data : Data)
    (exiting entering : list (SceneManager.Event Data)) :
  SceneManager.idle m ->
  SceneManager.currentScene m = Some scene ->
  SceneManager.scenes m !! sceneName = Some (Some SceneClass) ->
  forallb SceneManager.isFrame exiting = true ->
  forallb SceneManager.isFrame entering = true ->
  SceneManager.idle
    (SceneManager.play
       ([SceneManager.Switch sceneName data] ++ exiting
        ++ [SceneManager.Resume 0 SceneManager.fulfilled] ++ entering
        ++ [SceneManager.Resume 0 SceneManager.fulfilled]) m)
  /\ SceneManager.currentScene
       (SceneManager.play
          ([SceneManager.Switch sceneName data] ++ exiting
           ++ [SceneManager.Resume 0 SceneManager.fulfilled] ++ entering
           ++ [SceneManager.Resume 0 SceneManager.fulfilled]) m)
     = Some (SceneManager.instances m)
  /\ SceneManager.calls
       (SceneManager.play
          ([SceneManager.Switch sceneName data] ++ exiting
           ++ [SceneManager.Resume 0 SceneManager.fulfilled] ++ entering
           ++ [SceneManager.Resume 0 SceneManager.fulfilled]) m)
     = SceneManager.calls m
       ++ [SceneManager.scene_onExit scene]
       ++ SceneManager.renders scene exiting
       ++ [SceneManager.scene_cleanup scene;
           SceneManager.scene_new SceneClass data (SceneManager.instances m);
           SceneManager.scene_onEnter (SceneManager.instances m)]
       ++ SceneManager.renders (SceneManager.instances m) entering.
Proof.
  intros [Ht Hp] Hc Hreg Hexiting Hentering.
  rewrite !sceneManager_play_app.
  change (SceneManager.play [SceneManager.Switch sceneName data] m)
    with (SceneManager.switchScene sceneName data m).
  assert (Hfirst : SceneManager.switchScene sceneName data m
                   = SceneManager.mk (SceneManager.scenes m) (Some scene) true
                       (SceneManager.instances m)
                       [SceneManager.AwaitingExit sceneName data]
                       (SceneManager.calls m ++ [SceneManager.scene_onExit scene])).
  { unfold SceneManager.switchScene, SceneManager.switchSceneWith. rewrite Ht. cbn. rewrite Hc.
    unfold SceneManager.suspend. cbn. rewrite Hp, Hc. reflexivity. }
  rewrite Hfirst.
  rewrite (sceneManager_frames_while_transitioning exiting _ scene Hexiting);
    [| reflexivity | reflexivity].
  match goal with
  | |- context [SceneManager.play [SceneManager.Resume 0 SceneManager.fulfilled] ?x] =>
      change (SceneManager.play [SceneManager.Resume 0 SceneManager.fulfilled] x)
        with (SceneManager.resume 0 SceneManager.fulfilled x)
  end.
  unfold SceneManager.resume at 2. unfold SceneManager.resumeWith at 1. cbn.
  unfold SceneManager.createScene. cbn. rewrite Hreg. cbn.
  rewrite (sceneManager_frames_while_transitioning entering _ (SceneManager.instances m)
             Hentering); [| reflexivity | reflexivity].
  unfold SceneManager.resume, SceneManager.resumeWith. cbn.
  split; [split; reflexivity |]. split; [reflexivity |].
  rewrite <- !app_assoc. reflexivity.
Qed.

(** X28: scene code that throws blocks the manager like a rejected hook.
    When, in the continuation after [onExit], [cleanup()] throws, or the
    constructor of the registered class throws, the flag stays set with no
    switch suspended: whatever happens afterwards, the old scene stays
    current, it is only rendered, and no later switch request does
    anything.  The calls made are [onExit] and [cleanup], and the
    construction when it is reached. *)
Theorem sceneManager_throwing_scene_code_blocks
    m (scene SceneClass : nat) (sceneName : string) (data : Data)
    (events : list (SceneManager.Event Data)) :
  SceneManager.idle m ->
  SceneManager.currentScene m = Some scene ->
  SceneManager.scenes m !! sceneName = Some (Some SceneClass) ->
  (SceneManager.transitioning
     (SceneManager.play events
        (SceneManager.resumeWith (Some SceneManager.cleanup_throws) 0 SceneManager.fulfilled
           (SceneManager.switchScene sceneName data m))) = true
   /\ SceneManager.pending
        (SceneManager.play events
           (SceneManager.resumeWith (Some SceneManager.cleanup_throws) 0 SceneManager.fulfilled
              (SceneManager.switchScene sceneName data m))) = []
   /\ SceneManager.currentScene
        (SceneManager.play events
           (SceneManager.resumeWith (Some SceneManager.cleanup_throws) 0 SceneManager.fulfilled
              (SceneManager.switchScene sceneName data m))) = Some scene
   /\ exists frames : list (SceneManager.Event Data),
        SceneManager.calls
          (SceneManager.play events
             (SceneManager.resumeWith (Some SceneManager.cleanup_throws) 0 SceneManager.fulfilled
                (SceneManager.switchScene sceneName data m)))
        = SceneManager.calls m
          ++ [SceneManager.scene_onExit scene; SceneManager.scene_cleanup scene]
          ++ SceneManager.renders scene frames)
  /\ (SceneManager.transitioning
        (SceneManager.play events
           (SceneManager.resumeWith (Some SceneManager.constructor_throws) 0
              SceneManager.fulfilled (SceneManager.switchScene sceneName data m))) = true
      /\ SceneManager.pending
           (SceneManager.play events
              (SceneManager.resumeWith (Some SceneManager.constructor_throws) 0
                 SceneManager.fulfilled (SceneManager.switchScene sceneName data m))) = []
      /\ SceneManager.currentScene
           (SceneManager.play events
              (SceneManager.resumeWith (Some SceneManager.constructor_throws) 0
                 SceneManager.fulfilled (SceneManager.switchScene sceneName data m)))
         = Some scene
      /\ exists frames : list (SceneManager.Event Data),
           SceneManager.calls
             (SceneManager.play events
                (SceneManager.resumeWith (Some SceneManager.constructor_throws) 0
                   SceneManager.fulfilled (SceneManager.switchScene sceneName data m)))
           = SceneManager.calls m
             ++ [SceneManager.scene_onExit scene; SceneManager.scene_cleanup scene;
                 SceneManager.scene_new SceneClass data (SceneManager.instances m)]
             ++ SceneManager.renders scene frames).
Proof.
  intros [Ht Hp] Hc Hreg.
  assert (Hfirst : SceneManager.switchScene sceneName data m
                   = SceneManager.mk (SceneManager.scenes m) (Some scene) true
                       (SceneManager.instances m)
                       [SceneManager.AwaitingExit sceneName data]
                       (SceneManager.calls m ++ [SceneManager.scene_onExit scene])).
  { unfold SceneManager.switchScene, SceneManager.switchSceneWith. rewrite Ht. cbn. rewrite Hc.
    unfold SceneManager.suspend. cbn. rewrite Hp, Hc. reflexivity. }
  rewrite Hfirst. unfold SceneManager.resumeWith. cbn.
  unfold SceneManager.createScene. cbn. rewrite Hreg. cbn.
  split.
  - match goal with
    | |- context [SceneManager.play events ?x] =>
        destruct (sceneManager_blocked_for_good events x eq_refl eq_refl)
          as (A & B & C & [frames D])
    end.
    cbn in C, D.
    split; [exact A |]. split; [exact B |]. split; [exact C |].
    exists frames. rewrite D, <- !app_assoc. reflexivity.
  - match goal with
    | |- context [SceneManager.play events ?x] =>
        destruct (sceneManager_blocked_for_good events x eq_refl eq_refl)
          as (A & B & C & [frames D])
    end.
    cbn in C, D.
    split; [exact A |]. split; [exact B |]. split; [exact C |].
    exists frames. rewrite D, <- !app_assoc. reflexivity.
Qed.

End SceneManagerFacts.

Lemma sceneManager_rejected_hook_witness :
  SceneManager.pending enteringMenu = [SceneManager.AwaitingEnter]
  /\ SceneManager.transitioning enteringMenu = true
  /\ SceneManager.calls
       (SceneManager.play
          [SceneManager.Switch "game" "{}"; SceneManager.Update (1 # 60); SceneManager.Render]
          (SceneManager.resume 0 SceneManager.rejected enteringMenu))
     = [SceneManager.scene_new 0 "{}" 0; SceneManager.scene_onEnter 0;
        SceneManager.scene_render 0]
  /\ SceneManager.transitioning
       (SceneManager.play
          [SceneManager.Switch "game" "{}"; SceneManager.Update (1 # 60); SceneManager.Render]
          (SceneManager.resume 0 SceneManager.rejected enteringMenu))
     = true.
Proof.
  assert (Hp : SceneManager.pending enteringMenu = [SceneManager.AwaitingEnter])
    by (vm_compute; reflexivity).
  assert (Ht : SceneManager.transitioning enteringMenu = true) by (vm_compute; reflexivity).
  split; [exact Hp |]. split; [exact Ht |]. split; [vm_compute; reflexivity |].
  destruct (sceneManager_rejected_hook_blocks enteringMenu SceneManager.AwaitingEnter
              [SceneManager.Switch "game" "{}"; SceneManager.Update (1 # 60);
               SceneManager.Render] Hp Ht) as (Hblocked & _).
  exact Hblocked.
Defined.

Lemma sceneManager_unknown_scene_witness :
  SceneManager.idle inMenu
  /\ SceneManager.currentScene inMenu = Some 0%nat
  /\ SceneManager.scenes inMenu !! "shop"%string = None
  /\ SceneManager.calls
       (SceneManager.update (1 # 60)
          (SceneManager.resume 0 SceneManager.fulfilled
             (SceneManager.switchScene "shop" "{}" inMenu)))
     = SceneManager.calls inMenu
       ++ [SceneManager.scene_onExit 0; SceneManager.scene_cleanup 0;
           SceneManager.console_error "shop"; SceneManager.scene_update 0 (1 # 60)].
Proof.
  assert (Hi : SceneManager.idle inMenu) by (split; vm_compute; reflexivity).
  assert (Hc : SceneManager.currentScene inMenu = Some 0%nat) by (vm_compute; reflexivity).
  assert (Hs : SceneManager.scenes inMenu !! "shop"%string = None) by (vm_compute; reflexivity).
  split; [exact Hi |]. split; [exact Hc |]. split; [exact Hs |].
  destruct (sceneManager_unknown_scene_keeps_cleaned_up_scene inMenu 0 "shop" "{}"%string
              (1 # 60) Hi Hc (or_introl Hs)) as (_ & _ & Hcalls).
  exact Hcalls.
Defined.

Lemma sceneManager_switch_witness :
  SceneManager.idle inMenu
  /\ SceneManager.currentScene inMenu = Some 0%nat
  /\ SceneManager.scenes inMenu !! "game"%string = Some (Some 1%nat)
  /\ SceneManager.calls
       (SceneManager.play
          ([SceneManager.Switch "game" "level1"]
           ++ [SceneManager.Update (1 # 60); SceneManager.Render]
           ++ [SceneManager.Resume 0 SceneManager.fulfilled]
           ++ [SceneManager.Render; SceneManager.Update (1 # 60)]
           ++ [SceneManager.Resume 0 SceneManager.fulfilled]) inMenu)
     = [SceneManager.scene_new 0 "{}" 0; SceneManager.scene_onEnter 0;
        SceneManager.scene_onExit 0; SceneManager.scene_render 0;
        SceneManager.scene_cleanup 0; SceneManager.scene_new 1 "level1" 1;
        SceneManager.scene_onEnter 1; SceneManager.scene_render 1]
  /\ SceneManager.currentScene
       (SceneManager.play
          ([SceneManager.Switch "game" "level1"]
           ++ [SceneManager.Update (1 # 60); SceneManager.Render]
           ++ [SceneManager.Resume 0 SceneManager.fulfilled]
           ++ [SceneManager.Render; SceneManager.Update (1 # 60)]
           ++ [SceneManager.Resume 0 SceneManager.fulfilled]) inMenu)
     = Some (SceneManager.instances inMenu).
Proof.
  assert (Hi : SceneManager.idle inMenu) by (split; vm_compute; reflexivity).
  assert (Hc : SceneManager.currentScene inMenu = Some 0%nat) by (vm_compute; reflexivity).
  assert (Hs : SceneManager.scenes inMenu !! "game"%string = Some (Some 1%nat))
    by (vm_compute; reflexivity).
  split; [exact Hi |]. split; [exact Hc |]. split; [exact Hs |].
  split; [vm_compute; reflexivity |].
  destruct (sceneManager_switch_renders_but_does_not_update inMenu 0 1 "game" "level1"%string
              [SceneManager.Update (1 # 60); SceneManager.Render]
              [SceneManager.Render; SceneManager.Update (1 # 60)]
              Hi Hc Hs eq_refl eq_refl) as (_ & Hcur & _).
  exact Hcur.
Defined.

Lemma sceneManager_throwing_scene_code_witness :
  SceneManager.idle inMenu
  /\ SceneManager.currentScene inMenu = Some 0%nat
  /\ SceneManager.scenes inMenu !! "game"%string = Some (Some 1%nat)
  /\ SceneManager.calls
       (SceneManager.play
          [SceneManager.Switch "menu" "{}"; SceneManager.Update (1 # 60); SceneManager.Render]
          (SceneManager.resumeWith (Some SceneManager.constructor_throws) 0
             SceneManager.fulfilled (SceneManager.switchScene "game" "level1" inMenu)))
     = [SceneManager.scene_new 0 "{}" 0; SceneManager.scene_onEnter 0;
        SceneManager.scene_onExit 0; SceneManager.scene_cleanup 0;
        SceneManager.scene_new 1 "level1" 1; SceneManager.scene_render 0]
  /\ SceneManager.transitioning
       (SceneManager.play
          [SceneManager.Switch "menu" "{}"; SceneManager.Update (1 # 60); SceneManager.Render]
          (SceneManager.resumeWith (Some SceneManager.cleanup_throws) 0
             SceneManager.fulfilled (SceneManager.switchScene "game" "level1" inMenu)))
     = true.
Proof.
  assert (Hi : SceneManager.idle inMenu) by (split; vm_compute; reflexivity).
  assert (Hc : SceneManager.currentScene inMenu = Some 0%nat) by (vm_compute; reflexivity).
  assert (Hs : SceneManager.scenes inMenu !! "game"%string = Some (Some 1%nat))
    by (vm_compute; reflexivity).
  split; [exact Hi |]. split; [exact Hc |]. split; [exact Hs |].
  split; [vm_compute; reflexivity |].
  destruct (sceneManager_throwing_scene_code_blocks inMenu 0 1 "game" "level1"%string
              [SceneManager.Switch "menu" "{}"; SceneManager.Update (1 # 60);
               SceneManager.Render]
              Hi Hc Hs) as ((Hblocked & _) & _).
  exact Hblocked.
Defined.

(** ** Accounting *)

Section Accounting.
Context `{ThreeBox3}.







End Accounting.


(** ** The camera *)

Lemma camera_play_pitch (events : list ThirdPersonCamera.Event) :
  forall c : ThirdPersonCamera.t,
    ThirdPersonCamera.minPhi c <= ThirdPersonCamera.maxPhi c ->
    ThirdPersonCamera.minPhi c <= ThirdPersonCamera.phi c <= ThirdPersonCamera.maxPhi c ->
    ThirdPersonCamera.minPhi (ThirdPersonCamera.play events c) = ThirdPersonCamera.minPhi c
    /\ ThirdPersonCamera.maxPhi (ThirdPersonCamera.play events c) = ThirdPersonCamera.maxPhi c
    /\ ThirdPersonCamera.sensitivity (ThirdPersonCamera.play events c)
       = ThirdPersonCamera.sensitivity c
    /\ ThirdPersonCamera.minPhi c <= ThirdPersonCamera.phi (ThirdPersonCamera.play events c)
       <= ThirdPersonCamera.maxPhi c
    /\ ThirdPersonCamera.theta (ThirdPersonCamera.play events c)
       == ThirdPersonCamera.theta c
          - ThirdPersonCamera.sensitivity c * ThirdPersonCamera.travelX events.
Proof.
  induction events as [| ev rest IH]; intros c Hlim Hphi.
  - cbn. repeat split; try tauto. ring.
  - change (ThirdPersonCamera.play (ev :: rest) c)
      with (ThirdPersonCamera.play rest (ThirdPersonCamera.handle ev c)).
    destruct ev as [movementX movementY | aiming].
    + destruct (IH (ThirdPersonCamera.handleMouseMove movementX movementY c)) as (A & B & C & D & E).
      * exact Hlim.
      * cbn. unfold JsMath.min. split.
        -- apply Q.le_max_l.
        -- apply Q.max_lub; [exact Hlim | apply Q.le_min_l].
      * cbn in A, B, C, D, E |- *. repeat split; try tauto.
        rewrite E. ring.
    + destruct (IH (ThirdPersonCamera.setAiming aiming c) Hlim Hphi) as (A & B & C & D & E).
      cbn in A, B, C, D, E |- *. repeat split; tauto.
Qed.

(** X26: the pitch never leaves its limits.  After any sequence of mouse
    moves and aiming changes on a new camera, [phi] lies between [minPhi]
    and [maxPhi], which are still [-Math.PI / 3] and [Math.PI / 3]; the yaw
    is not limited: [theta] is the sensitivity 0.002 times the horizontal
    travel of the mouse, negated. *)
Theorem camera_pitch_stays_within_limits (events : list ThirdPersonCamera.Event) :
  - JsMath.PI / 3
    <= ThirdPersonCamera.phi (ThirdPersonCamera.play events ThirdPersonCamera.constructor)
    <= JsMath.PI / 3
  /\ ThirdPersonCamera.minPhi (ThirdPersonCamera.play events ThirdPersonCamera.constructor)
     = - JsMath.PI / 3
  /\ ThirdPersonCamera.maxPhi (ThirdPersonCamera.play events ThirdPersonCamera.constructor)
     = JsMath.PI / 3
  /\ ThirdPersonCamera.theta (ThirdPersonCamera.play events ThirdPersonCamera.constructor)
     == - (0.002 * ThirdPersonCamera.travelX events).
Proof.
  destruct (camera_play_pitch events ThirdPersonCamera.constructor) as (A & B & C & D & E).
  - vm_compute. discriminate.
  - split; vm_compute; discriminate.
  - cbn in A, B, C, D, E. split; [exact D |]. split; [exact A |]. split; [exact B |].
    rewrite E. ring.
Qed.

(** ** The frame callbacks *)

Lemma physicsLoop_total (e : Engine.t) :
  0 < Engine.fixedTimeStep e ->
  exists n e',
    (forall fuel, (n <= fuel)%nat -> Engine.physicsLoop fuel e = Some e')
    /\ Engine.isRunning e' = Engine.isRunning e
    /\ Engine.fixedTimeStep e' = Engine.fixedTimeStep e
    /\ Engine.calls e' = Engine.calls e.
Proof.
  intros Hf.
  destruct (Qlt_le_dec (Engine.accumulator e) 0) as [Hneg | Hpos].
  - exists 0%nat, e.
    assert (Hc : JsMath.ge (Engine.accumulator e) (Engine.fixedTimeStep e) = false).
    { destruct (JsMath.ge _ _) eqn:E; [| reflexivity]. apply ge_true in E. lra. }
    split; [intros fuel _; destruct fuel; cbn; rewrite Hc; reflexivity | tauto].
  - set (n := Z.to_nat (Qfloor (Engine.accumulator e / Engine.fixedTimeStep e))).
    destruct (turns_bounds (Engine.accumulator e) (Engine.fixedTimeStep e) Hf Hpos) as [Hlo Hhi].
    fold n in Hlo, Hhi.
    exists n, (Engine.steps n e).
    destruct (steps_fields n e) as (F & R & _ & _ & C & _).
    split; [intros fuel Hfuel; exact (physicsLoop_runs n fuel e Hf Hlo Hhi Hfuel) | tauto].
Qed.

Lemma loop_total (currentTime : Q) (e : Engine.t) :
  0 < Engine.fixedTimeStep e ->
  exists n e',
    (forall fuel, (n <= fuel)%nat -> Engine.loop fuel currentTime e = Some e')
    /\ Engine.isRunning e' = Engine.isRunning e
    /\ Engine.fixedTimeStep e' = Engine.fixedTimeStep e
    /\ Browser.requested e'
       = (Browser.requested e + (if Engine.isRunning e then 1 else 0))%nat
    /\ Browser.framesRun e'
       = (Browser.framesRun e + (if Engine.isRunning e then 1 else 0))%nat.
Proof.
  intros Hf. unfold Engine.loop.
  destruct (Engine.isRunning e) eqn:Hrun; cbn [negb].
  - match goal with
    | |- context [Engine.physicsLoop _ ?x] => set (e4 := x)
    end.
    destruct (physicsLoop_total e4 Hf) as (n & e5 & Hloop & R & F & C).
    exists n. eexists. split.
    + intros fuel Hfuel. rewrite (Hloop fuel Hfuel). cbn [mbind option_bind]. reflexivity.
    + subst e4. cbn in R, F, C.
      unfold Browser.requested, Browser.framesRun. cbn. rewrite C, R, F.
      rewrite !List.filter_app, !length_app. cbn.
      repeat split; try reflexivity; try assumption; lia.
  - exists 0%nat, e. rewrite Hrun.
    repeat split; try reflexivity; lia.
Qed.

Lemma start_total (now currentTime : Q) (e : Engine.t) :
  0 < Engine.fixedTimeStep e ->
  exists n e',
    (forall fuel, (n <= fuel)%nat -> Engine.start fuel now currentTime e = Some e')
    /\ Engine.isRunning e' = true
    /\ Engine.fixedTimeStep e' = Engine.fixedTimeStep e
    /\ Browser.requested e'
       = (Browser.requested e + (if Engine.isRunning e then 0 else 1))%nat
    /\ Browser.framesRun e'
       = (Browser.framesRun e + (if Engine.isRunning e then 0 else 1))%nat.
Proof.
  intros Hf. unfold Engine.start.
  destruct (Engine.isRunning e) eqn:Hrun.
  - exists 0%nat, e. repeat split; try assumption; try reflexivity; lia.
  - destruct (loop_total currentTime
                (Engine.mk true now (Engine.deltaTime e) (Engine.fixedTimeStep e)
                   (Engine.accumulator e) (Engine.physics e) (Engine.calls e)) Hf)
      as (n & e' & Hloop & R & F & Q & M).
    exists n, e'. cbn in R, F, Q, M. repeat split; assumption.
Qed.

Lemma callbacks_keep_the_queue (times : list Q) :
  forall (e : Engine.t) (ran : nat),
    Engine.isRunning e = true -> 0 < Engine.fixedTimeStep e ->
    (ran < Browser.requested e)%nat ->
    exists n b,
      (forall fuel, (n <= fuel)%nat ->
         Browser.play fuel (Browser.Callback <$> times) (Browser.mk e ran) = Some b)
      /\ Engine.isRunning (Browser.engine b) = true
      /\ Browser.requested (Browser.engine b) = (Browser.requested e + length times)%nat
      /\ Browser.ran b = (ran + length times)%nat
      /\ Browser.framesRun (Browser.engine b) = (Browser.framesRun e + length times)%nat.
Proof.
  induction times as [| currentTime rest IH]; intros e ran Hrun Hf Hq.
  - exists 0%nat, (Browser.mk e ran). cbn.
    repeat split; try assumption; try reflexivity; lia.
  - destruct (loop_total currentTime e Hf) as (n1 & e1 & Hloop & R1 & F1 & Q1 & M1).
    rewrite Hrun in R1, Q1, M1. cbv iota in Q1, M1.
    assert (Hf1 : 0 < Engine.fixedTimeStep e1) by (rewrite F1; exact Hf).
    destruct (IH e1 (S ran) R1 Hf1 ltac:(lia)) as (n2 & b & Hplay & R & Q & N & M).
    exists (Nat.max n1 n2), b. split.
    + intros fuel Hfuel.
      cbn [fmap list_fmap Browser.play Browser.handle Browser.engine Browser.ran].
      assert (Hlt : (ran <? Browser.requested e)%nat = true) by (apply Nat.ltb_lt; exact Hq).
      rewrite Hlt, (Hloop fuel ltac:(lia)). cbn [mbind option_bind].
      apply Hplay. lia.
    + cbn [length]. repeat split; try assumption; lia.
Qed.

(** X27: stopping does not cancel the queued frame callback, and starting
    again queues another.  On a page with the engine stopped and no callback
    queued, [start(); stop(); start()] before the browser runs a callback
    leaves two callbacks queued, and they stay two however many callbacks
    the browser runs afterwards: each one goes through a whole frame and
    queues itself again.  (For every fuel above some bound: the frames end.)
    With a callback run between [stop()] and the second [start()] a single
    one is queued. *)
Theorem engine_restart_doubles_the_frame_loop
    (e : Engine.t) (now1 first now2 second between : Q) (times : list Q) :
  Engine.isRunning e = false -> 0 < Engine.fixedTimeStep e ->
  exists n twice once,
    (forall fuel, (n <= fuel)%nat ->
       Browser.play fuel
         ([Browser.Start now1 first; Browser.Stop; Browser.Start now2 second]
          ++ (Browser.Callback <$> times)) (Browser.page e) = Some twice
       /\ Browser.play fuel
            ([Browser.Start now1 first; Browser.Stop; Browser.Callback between;
              Browser.Start now2 second]
             ++ (Browser.Callback <$> times)) (Browser.page e) = Some once)
    /\ Browser.queued twice = 2%nat
    /\ Engine.isRunning (Browser.engine twice) = true
    /\ Browser.framesRun (Browser.engine twice)
       = (Browser.framesRun e + 2 + length times)%nat
    /\ Browser.queued once = 1%nat
    /\ Engine.isRunning (Browser.engine once) = true
    /\ Browser.framesRun (Browser.engine once)
       = (Browser.framesRun e + 2 + length times)%nat.
Proof.
  intros Hrun Hf.
  destruct (start_total now1 first e Hf) as (n1 & e1 & Hstart1 & R1 & F1 & Q1 & M1).
  rewrite Hrun in Q1, M1. cbv iota in Q1, M1.
  assert (Hf1 : 0 < Engine.fixedTimeStep (Engine.stop e1)) by (cbn; rewrite F1; exact Hf).
  (* the restart at once *)
  destruct (start_total now2 second (Engine.stop e1) Hf1) as (n2 & e2 & Hstart2 & R2 & F2 & Q2 & M2).
  change (Engine.isRunning (Engine.stop e1)) with false in Q2, M2.
  change (Engine.fixedTimeStep (Engine.stop e1)) with (Engine.fixedTimeStep e1) in F2.
  change (Browser.requested (Engine.stop e1)) with (Browser.requested e1) in Q2.
  change (Browser.framesRun (Engine.stop e1)) with (Browser.framesRun e1) in M2.
  cbv iota in Q2, M2.
  assert (Hf2 : 0 < Engine.fixedTimeStep e2) by (rewrite F2, F1; exact Hf).
  destruct (callbacks_keep_the_queue times e2 (Browser.requested e) R2 Hf2 ltac:(lia))
    as (n3 & twice & Hplay2 & R3 & Q3 & N3 & M3).
  (* the restart after the queued callback has run *)
  destruct (loop_total between (Engine.stop e1) Hf1) as (n4 & e4 & Hloop4 & R4 & F4 & Q4 & M4).
  change (Engine.isRunning (Engine.stop e1)) with false in R4, Q4, M4.
  change (Engine.fixedTimeStep (Engine.stop e1)) with (Engine.fixedTimeStep e1) in F4.
  change (Browser.requested (Engine.stop e1)) with (Browser.requested e1) in Q4.
  change (Browser.framesRun (Engine.stop e1)) with (Browser.framesRun e1) in M4.
  cbv iota in Q4, M4.
  assert (Hf4 : 0 < Engine.fixedTimeStep e4) by (rewrite F4, F1; exact Hf).
  destruct (start_total now2 second e4 Hf4) as (n5 & e5 & Hstart5 & R5 & F5 & Q5 & M5).
  rewrite R4 in Q5, M5. cbv iota in Q5, M5.
  assert (Hf5 : 0 < Engine.fixedTimeStep e5) by (rewrite F5; exact Hf4).
  destruct (callbacks_keep_the_queue times e5 (S (Browser.requested e)) R5 Hf5 ltac:(lia))
    as (n6 & once & Hplay5 & R6 & Q6 & N6 & M6).
  exists (Nat.max n1 (Nat.max n2 (Nat.max n3 (Nat.max n4 (Nat.max n5 n6))))), twice, once.
  split.
  - intros fuel Hfuel. split.
    + cbn [app Browser.play Browser.handle Browser.page Browser.engine Browser.ran].
      rewrite (Hstart1 fuel ltac:(lia)). cbn [mbind option_bind Browser.engine Browser.ran].
      rewrite (Hstart2 fuel ltac:(lia)). cbn [mbind option_bind].
      apply Hplay2. lia.
    + cbn [app Browser.play Browser.handle Browser.page Browser.engine Browser.ran].
      rewrite (Hstart1 fuel ltac:(lia)). cbn [mbind option_bind Browser.engine Browser.ran].
      change (Browser.requested (Engine.stop e1)) with (Browser.requested e1).
      assert (Hlt : (Browser.requested e <? Browser.requested e1)%nat = true)
        by (apply Nat.ltb_lt; lia).
      rewrite Hlt, (Hloop4 fuel ltac:(lia)). cbn [mbind option_bind Browser.engine Browser.ran].
      rewrite (Hstart5 fuel ltac:(lia)). cbn [mbind option_bind].
      apply Hplay5. lia.
  - unfold Browser.queued. repeat split; try assumption; lia.
Qed.

Lemma engine_restart_witness :
  Engine.isRunning Engine.new = false
  /\ 0 < Engine.fixedTimeStep Engine.new
  /\ (Browser.queued <$>
        Browser.play 7
          [Browser.Start 0 1; Browser.Stop; Browser.Start 2 3;
           Browser.Callback 16; Browser.Callback 17; Browser.Callback 33]
          (Browser.page Engine.new)) = Some 2%nat
  /\ (Browser.queued <$>
        Browser.play 7
          [Browser.Start 0 1; Browser.Callback 16; Browser.Callback 33]
          (Browser.page Engine.new)) = Some 1%nat
  /\ exists n twice once,
       (forall fuel, (n <= fuel)%nat ->
          Browser.play fuel
            ([Browser.Start 0 1; Browser.Stop; Browser.Start 2 3]
             ++ (Browser.Callback <$> [16; 17; 33])) (Browser.page Engine.new) = Some twice
          /\ Browser.play fuel
               ([Browser.Start 0 1; Browser.Stop; Browser.Callback 2; Browser.Start 2 3]
                ++ (Browser.Callback <$> [16; 17; 33])) (Browser.page Engine.new) = Some once)
       /\ Browser.queued twice = 2%nat
       /\ Engine.isRunning (Browser.engine twice) = true
       /\ Browser.framesRun (Browser.engine twice)
          = (Browser.framesRun Engine.new + 2 + length [16; 17; 33])%nat
       /\ Browser.queued once = 1%nat
       /\ Engine.isRunning (Browser.engine once) = true
       /\ Browser.framesRun (Browser.engine once)
          = (Browser.framesRun Engine.new + 2 + length [16; 17; 33])%nat.
Proof.
  split; [reflexivity |]. split; [reflexivity |].
  split; [vm_compute; reflexivity |]. split; [vm_compute; reflexivity |].
  apply (engine_restart_doubles_the_frame_loop Engine.new 0 1 2 3 2 [16; 17; 33]);
    reflexivity.
Defined.
